(** * Starlink_G4-26: frame transforms and observation geometry

    A shallow embedding of the numeric core of the repository
    ([rot.py], [cockpitview.py], [relative.py]) and the proofs of its
    specified properties.

    Numbers.  The Python code computes with IEEE doubles.  Here every
    number is a real number of [R]: arithmetic is exact, there is no NaN,
    no infinity and no signed zero.  The statements below are therefore
    the "exact over the reals" reading of the specification.

    Errors.  Python raises where the model returns a value of [result]
    other than [Ok]: dividing a Python float by zero raises
    [ZeroDivisionError], subscripting [None] raises [TypeError], an index
    past the end of a list raises [IndexError].  The functions of
    [cockpitview.py] divide numpy scalars, which does not raise, and only
    by magnitudes that are positive where they are used; they return
    plain values. *)

From Stdlib Require Import Reals Lra Lia List Psatz RNsatz.
From Stdlib Require Import Bool Permutation.
From Stdlib Require String Ascii.
Import ListNotations.

Open Scope R_scope.

(** * Part I: the embedding *)

(** ** Data model *)

(** A Python list, tuple or numpy array of three numbers, read by index. *)
Record vec3 : Type := Vec3 { ix0 : R; ix1 : R; ix2 : R }.

Declare Scope vec_scope.
Delimit Scope vec_scope with vec.
Notation "v .[0]" := (ix0 v) (at level 1, left associativity, format "v .[0]") : vec_scope.
Notation "v .[1]" := (ix1 v) (at level 1, left associativity, format "v .[1]") : vec_scope.
Notation "v .[2]" := (ix2 v) (at level 1, left associativity, format "v .[2]") : vec_scope.
Open Scope vec_scope.

(** A list of three rows, as [ecef_to_ntw_matrix] builds it. *)
Record mat3 : Type := Mat3 { row0 : vec3; row1 : vec3; row2 : vec3 }.

(** Element-wise difference: [a - b] on numpy arrays, and the
    comprehension [[a[k] - b[k] for k in range(3)]]. *)
Definition vsub (a b : vec3) : vec3 :=
  Vec3 (a.[0] - b.[0]) (a.[1] - b.[1]) (a.[2] - b.[2]).

(** [np.linalg.norm] of a three-element array. *)
Definition norm (v : vec3) : R :=
  sqrt (v.[0] * v.[0] + v.[1] * v.[1] + v.[2] * v.[2]).

(** ** Outcomes of a Python call *)

Inductive result (A : Type) : Type :=
| Ok (a : A)
| ZeroDivisionError
| TypeError
| IndexError.
Arguments Ok {A} a.
Arguments ZeroDivisionError {A}.
Arguments TypeError {A}.
Arguments IndexError {A}.

Definition bind {A B : Type} (m : result A) (k : A -> result B) : result B :=
  match m with
  | Ok a => k a
  | ZeroDivisionError => ZeroDivisionError
  | TypeError => TypeError
  | IndexError => IndexError
  end.

Notation "x <- m ;; k" := (bind m (fun x => k))
  (at level 61, m at next level, right associativity).

(** [x / y] on Python floats: raises on a zero divisor. *)
Definition pydiv (x y : R) : result R :=
  if Req_EM_T y 0 then ZeroDivisionError else Ok (x / y).

(** [l[i]] on a Python list, for an index that is not negative. *)
Definition getitem {A : Type} (l : list A) (i : nat) : result A :=
  match nth_error l i with
  | Some a => Ok a
  | None => IndexError
  end.

(** A [for] loop over the items of [l], threading the loop's variables
    and stopping at the first exception. *)
Fixpoint for_each {A S : Type} (l : list A) (body : A -> S -> result S)
  (s : S) : result S :=
  match l with
  | [] => Ok s
  | a :: l' => s' <- body a s ;; for_each l' body s'
  end.

(** [range(lo, hi)]. *)
Definition range (lo hi : nat) : list nat := seq lo (hi - lo).

(** ** numpy and math primitives over the reals *)

(** [np.sign]. *)
Definition sign (x : R) : R :=
  if Rlt_dec 0 x then 1 else if Rlt_dec x 0 then -1 else 0.

(** [np.arctan2 (y, x)]: the angle of the point [(x, y)], in (-PI, PI],
    and 0 at the origin. *)
Definition arctan2 (y x : R) : R :=
  if Rlt_dec 0 x then atan (y / x)
  else if Rlt_dec x 0 then
         if Rle_dec 0 y then atan (y / x) + PI else atan (y / x) - PI
  else if Rlt_dec 0 y then PI / 2
  else if Rlt_dec y 0 then - (PI / 2)
  else 0.

(** [np.degrees]. *)
Definition degrees (x : R) : R := x * 180 / PI.

(** [np.hypot]. *)
Definition hypot (a b : R) : R := sqrt (a * a + b * b).

(** [x % y] on floats with a positive [y]: the remainder of the floored
    division. *)
Definition pymod (x y : R) : R := x - IZR (Int_part (x / y)) * y.

(** [math.tau]. *)
Definition tau : R := 2 * PI.

(** ** rot.py *)

Module Rot.

Definition rot1 (vec : vec3) (xval : R) : vec3 :=
  let temp := vec.[2] in
  let c := cos xval in
  let s := sin xval in
  let o2 := c * vec.[2] - s * vec.[1] in
  let o1 := c * vec.[1] + s * temp in
  let o0 := vec.[0] in
  Vec3 o0 o1 o2.

Definition rot2 (vec : vec3) (xval : R) : vec3 :=
  let temp := vec.[2] in
  let c := cos xval in
  let s := sin xval in
  let o2 := c * vec.[2] + s * vec.[0] in
  let o0 := c * vec.[0] - s * temp in
  let o1 := vec.[1] in
  Vec3 o0 o1 o2.

Definition rot3 (vec : vec3) (xval : R) : vec3 :=
  let temp := vec.[1] in
  let c := cos xval in
  let s := sin xval in
  let o1 := c * vec.[1] - s * vec.[0] in
  let o0 := c * vec.[0] + s * temp in
  let o2 := vec.[2] in
  Vec3 o0 o1 o2.

End Rot.

(** ** cockpitview.py *)

Module Cockpitview.

Definition dot_product (a b : vec3) : R :=
  a.[0] * b.[0] + a.[1] * b.[1] + a.[2] * b.[2].

(** [(v[0]**2 + v[1]**2 + v[2]**2)**0.5]: the power 0.5 of a sum of
    squares is its square root. *)
Definition magnitude (v : vec3) : R :=
  sqrt (v.[0] ^ 2 + v.[1] ^ 2 + v.[2] ^ 2).

(** Returns [(rho, az, eldeg)]. *)
Definition twoecef2razel (r1ecef v1ecef r2ecef v2ecef : vec3) (lat lon : R)
  : R * R * R :=
  let pi := PI in
  let halfpi := pi * 0.5 in
  let twopi := 2 * pi in
  let small := 0.00000001 in
  let lon :=
    if Rlt_dec lon (- pi) then lon + twopi
    else if Rgt_dec lon pi then lon - twopi
    else lon in
  let rhoecef := vsub r2ecef r1ecef in
  let drhoecef := vsub v2ecef v1ecef in
  let rho := norm rhoecef in
  let tempvec := Rot.rot3 rhoecef lon in
  let rhosez := Rot.rot2 tempvec (halfpi - lat) in
  let tempvec := Rot.rot3 drhoecef lon in
  let drhosez := Rot.rot2 tempvec (halfpi - lat) in
  let temp := sqrt (rhosez.[0] * rhosez.[0] + rhosez.[1] * rhosez.[1]) in
  let el :=
    if Rlt_dec temp small then sign rhosez.[2] * halfpi
    else
      let magrhosez := norm rhosez in
      asin (rhosez.[2] / magrhosez) in
  let eldeg := el * (180 / pi) in
  let az :=
    if Rlt_dec temp small
    then arctan2 drhosez.[1] (- drhosez.[0]) * (180 / pi)
    else arctan2 rhosez.[1] (- rhosez.[0]) * (180 / pi) in
  (rho, az, eldeg).

(** Returns the tuple [(east, north, up)]. *)
Definition ecef2enu (ecef : vec3) (lat lon : R) : vec3 :=
  let u := ecef.[0] in
  let v := ecef.[1] in
  let w := ecef.[2] in
  let temp := cos lon * u + sin lon * v in
  let east := - sin lon * u + cos lon * v in
  let up := cos lat * temp + sin lat * w in
  let north := - sin lat * temp + cos lat * w in
  Vec3 east north up.

Definition calculate_heading_from_velocity (vecef : vec3) (lat lon : R) : R :=
  let u := vecef.[0] in
  let v := vecef.[1] in
  let w := vecef.[2] in
  let temp := cos lon * u + sin lon * v in
  let v_east := - sin lon * u + cos lon * v in
  let v_north := - sin lat * temp + cos lat * w in
  let heading_radians := arctan2 v_east v_north in
  heading_radians.

(** Returns the tuple [(east, north, up)]. *)
Definition twoecef2enu (acecef satecef : vec3) (lat lon : R) : vec3 :=
  let u := satecef.[0] - acecef.[0] in
  let v := satecef.[1] - acecef.[1] in
  let w := satecef.[2] - acecef.[2] in
  let temp := cos lon * u + sin lon * v in
  let east := - sin lon * u + cos lon * v in
  let up := cos lat * temp + sin lat * w in
  let north := - sin lat * temp + cos lat * w in
  Vec3 east north up.

(** Returns [(slantRange, az, elev)].  The components are scalars, so the
    masked assignment raises [TypeError] and the [except] branch runs. *)
Definition twoecef2aer (acecef satecef : vec3) (lat lon : R) : R * R * R :=
  let enu := twoecef2enu acecef satecef lat lon in
  let e := enu.[0] in
  let n := enu.[1] in
  let u := enu.[2] in
  let e := if Rlt_dec (Rabs e) 1e-3 then 0.0 else e in
  let n := if Rlt_dec (Rabs n) 1e-3 then 0.0 else n in
  let u := if Rlt_dec (Rabs u) 1e-3 then 0.0 else u in
  let r := hypot e n in
  let slantRange := hypot r u in
  let elev := arctan2 u r in
  let az := pymod (arctan2 e n) tau in
  let az := degrees az in
  let elev := degrees elev in
  (slantRange, az, elev).

(** Returns [(range, lookdeg, eldeg)]. *)
Definition cockpitview (r1ecef v1ecef r2ecef : vec3) (lat lon : R)
  : R * R * R :=
  let pos_enu := twoecef2enu r1ecef r2ecef lat lon in
  let e := pos_enu.[0] in
  let n := pos_enu.[1] in
  let u := pos_enu.[2] in
  let heading_radians := calculate_heading_from_velocity v1ecef lat lon in
  let e_prime := e * cos (- heading_radians) + n * sin (- heading_radians) in
  let n_prime := - e * sin (- heading_radians) + n * cos (- heading_radians) in
  let u_prime := u in
  let range := magnitude (Vec3 e_prime n_prime u_prime) in
  let horiz_range := magnitude (Vec3 e_prime n_prime 0) in
  let look := arctan2 e_prime n_prime in
  let lookdeg := degrees look in
  let el := arctan2 u_prime horiz_range in
  let eldeg := degrees el in
  (range, lookdeg, eldeg).

End Cockpitview.

(** ** relative.py *)

Module Relative.

Definition dot_product (a b : vec3) : R :=
  a.[0] * b.[0] + a.[1] * b.[1] + a.[2] * b.[2].

Definition cross_product (a b : vec3) : vec3 :=
  Vec3 (a.[1] * b.[2] - a.[2] * b.[1])
       (a.[2] * b.[0] - a.[0] * b.[2])
       (a.[0] * b.[1] - a.[1] * b.[0]).

(** [(v[0]**2 + v[1]**2 + v[2]**2)**0.5]. *)
Definition magnitude (v : vec3) : R :=
  sqrt (v.[0] ^ 2 + v.[1] ^ 2 + v.[2] ^ 2).

Definition normalize (v : vec3) : result vec3 :=
  let mag := magnitude v in
  x <- pydiv v.[0] mag ;;
  y <- pydiv v.[1] mag ;;
  z <- pydiv v.[2] mag ;;
  Ok (Vec3 x y z).

Definition transform_vector (matrix : mat3) (vector : vec3) : vec3 :=
  Vec3 (dot_product (row0 matrix) vector)
       (dot_product (row1 matrix) vector)
       (dot_product (row2 matrix) vector).

(** [math.sqrt(sum([(point2[i] - point1[i])**2 for i in range(3)]))]. *)
Definition distance (point1 point2 : vec3) : R :=
  sqrt ((point2.[0] - point1.[0]) ^ 2 + (point2.[1] - point1.[1]) ^ 2
        + (point2.[2] - point1.[2]) ^ 2).

Definition ecef_to_ntw_matrix (r v : vec3) : result mat3 :=
  n_hat <- normalize (cross_product r v) ;;
  t_hat <- normalize v ;;
  let w_hat := cross_product t_hat n_hat in
  Ok (Mat3 n_hat t_hat w_hat).

(** The angle between two vectors, in degrees. *)
Definition angle_between_vectors (A B : vec3) : result R :=
  cos_theta <- pydiv (dot_product A B) (magnitude A * magnitude B) ;;
  let cos_theta := Rmax (-1.0) (Rmin 1.0 cos_theta) in
  let theta := 180.0 * acos cos_theta / PI in
  Ok theta.

(** An entry of [satellite_positions]. *)
Record satellite : Type :=
  { filename : String.string; position : vec3 }.

(** The dictionary [furthest_satellites]; a key holding [None] is an
    absent option. *)
Record furthest : Type :=
  { fs_sat1 : option nat;
    fs_sat2 : option nat;
    fs_distance : R;
    fs_midpoint : option vec3;
    fs_midpoint_sat : nat }.

(** The variables the pair loop updates. *)
Record pair_state : Type :=
  { max_length_degrees_ecef : R;
    max_length_degrees_enu : R;
    furthest_satellites : furthest }.

(** Subscripting a value that may be [None]: [None[i]] raises. *)
Definition subscriptable {A : Type} (o : option A) : result A :=
  match o with
  | Some a => Ok a
  | None => TypeError
  end.

(** The body of the inner loop of [calculate_apparent_length], at the
    pair of indices [(i, j)]. *)
Definition pair_body (satellite_positions : list satellite)
  (r_ac_ecef : vec3) (lat lon : R) (i j : nat) (st : pair_state)
  : result pair_state :=
  sat_i <- getitem satellite_positions i ;;
  sat_j <- getitem satellite_positions j ;;
  let pos_i := position sat_i in
  let pos_j := position sat_j in
  let dist := distance pos_i pos_j in
  let fs := furthest_satellites st in
  let fs :=
    if Rgt_dec dist (fs_distance fs) then
      {| fs_sat1 := Some i;
         fs_sat2 := Some j;
         fs_distance := dist;
         fs_midpoint := Some (Vec3 ((pos_i.[0] + pos_j.[0]) / 2)
                                   ((pos_i.[1] + pos_j.[1]) / 2)
                                   ((pos_i.[2] + pos_j.[2]) / 2));
         fs_midpoint_sat := fs_midpoint_sat fs |}
    else fs in
  let vec_a_ecef := vsub pos_i r_ac_ecef in
  let vec_b_ecef := vsub pos_j r_ac_ecef in
  let vec_a_enu := Cockpitview.ecef2enu vec_a_ecef lat lon in
  let vec_b_enu := Cockpitview.ecef2enu vec_b_ecef lat lon in
  let dot_prod_ecef := dot_product vec_a_ecef vec_b_ecef in
  let magnitude_a_ecef := magnitude vec_a_ecef in
  let magnitude_b_ecef := magnitude vec_b_ecef in
  let dot_prod_enu := dot_product vec_a_enu vec_b_enu in
  let magnitude_a_enu := magnitude vec_a_enu in
  let magnitude_b_enu := magnitude vec_b_enu in
  let max_ecef :=
    if Req_EM_T (magnitude_a_ecef * magnitude_b_ecef) 0
    then max_length_degrees_ecef st
    else
      let cos_theta_ecef :=
        dot_prod_ecef / (magnitude_a_ecef * magnitude_b_ecef) in
      let cos_theta_ecef_clamped := Rmax (Rmin cos_theta_ecef 1) (-1) in
      let theta_ecef := acos cos_theta_ecef_clamped in
      let length_degrees_ecef := theta_ecef * (180 / PI) in
      Rmax (max_length_degrees_ecef st) length_degrees_ecef in
  let max_enu :=
    if Req_EM_T (magnitude_a_enu * magnitude_b_enu) 0
    then max_length_degrees_enu st
    else
      let cos_theta_enu :=
        dot_prod_enu / (magnitude_a_enu * magnitude_b_enu) in
      let cos_theta_enu_clamped := Rmax (Rmin cos_theta_enu 1) (-1) in
      let theta_enu := acos cos_theta_enu_clamped in
      let length_degrees_enu := theta_enu * (180 / PI) in
      Rmax (max_length_degrees_enu st) length_degrees_enu in
  Ok {| max_length_degrees_ecef := max_ecef;
        max_length_degrees_enu := max_enu;
        furthest_satellites := fs |}.

(** The consolidated loop: [for i in range(len(...))], and inside it
    [for j in range(i + 1, len(...))]. *)
Definition pair_loop (satellite_positions : list satellite)
  (r_ac_ecef : vec3) (lat lon : R) (st : pair_state) : result pair_state :=
  let len := List.length satellite_positions in
  for_each (range 0 len)
    (fun i st =>
       for_each (range (i + 1) len)
         (fun j st => pair_body satellite_positions r_ac_ecef lat lon i j st)
         st)
    st.

(** [enumerate]. *)
Definition enumerate {A : Type} (l : list A) : list (nat * A) :=
  combine (seq 0 (List.length l)) l.

(** The body of the second loop: [closest_distance] is [None] while it is
    [float('inf')], which every distance is below. *)
Definition midpoint_body (entry : nat * satellite)
  (st : option R * furthest) : result (option R * furthest) :=
  let '(idx, sat) := entry in
  let '(closest_distance, fs) := st in
  midpoint <- subscriptable (fs_midpoint fs) ;;
  let dist := distance (position sat) midpoint in
  let closer :=
    match closest_distance with
    | None => true
    | Some c => if Rlt_dec dist c then true else false
    end in
  if closer then
    Ok (Some dist,
        {| fs_sat1 := fs_sat1 fs;
           fs_sat2 := fs_sat2 fs;
           fs_distance := fs_distance fs;
           fs_midpoint := fs_midpoint fs;
           fs_midpoint_sat := idx |})
  else Ok (closest_distance, fs).

(** What [calculate_apparent_length] returns: a tuple of six values, each
    of which may be [None]. *)
Definition lengths : Type :=
  (option R * option R * option R * option R * option R * option furthest)%type.

(** The three variables as they are initialised before the pair loop. *)
Definition initial_pair_state : pair_state :=
  {| max_length_degrees_ecef := 0;
     max_length_degrees_enu := 0;
     furthest_satellites :=
       {| fs_sat1 := None; fs_sat2 := None; fs_distance := 0;
          fs_midpoint := None; fs_midpoint_sat := 0%nat |} |}.

Definition calculate_apparent_length (satellite_positions : list satellite)
  (r_ac_ecef : vec3) (lat lon : R) : result lengths :=
  st <- pair_loop satellite_positions r_ac_ecef lat lon initial_pair_state ;;
  scan <- for_each (enumerate satellite_positions) midpoint_body
            (None, furthest_satellites st) ;;
  let fs := snd scan in
  match fs_sat1 fs, fs_sat2 fs with
  | Some s1, Some s2 =>
      sat1 <- getitem satellite_positions s1 ;;
      let distance_aircraft_to_sat1 := distance (position sat1) r_ac_ecef in
      sat2 <- getitem satellite_positions s2 ;;
      let distance_aircraft_to_sat2 := distance (position sat2) r_ac_ecef in
      let distanceDiff_kms :=
        Rabs (distance_aircraft_to_sat1 - distance_aircraft_to_sat2) in
      mid <- getitem satellite_positions (fs_midpoint_sat fs) ;;
      let distance_sat1_to_mid := distance (position sat1) (position mid) in
      let distance_sat2_to_mid := distance (position sat2) (position mid) in
      Ok (Some (max_length_degrees_ecef st),
          Some (max_length_degrees_enu st),
          Some distanceDiff_kms,
          Some distance_sat1_to_mid,
          Some distance_sat2_to_mid,
          Some fs)
  | _, _ => Ok (None, None, None, None, None, None)
  end.

Definition calculate_sun_grazing_angle
  (r_ac_ecef v_ac_ecef r_sun_ecef v_sun_ecef r_satellite v_satellite : vec3)
  : result R :=
  ecef_to_ntw <- ecef_to_ntw_matrix r_satellite v_satellite ;;
  let position_sun_NTW := transform_vector ecef_to_ntw r_sun_ecef in
  let position_aircraft_NTW := transform_vector ecef_to_ntw r_ac_ecef in
  theta_NTW <- angle_between_vectors position_sun_NTW position_aircraft_NTW ;;
  let graze_angle_NTW := (180 - theta_NTW) / 2 in
  Ok graze_angle_NTW.

(** [math.pi / 180] times the angle. *)
Definition deg_to_rad (degrees : R) : R := degrees * PI / 180.0.

(** Returns [(rho, theta, phi)]: the distance, the azimuth measured from
    the second axis towards the first, and the elevation, both in
    degrees.  [math.asin] is only called with an argument in [-1, 1]. *)
Definition cartesian_to_spherical (cartesian : vec3) : R * R * R :=
  let X := cartesian.[0] in
  let Y := cartesian.[1] in
  let Z := cartesian.[2] in
  let rho := sqrt (X ^ 2 + Y ^ 2 + Z ^ 2) in
  let theta := arctan2 X Y in
  let theta := degrees theta in
  let phi := if Req_EM_T rho 0 then 0 else asin (Z / rho) in
  let phi := degrees phi in
  (rho, theta, phi).

Definition parallel_component (A B : vec3) : result vec3 :=
  scalar <- pydiv (dot_product A B) (magnitude B * magnitude B) ;;
  let C := Vec3 (scalar * B.[0]) (scalar * B.[1]) (scalar * B.[2]) in
  Ok C.

(** [[sum(vector[i] * basis_matrix[j][i] for i in range(3)) for j in
    range(3)]]; [sum] starts from 0. *)
Definition transform_to_basis (vector : vec3) (basis_matrix : mat3) : vec3 :=
  Vec3 (0 + vector.[0] * (row0 basis_matrix).[0]
          + vector.[1] * (row0 basis_matrix).[1]
          + vector.[2] * (row0 basis_matrix).[2])
       (0 + vector.[0] * (row1 basis_matrix).[0]
          + vector.[1] * (row1 basis_matrix).[1]
          + vector.[2] * (row1 basis_matrix).[2])
       (0 + vector.[0] * (row2 basis_matrix).[0]
          + vector.[1] * (row2 basis_matrix).[1]
          + vector.[2] * (row2 basis_matrix).[2]).

(** The keys of the dictionary of [extract_data_from_file] that
    [calculate_relative_values] reads; each holds a float or [None]. *)
Record state_data : Type :=
  { X : option R; Y : option R; Z : option R;
    VX : option R; VY : option R; VZ : option R }.

(** A list of three values, each a float or [None]. *)
Record ovec3 : Type := OVec3 { o0 : option R; o1 : option R; o2 : option R }.

(** [a - b] where an operand may be [None]: that raises. *)
Definition pysub (a b : option R) : result R :=
  match a, b with
  | Some x, Some y => Ok (x - y)
  | _, _ => TypeError
  end.

(** [[a[i] - b[i] for i in range(3)]]. *)
Definition osub (a b : ovec3) : result vec3 :=
  x <- pysub (o0 a) (o0 b) ;;
  y <- pysub (o1 a) (o1 b) ;;
  z <- pysub (o2 a) (o2 b) ;;
  Ok (Vec3 x y z).

(** A list of three floats, passed to a function that computes with its
    items: a [None] among them raises at its first use. *)
Definition floats (a : ovec3) : result vec3 :=
  match o0 a, o1 a, o2 a with
  | Some x, Some y, Some z => Ok (Vec3 x y z)
  | _, _, _ => TypeError
  end.

(** The eleven values [calculate_relative_values] returns. *)
Record relative_values : Type :=
  { r_satellite_relative : vec3;
    range_magnitude : R;
    r_satellite_enu : vec3;
    range_mag_enu : R;
    v_satellite_relative : vec3;
    velocity_magnitude : R;
    v_satellite_enu : vec3;
    velocity_mag_enu : R;
    sat_enu_rho : R;
    sat_enu_theta : R;
    sat_enu_phi : R }.

Definition calculate_relative_values (aircraft_data satellite_data : state_data)
  (lat lon : R) : result relative_values :=
  let r_ac_ecef := OVec3 (X aircraft_data) (Y aircraft_data) (Z aircraft_data) in
  let v_ac_ecef :=
    OVec3 (VX aircraft_data) (VY aircraft_data) (VZ aircraft_data) in
  let r_satellite :=
    OVec3 (X satellite_data) (Y satellite_data) (Z satellite_data) in
  r_satellite_relative <- osub r_satellite r_ac_ecef ;;
  acecef <- floats r_ac_ecef ;;
  satecef <- floats r_satellite ;;
  let r_satellite_enu := Cockpitview.twoecef2enu acecef satecef lat lon in
  let '(sat_enu_rho, sat_enu_theta, sat_enu_phi) :=
    cartesian_to_spherical r_satellite_enu in
  let v_satellite :=
    OVec3 (VX satellite_data) (VY satellite_data) (VZ satellite_data) in
  v_satellite_relative <- osub v_satellite v_ac_ecef ;;
  acvel <- floats v_ac_ecef ;;
  satvel <- floats v_satellite ;;
  let v_satellite_enu := Cockpitview.twoecef2enu acvel satvel lat lon in
  let range_magnitude := magnitude r_satellite_relative in
  let range_mag_enu := magnitude r_satellite_enu in
  let velocity_magnitude := magnitude v_satellite_relative in
  let velocity_mag_enu := magnitude v_satellite_enu in
  Ok {| r_satellite_relative := r_satellite_relative;
        range_magnitude := range_magnitude;
        r_satellite_enu := r_satellite_enu;
        range_mag_enu := range_mag_enu;
        v_satellite_relative := v_satellite_relative;
        velocity_magnitude := velocity_magnitude;
        v_satellite_enu := v_satellite_enu;
        velocity_mag_enu := velocity_mag_enu;
        sat_enu_rho := sat_enu_rho;
        sat_enu_theta := sat_enu_theta;
        sat_enu_phi := sat_enu_phi |}.

End Relative.

(** ** stars.py *)

Module Stars.

Definition hms_to_decimal (hours minutes seconds : R) : R :=
  15 * (hours + minutes / 60 + seconds / 3600).

Definition dms_to_decimal (degrees minutes seconds : R) : R :=
  let sign := if Rge_dec degrees 0 then 1 else -1 in
  sign * (Rabs degrees + minutes / 60 + seconds / 3600).

Definition deg_to_rad (degrees : R) : R := degrees * PI / 180.0.

(** An entry of the table [stars]: constellation, name, right ascension
    and declination in degrees. *)
Definition star : Type := (String.string * String.string * R * R)%type.

(** A row handed to [writer.writerow]: the aircraft path, the star's name,
    the look angle and the elevation. *)
Definition star_row : Type := (String.string * String.string * R * R)%type.

Section ProcessStars.

(** The time stamp of the aircraft file, [radec2azel] of the module
    [vallado], and [os.path.join]: none is code of this repository. *)
Variable datetime : Type.
Variable radec2azel : R -> R -> R -> R -> datetime -> R * R.
Variable path_join : String.string -> String.string -> String.string.

(** The rows are those written so far; the function appends one row for
    each star. *)
Definition process_stars (subdir aircraft : String.string)
  (heading_deg lat_deg lon_deg : R) (ac_datetime : datetime)
  (stars : list star) (writer : list star_row) : list star_row :=
  let ac_path := path_join subdir aircraft in
  fold_left
    (fun writer (entry : star) =>
       let '(constellation_name, star_name, ra_deg, dec_deg) := entry in
       let '(azdeg, eldeg) :=
         radec2azel ra_deg dec_deg lat_deg lon_deg ac_datetime in
       let look_deg := azdeg - heading_deg in
       let look_deg := pymod (look_deg + 180) 360 - 180 in
       writer ++ [(ac_path, star_name, look_deg, eldeg)])
    stars writer.

End ProcessStars.

End Stars.

(** ** csvout.py *)

Module Csvout.

Import Ascii String.
Local Open Scope string_scope.

(** [c.isdigit()] for a character below code point 256: the ten digits and
    the superscripts two, three and one. *)
Definition isdigit (c : Ascii.ascii) : bool :=
  let n := Ascii.nat_of_ascii c in
  ((48 <=? n)%nat && (n <=? 57)%nat)
  || (n =? 178)%nat || (n =? 179)%nat || (n =? 185)%nat.

(** [filename.startswith(prefix)]. *)
Definition startswith (filename prefix : String.string) : bool :=
  String.prefix prefix filename.

(** The loop of [should_process_directory] over the remaining names, with
    the three flags; [filename[0]] raises on an empty name. *)
Fixpoint scan_directory (names : list String.string)
  (has_ACA has_sun has_numerical : bool) : result bool :=
  match names with
  | [] => Ok false
  | filename :: names' =>
      flags <-
        (if startswith filename "ACA" then Ok (true, has_sun, has_numerical)
         else if startswith filename "sun" then Ok (has_ACA, true, has_numerical)
         else
           match filename with
           | String.EmptyString => IndexError
           | String.String c _ =>
               if isdigit c then Ok (has_ACA, has_sun, true)
               else Ok (has_ACA, has_sun, has_numerical)
           end) ;;
      let '(has_ACA, has_sun, has_numerical) := flags in
      if (has_ACA && has_sun && has_numerical)%bool then Ok true
      else scan_directory names' has_ACA has_sun has_numerical
  end.

(** [listing] is what [os.listdir(directory)] returns. *)
Definition should_process_directory (listing : list String.string)
  : result bool :=
  scan_directory listing false false false.

(** [c.isspace()] for a character below code point 256: tab to carriage
    return, the four separators, the space, NEL and the no-break space. *)
Definition isspace (c : Ascii.ascii) : bool :=
  let n := Ascii.nat_of_ascii c in
  ((9 <=? n)%nat && (n <=? 13)%nat) || ((28 <=? n)%nat && (n <=? 32)%nat)
  || (n =? 133)%nat || (n =? 160)%nat.

(** [line.replace(',', '')]. *)
Fixpoint remove_commas (s : String.string) : String.string :=
  match s with
  | String.EmptyString => String.EmptyString
  | String.String c s' =>
      if Ascii.eqb c ","%char then remove_commas s'
      else String.String c (remove_commas s')
  end.

(** [s.lstrip()] and [s.rstrip()]; [s.strip()] removes the white space at
    both ends. *)
Fixpoint lstrip (s : String.string) : String.string :=
  match s with
  | String.EmptyString => String.EmptyString
  | String.String c s' => if isspace c then lstrip s' else s
  end.

Fixpoint rstrip (s : String.string) : String.string :=
  match s with
  | String.EmptyString => String.EmptyString
  | String.String c s' =>
      match rstrip s' with
      | String.EmptyString =>
          if isspace c then String.EmptyString
          else String.String c String.EmptyString
      | String.String c' r => String.String c (String.String c' r)
      end
  end.

Definition strip (s : String.string) : String.string := rstrip (lstrip s).

(** [s.split()]: the maximal runs of characters that are not white space,
    in order; [word] is the run being read. *)
Fixpoint split_from (word s : String.string) : list String.string :=
  match s with
  | String.EmptyString =>
      match word with String.EmptyString => [] | _ => [word] end
  | String.String c s' =>
      if isspace c then
        match word with
        | String.EmptyString => split_from String.EmptyString s'
        | _ => word :: split_from String.EmptyString s'
        end
      else split_from (word ++ String.String c String.EmptyString) s'
  end.

Definition split (s : String.string) : list String.string :=
  split_from String.EmptyString s.

Section ParseLine.

(** [re.sub(r'\s*([^:\s]+) :\s*', r'\1 ', s)] of the module [re], which is
    not code of this repository. *)
Variable re_sub_colon : String.string -> String.string.

Definition parse_line (line : String.string) (remove_colon : bool)
  : list String.string :=
  let line_without_commas := remove_commas line in
  let line_without_commas :=
    if remove_colon then re_sub_colon line_without_commas
    else line_without_commas in
  split (strip line_without_commas).

End ParseLine.

End Csvout.

(** ** Notions used to state the properties *)

Definition vzero : vec3 := Vec3 0 0 0.

Definition vscale (k : R) (v : vec3) : vec3 :=
  Vec3 (k * v.[0]) (k * v.[1]) (k * v.[2]).

(** A vector divided by its magnitude, as [normalize] returns it when the
    magnitude is not zero. *)
Definition normalized (v : vec3) : vec3 :=
  Vec3 (v.[0] / Relative.magnitude v) (v.[1] / Relative.magnitude v)
       (v.[2] / Relative.magnitude v).

(** The longitude [twoecef2razel] works with, after its one wrap. *)
Definition razel_lon (lon : R) : R :=
  if Rlt_dec lon (- PI) then lon + 2 * PI
  else if Rgt_dec lon PI then lon - 2 * PI
  else lon.

(** The SEZ components [twoecef2razel] computes for an Earth-fixed vector:
    [rot3] by the longitude, then [rot2] by [PI / 2 - lat]. *)
Definition razel_sez (vec : vec3) (lat lon : R) : vec3 :=
  Rot.rot2 (Rot.rot3 vec (razel_lon lon)) (PI * 0.5 - lat).

(** The index pairs in the order the pair loop visits them: ascending
    [i], then ascending [j > i]. *)
Definition pair_order (len : nat) : list (nat * nat) :=
  flat_map (fun i => map (fun j => (i, j)) (range (i + 1) len)) (range 0 len).

(** The Euclidean distance of the pair of targets at indices [(i, j)]. *)
Definition pair_distance (sats : list Relative.satellite) (ij : nat * nat) : R :=
  match nth_error sats (fst ij), nth_error sats (snd ij) with
  | Some a, Some b =>
      Relative.distance (Relative.position a) (Relative.position b)
  | _, _ => 0
  end.

(** The midpoint of two positions, as the pair loop records it. *)
Definition midpoint_of (a b : vec3) : vec3 :=
  Vec3 ((a.[0] + b.[0]) / 2) ((a.[1] + b.[1]) / 2) ((a.[2] + b.[2]) / 2).

(** What one visit of the pair loop does to [furthest_satellites]: the
    pair replaces the recorded one only when it is strictly further
    apart. *)
Definition retain (sats : list Relative.satellite) (fs : Relative.furthest)
  (ij : nat * nat) : Relative.furthest :=
  if Rgt_dec (pair_distance sats ij) (Relative.fs_distance fs) then
    {| Relative.fs_sat1 := Some (fst ij);
       Relative.fs_sat2 := Some (snd ij);
       Relative.fs_distance := pair_distance sats ij;
       Relative.fs_midpoint :=
         match nth_error sats (fst ij), nth_error sats (snd ij) with
         | Some a, Some b =>
             Some (midpoint_of (Relative.position a) (Relative.position b))
         | _, _ => None
         end;
       Relative.fs_midpoint_sat := Relative.fs_midpoint_sat fs |}
  else fs.

(** A target at a given position, with an empty file name. *)
Definition target_at (p : vec3) : Relative.satellite :=
  {| Relative.filename := String.EmptyString; Relative.position := p |}.

(** The dictionary of a state all of whose six values are present. *)
Definition state_data_of (r v : vec3) : Relative.state_data :=
  {| Relative.X := Some r.[0]; Relative.Y := Some r.[1];
     Relative.Z := Some r.[2];
     Relative.VX := Some v.[0]; Relative.VY := Some v.[1];
     Relative.VZ := Some v.[2] |}.

(** The two greatest angular lengths the pair loop keeps are equal and lie
    between 0 and 180 degrees. *)
Definition lengths_agree (st : Relative.pair_state) : Prop :=
  Relative.max_length_degrees_ecef st = Relative.max_length_degrees_enu st /\
  0 <= Relative.max_length_degrees_ecef st <= 180.

(** What holds of [furthest_satellites] after the pair loop visited the
    pairs [seen]. *)
Definition recorded (sats : list Relative.satellite) (seen : list (nat * nat))
  (fs : Relative.furthest) : Prop :=
  Forall (fun p => pair_distance sats p <= Relative.fs_distance fs) seen /\
  match Relative.fs_sat1 fs, Relative.fs_sat2 fs with
  | Some i, Some j =>
      In (i, j) seen /\ pair_distance sats (i, j) = Relative.fs_distance fs /\
      0 < Relative.fs_distance fs /\
      Relative.fs_midpoint fs =
      match nth_error sats i, nth_error sats j with
      | Some a, Some b =>
          Some (midpoint_of (Relative.position a) (Relative.position b))
      | _, _ => None
      end
  | None, None =>
      Relative.fs_distance fs = 0 /\ Relative.fs_midpoint fs = None
  | _, _ => False
  end.

(** What holds of [closest_distance] and [midpoint_sat] after the midpoint
    scan visited the entries [visited], with the midpoint [m] recorded. *)
Definition nearest_so_far (m : vec3)
  (visited : list (nat * Relative.satellite)) (c : option R)
  (fs : Relative.furthest) : Prop :=
  match c with
  | None => visited = []
  | Some d =>
      (exists s, In (Relative.fs_midpoint_sat fs, s) visited /\
                 d = Relative.distance (Relative.position s) m) /\
      Forall (fun e => d <= Relative.distance (Relative.position (snd e)) m)
        visited
  end.

(** Three targets at the ends of the unit axes. *)
Definition equilateral : list Relative.satellite :=
  [target_at (Vec3 1 0 0); target_at (Vec3 0 1 0); target_at (Vec3 0 0 1)].

(** The row [process_stars] writes for one entry of the table: the look
    angle is the azimuth less the heading, brought into [-180, 180) by a
    whole number of turns. *)
Definition row_of (datetime : Type)
  (radec2azel : R -> R -> R -> R -> datetime -> R * R)
  (ac_path : String.string) (heading_deg lat_deg lon_deg : R)
  (t : datetime) (entry : Stars.star) (row : Stars.star_row) : Prop :=
  let '(constellation_name, star_name, ra_deg, dec_deg) := entry in
  let '(path, name, look_deg, eldeg) := row in
  let az_el := radec2azel ra_deg dec_deg lat_deg lon_deg t in
  path = ac_path /\ name = star_name /\ eldeg = snd az_el /\
  -180 <= look_deg < 180 /\
  (exists k : Z, look_deg = fst az_el - heading_deg - 360 * IZR k) /\
  (-180 <= fst az_el - heading_deg < 180 ->
   look_deg = fst az_el - heading_deg).

Section TextNotions.

Import Ascii.

(** The name is not empty and its first character is a digit. *)
Definition first_is_digit (filename : String.string) : bool :=
  match filename with
  | String.EmptyString => false
  | String.String c _ => Csvout.isdigit c
  end.

(** Every character of [s] satisfies [p]. *)
Fixpoint all_chars (p : Ascii.ascii -> bool) (s : String.string) : bool :=
  match s with
  | String.EmptyString => true
  | String.String c s' => p c && all_chars p s'
  end.

Definition no_space (s : String.string) : bool :=
  all_chars (fun c => negb (Csvout.isspace c)) s.

Definition no_comma (s : String.string) : bool :=
  all_chars (fun c => negb (Ascii.eqb c ","%char)) s.

End TextNotions.

(** * Part II: properties *)

(** ** Basic facts *)

Lemma vec3_eq (a b : vec3) :
  a.[0] = b.[0] -> a.[1] = b.[1] -> a.[2] = b.[2] -> a = b.
Proof. destruct a, b; simpl; intros -> -> ->; reflexivity. Qed.

Lemma pydiv_ok (x y : R) : y <> 0 -> pydiv x y = Ok (x / y).
Proof.
  intros H; unfold pydiv.
  destruct (Req_EM_T y 0); [contradiction | reflexivity].
Qed.

Lemma pydiv_zero (x : R) : pydiv x 0 = ZeroDivisionError.
Proof.
  unfold pydiv; destruct (Req_EM_T 0 0); [reflexivity | contradiction].
Qed.

Lemma sin_cos_sq (x : R) : sin x * sin x + cos x * cos x = 1.
Proof. generalize (sin2_cos2 x); unfold Rsqr; intros H; exact H. Qed.

Lemma degrees_alt (x : R) : x * (180 / PI) = degrees x.
Proof. unfold degrees; field; apply PI_neq0. Qed.

Lemma degrees_halfpi : degrees (PI / 2) = 90.
Proof. unfold degrees; field; apply PI_neq0. Qed.

Lemma degrees_pi : degrees PI = 180.
Proof. unfold degrees; field; apply PI_neq0. Qed.

Lemma degrees_0 : degrees 0 = 0.
Proof. unfold degrees; field; apply PI_neq0. Qed.

Lemma degrees_opp (x : R) : degrees (- x) = - degrees x.
Proof. unfold degrees; field; apply PI_neq0. Qed.

(** ** rot.py: rotations and their inverses *)

Section RotRoundTrip.

Variables (v : vec3) (theta : R).

Lemma rot1_inverse : Rot.rot1 (Rot.rot1 v theta) (- theta) = v.
Proof.
  pose proof (sin_cos_sq theta) as H.
  apply vec3_eq; cbn; rewrite ?cos_neg, ?sin_neg; nsatz.
Qed.

Lemma rot2_inverse : Rot.rot2 (Rot.rot2 v theta) (- theta) = v.
Proof.
  pose proof (sin_cos_sq theta) as H.
  apply vec3_eq; cbn; rewrite ?cos_neg, ?sin_neg; nsatz.
Qed.

Lemma rot3_inverse : Rot.rot3 (Rot.rot3 v theta) (- theta) = v.
Proof.
  pose proof (sin_cos_sq theta) as H.
  apply vec3_eq; cbn; rewrite ?cos_neg, ?sin_neg; nsatz.
Qed.

End RotRoundTrip.

(** C2.  For every 3-vector [v] and every angle [theta], and for each of
    [rot1], [rot2], [rot3]: rotating [v] by [theta] about the axis and then
    by [- theta] about the same axis gives [v] back, exactly over the
    reals. *)
Theorem rot_then_inverse_is_identity (v : vec3) (theta : R) :
  Rot.rot1 (Rot.rot1 v theta) (- theta) = v /\
  Rot.rot2 (Rot.rot2 v theta) (- theta) = v /\
  Rot.rot3 (Rot.rot3 v theta) (- theta) = v.
Proof.
  repeat split;
    [apply rot1_inverse | apply rot2_inverse | apply rot3_inverse].
Qed.

(** ** twoecef2razel: the two branches *)

(** C1.  In [twoecef2razel], with [rhosez] and [drhosez] the relative
    position and velocity in the SEZ frame: when the horizontal magnitude
    [sqrt (rhosez[0]^2 + rhosez[1]^2)] is below 1e-8, the elevation is
    [sign (rhosez[2])] times 90 degrees and the azimuth is the
    two-argument arctangent of the horizontal SEZ components of the
    relative velocity; otherwise the elevation is
    [arcsin (rhosez[2] / |rhosez|)] and the azimuth is the two-argument
    arctangent of the horizontal SEZ components of the relative
    position (both in degrees). *)
Theorem twoecef2razel_branches
  (r1ecef v1ecef r2ecef v2ecef : vec3) (lat lon : R) :
  let rhosez := razel_sez (vsub r2ecef r1ecef) lat lon in
  let drhosez := razel_sez (vsub v2ecef v1ecef) lat lon in
  let temp := sqrt (rhosez.[0] ^ 2 + rhosez.[1] ^ 2) in
  let '(rho, az, eldeg) :=
    Cockpitview.twoecef2razel r1ecef v1ecef r2ecef v2ecef lat lon in
  (temp < 1e-8 ->
   eldeg = sign rhosez.[2] * 90 /\
   az = degrees (arctan2 drhosez.[1] (- drhosez.[0]))) /\
  (~ temp < 1e-8 ->
   eldeg = degrees (asin (rhosez.[2] / norm rhosez)) /\
   az = degrees (arctan2 rhosez.[1] (- rhosez.[0]))).
Proof.
  intros rhosez drhosez temp.
  unfold Cockpitview.twoecef2razel; cbv zeta.
  fold (razel_lon lon).
  change (Rot.rot2 (Rot.rot3 (vsub r2ecef r1ecef) (razel_lon lon))
            (PI * 0.5 - lat)) with rhosez.
  change (Rot.rot2 (Rot.rot3 (vsub v2ecef v1ecef) (razel_lon lon))
            (PI * 0.5 - lat)) with drhosez.
  replace (rhosez.[0] * rhosez.[0] + rhosez.[1] * rhosez.[1])
    with (rhosez.[0] ^ 2 + rhosez.[1] ^ 2) by ring.
  fold temp.
  replace 0.00000001 with 1e-8 by lra.
  destruct (Rlt_dec temp 1e-8) as [Hlt | Hge]; split; intros H;
    try contradiction; rewrite !degrees_alt; split; try reflexivity.
  replace (PI * 0.5) with (PI / 2) by lra.
  unfold degrees; field; apply PI_neq0.
Qed.

Lemma razel_lon_0 : razel_lon 0 = 0.
Proof.
  unfold razel_lon; pose proof PI_RGT_0 as Hpi.
  destruct (Rlt_dec 0 (- PI)); [lra |].
  destruct (Rgt_dec 0 PI); [lra | reflexivity].
Qed.

Lemma razel_sez_equator (vec : vec3) :
  razel_sez vec 0 0 = Vec3 (- vec.[2]) vec.[1] vec.[0].
Proof.
  unfold razel_sez; rewrite razel_lon_0.
  replace (PI * 0.5 - 0) with (PI / 2) by lra.
  apply vec3_eq; cbn; rewrite ?cos_0, ?sin_0, ?cos_PI2, ?sin_PI2; ring.
Qed.

(** A target straight above the observer at latitude 0, longitude 0, with
    an eastward relative velocity: the singular branch is taken. *)
Lemma twoecef2razel_branches_witness :
  let '(rho, az, eldeg) :=
    Cockpitview.twoecef2razel vzero vzero (Vec3 1 0 0) (Vec3 0 1 0) 0 0 in
  eldeg = 90 /\ az = 90.
Proof.
  pose proof (twoecef2razel_branches vzero vzero (Vec3 1 0 0) (Vec3 0 1 0) 0 0)
    as H.
  cbv zeta in H.
  destruct (Cockpitview.twoecef2razel vzero vzero (Vec3 1 0 0) (Vec3 0 1 0) 0 0)
    as [[rho az] eldeg].
  destruct H as [H _].
  rewrite !razel_sez_equator in H; cbn [ix0 ix1 ix2 vsub vzero] in H.
  assert (Hsmall : sqrt ((- (0 - 0)) ^ 2 + (0 - 0) ^ 2) < 1e-8).
  { replace ((- (0 - 0)) ^ 2 + (0 - 0) ^ 2) with 0 by ring.
    rewrite sqrt_0; lra. }
  destruct (H Hsmall) as [Hel Haz]; split.
  - rewrite Hel; unfold sign.
    destruct (Rlt_dec 0 (1 - 0)); [ring | lra].
  - rewrite Haz; unfold arctan2.
    destruct (Rlt_dec 0 (- - (0 - 0))); [lra |].
    destruct (Rlt_dec (- - (0 - 0)) 0); [lra |].
    destruct (Rlt_dec 0 (1 - 0)); [apply degrees_halfpi | lra].
Defined.

(** ** The two-argument arctangent *)

Section ArcTan2.

Lemma arctan2_pos_x (y x : R) : 0 < x -> arctan2 y x = atan (y / x).
Proof. intros H; unfold arctan2; destruct (Rlt_dec 0 x); [reflexivity | lra]. Qed.

Lemma arctan2_north (x : R) : 0 < x -> arctan2 0 x = 0.
Proof.
  intros H; rewrite arctan2_pos_x by assumption.
  replace (0 / x) with 0 by (field; lra); apply atan_0.
Qed.

Lemma arctan2_east (y : R) : 0 < y -> arctan2 y 0 = PI / 2.
Proof.
  intros H; unfold arctan2.
  destruct (Rlt_dec 0 0); [lra |].
  destruct (Rlt_dec 0 y); [reflexivity | lra].
Qed.

Lemma arctan2_south (x : R) : x < 0 -> arctan2 0 x = PI.
Proof.
  intros H; unfold arctan2.
  destruct (Rlt_dec 0 x); [lra |].
  destruct (Rlt_dec x 0); [| lra].
  destruct (Rle_dec 0 0); [| lra].
  replace (0 / x) with 0 by (field; lra); rewrite atan_0; ring.
Qed.

Lemma arctan2_west (y : R) : y < 0 -> arctan2 y 0 = - (PI / 2).
Proof.
  intros H; unfold arctan2.
  destruct (Rlt_dec 0 0); [lra |].
  destruct (Rlt_dec 0 y); [lra |].
  destruct (Rlt_dec y 0); [reflexivity | lra].
Qed.

(** The secant of [atan t]. *)
Lemma sqrt_1_plus_sq (t : R) :
  0 < sqrt (1 + t²) /\ sqrt (1 + t²) * sqrt (1 + t²) = 1 + t².
Proof.
  assert (H : 0 < 1 + t²) by (unfold Rsqr; nra).
  split; [apply sqrt_lt_R0; exact H | apply sqrt_sqrt; lra].
Qed.

Lemma hypot_pos_x (x y : R) :
  0 < x -> sqrt (x * x + y * y) = x * sqrt (1 + (y / x)²).
Proof.
  intros Hx; destruct (sqrt_1_plus_sq (y / x)) as [Hs Hss].
  apply sqrt_lem_1; [nra | nra |].
  transitivity (x * x * (sqrt (1 + (y / x)²) * sqrt (1 + (y / x)²))); [ring |].
  rewrite Hss; unfold Rsqr; field; lra.
Qed.

Lemma hypot_neg_x (x y : R) :
  x < 0 -> sqrt (x * x + y * y) = - x * sqrt (1 + (y / x)²).
Proof.
  intros Hx; destruct (sqrt_1_plus_sq (y / x)) as [Hs Hss].
  apply sqrt_lem_1; [nra | nra |].
  transitivity (x * x * (sqrt (1 + (y / x)²) * sqrt (1 + (y / x)²))); [ring |].
  rewrite Hss; unfold Rsqr; field; lra.
Qed.

(** [arctan2 y x] is the polar angle of the point [(x, y)]. *)
Lemma arctan2_polar (y x : R) :
  x <> 0 \/ y <> 0 ->
  x = sqrt (x * x + y * y) * cos (arctan2 y x) /\
  y = sqrt (x * x + y * y) * sin (arctan2 y x).
Proof.
  intros Hxy; unfold arctan2.
  destruct (Rlt_dec 0 x) as [Hpos | Hnpos].
  - rewrite hypot_pos_x, cos_atan, sin_atan by assumption.
    destruct (sqrt_1_plus_sq (y / x)) as [Hs _].
    split; field; lra.
  - destruct (Rlt_dec x 0) as [Hneg | Hnneg].
    + rewrite hypot_neg_x by assumption.
      destruct (sqrt_1_plus_sq (y / x)) as [Hs _].
      destruct (Rle_dec 0 y).
      * rewrite neg_cos, neg_sin, cos_atan, sin_atan; split; field; lra.
      * unfold Rminus; rewrite cos_plus, sin_plus, cos_neg, sin_neg.
        rewrite cos_PI, sin_PI, cos_atan, sin_atan; split; field; lra.
    + assert (Hx0 : x = 0) by lra; subst x.
      replace (0 * 0 + y * y) with (y ^ 2) by ring.
      destruct (Rlt_dec 0 y) as [Hy | Hy].
      * rewrite sqrt_pow2, cos_PI2, sin_PI2 by lra; lra.
      * destruct (Rlt_dec y 0) as [Hy' | Hy']; [| lra].
        replace (y ^ 2) with ((- y) ^ 2) by ring.
        rewrite sqrt_pow2, cos_neg, sin_neg, cos_PI2, sin_PI2 by lra; lra.
Qed.

End ArcTan2.

(** ** Heading *)

Lemma heading_is_arctan2_enu (vecef : vec3) (lat lon : R) :
  Cockpitview.calculate_heading_from_velocity vecef lat lon =
  arctan2 (Cockpitview.ecef2enu vecef lat lon).[0]
          (Cockpitview.ecef2enu vecef lat lon).[1].
Proof. reflexivity. Qed.

Lemma ecef2enu_equator (vec : vec3) :
  Cockpitview.ecef2enu vec 0 0 = Vec3 vec.[1] vec.[2] vec.[0].
Proof.
  apply vec3_eq; cbn; rewrite ?cos_0, ?sin_0; ring.
Qed.

(** C7.  [calculate_heading_from_velocity] returns the two-argument
    arctangent of the velocity's ENU east and north components; hence a
    velocity due north gives the heading 0 degrees, due east 90 degrees,
    due south 180 degrees and due west -90 degrees. *)
Theorem heading_from_velocity_enu (vecef : vec3) (lat lon : R) :
  let east := (Cockpitview.ecef2enu vecef lat lon).[0] in
  let north := (Cockpitview.ecef2enu vecef lat lon).[1] in
  let heading := Cockpitview.calculate_heading_from_velocity vecef lat lon in
  heading = arctan2 east north /\
  (east = 0 -> 0 < north -> degrees heading = 0) /\
  (0 < east -> north = 0 -> degrees heading = 90) /\
  (east = 0 -> north < 0 -> degrees heading = 180) /\
  (east < 0 -> north = 0 -> degrees heading = -90).
Proof.
  intros east north heading.
  assert (Hh : heading = arctan2 east north) by apply heading_is_arctan2_enu.
  split; [exact Hh |]; rewrite Hh; repeat split; intros H1 H2.
  - rewrite H1, arctan2_north by assumption; apply degrees_0.
  - rewrite H2, arctan2_east by assumption; apply degrees_halfpi.
  - rewrite H1, arctan2_south by assumption; apply degrees_pi.
  - rewrite H2, arctan2_west, degrees_opp, degrees_halfpi by assumption.
    reflexivity.
Qed.

Lemma heading_from_velocity_enu_witness :
  degrees (Cockpitview.calculate_heading_from_velocity (Vec3 0 0 1) 0 0) = 0 /\
  degrees (Cockpitview.calculate_heading_from_velocity (Vec3 0 1 0) 0 0) = 90 /\
  degrees (Cockpitview.calculate_heading_from_velocity (Vec3 0 0 (-1)) 0 0) = 180 /\
  degrees (Cockpitview.calculate_heading_from_velocity (Vec3 0 (-1) 0) 0 0) = -90.
Proof.
  repeat split.
  - apply (heading_from_velocity_enu (Vec3 0 0 1) 0 0);
      rewrite ecef2enu_equator; cbn; lra.
  - apply (heading_from_velocity_enu (Vec3 0 1 0) 0 0);
      rewrite ecef2enu_equator; cbn; lra.
  - apply (heading_from_velocity_enu (Vec3 0 0 (-1)) 0 0);
      rewrite ecef2enu_equator; cbn; lra.
  - apply (heading_from_velocity_enu (Vec3 0 (-1) 0) 0 0);
      rewrite ecef2enu_equator; cbn; lra.
Defined.

(** ** The cockpit transform *)

Lemma twoecef2enu_is_ecef2enu (acecef satecef : vec3) (lat lon : R) :
  Cockpitview.twoecef2enu acecef satecef lat lon =
  Cockpitview.ecef2enu (vsub satecef acecef) lat lon.
Proof. reflexivity. Qed.

(** The ECEF-to-ENU transform preserves the sum of squares. *)
Lemma ecef2enu_sum_squares (vec : vec3) (lat lon : R) :
  let enu := Cockpitview.ecef2enu vec lat lon in
  enu.[0] ^ 2 + enu.[1] ^ 2 + enu.[2] ^ 2 =
  vec.[0] * vec.[0] + vec.[1] * vec.[1] + vec.[2] * vec.[2].
Proof.
  pose proof (sin_cos_sq lat) as Hlat; pose proof (sin_cos_sq lon) as Hlon.
  cbn; nsatz.
Qed.

(** A plane rotation preserves the sum of squares. *)
Lemma plane_rotation_sum_squares (e n h : R) :
  (e * cos h + n * sin h) ^ 2 + (- e * sin h + n * cos h) ^ 2 = e ^ 2 + n ^ 2.
Proof.
  transitivity ((e ^ 2 + n ^ 2) * (sin h * sin h + cos h * cos h)); [ring |].
  rewrite sin_cos_sq; ring.
Qed.

Lemma sum_squares_pos (x y : R) : x <> 0 \/ y <> 0 -> 0 < x * x + y * y.
Proof. intros [H | H]; nra. Qed.

(** C8.  [cockpitview] rotates the relative ENU east and north components
    by the negative of the observer's heading and leaves the up component
    unchanged; the look angle is the two-argument arctangent of the
    rotated east and north, the elevation is the two-argument arctangent of
    up and the horizontal magnitude of the rotated pair, the range is the
    magnitude of the rotated vector.  When the target's horizontal ENU
    direction is the observer's horizontal velocity direction, the look
    angle is 0 degrees. *)
Theorem cockpitview_heading_relative
  (r1ecef v1ecef r2ecef : vec3) (lat lon : R) :
  let pos_enu := Cockpitview.twoecef2enu r1ecef r2ecef lat lon in
  let vel_enu := Cockpitview.ecef2enu v1ecef lat lon in
  let heading := Cockpitview.calculate_heading_from_velocity v1ecef lat lon in
  let e := pos_enu.[0] in
  let n := pos_enu.[1] in
  let u := pos_enu.[2] in
  let e_rot := e * cos (- heading) + n * sin (- heading) in
  let n_rot := - e * sin (- heading) + n * cos (- heading) in
  let '(rng, lookdeg, eldeg) :=
    Cockpitview.cockpitview r1ecef v1ecef r2ecef lat lon in
  lookdeg = degrees (arctan2 e_rot n_rot) /\
  eldeg = degrees (arctan2 u (sqrt (e_rot ^ 2 + n_rot ^ 2))) /\
  rng = sqrt (e_rot ^ 2 + n_rot ^ 2 + u ^ 2) /\
  (forall k : R,
      0 < k ->
      vel_enu.[0] <> 0 \/ vel_enu.[1] <> 0 ->
      e = k * vel_enu.[0] ->
      n = k * vel_enu.[1] ->
      lookdeg = 0).
Proof.
  intros pos_enu vel_enu heading e n u e_rot n_rot.
  unfold Cockpitview.cockpitview; cbv zeta.
  fold pos_enu; fold heading; fold e; fold n; fold u.
  fold e_rot; fold n_rot.
  split; [reflexivity |].
  split.
  { unfold Cockpitview.magnitude; cbn [ix0 ix1 ix2].
    do 3 f_equal; ring. }
  split; [reflexivity |].
  intros k Hk Hvel He Hn.
  assert (Hh : heading = arctan2 vel_enu.[0] vel_enu.[1])
    by apply heading_is_arctan2_enu.
  assert (Hvel' : vel_enu.[1] <> 0 \/ vel_enu.[0] <> 0) by tauto.
  destruct (arctan2_polar vel_enu.[0] vel_enu.[1] Hvel') as [Hcos Hsin].
  rewrite <- Hh in Hcos, Hsin.
  pose proof (sum_squares_pos _ _ Hvel') as Hpos.
  apply sqrt_lt_R0 in Hpos.
  set (rho := sqrt (vel_enu.[1] * vel_enu.[1] + vel_enu.[0] * vel_enu.[0]))
    in Hcos, Hsin, Hpos.
  pose proof (sin_cos_sq heading) as Hunit.
  assert (He_rot : e_rot = 0).
  { unfold e_rot; rewrite cos_neg, sin_neg, He, Hn.
    rewrite Hcos at 1; rewrite Hsin at 1; ring. }
  assert (Hn_rot : n_rot = k * rho).
  { unfold n_rot; rewrite cos_neg, sin_neg, He, Hn.
    rewrite Hcos at 1; rewrite Hsin at 1.
    transitivity (k * rho * (sin heading * sin heading
                             + cos heading * cos heading)); [ring |].
    rewrite Hunit; ring. }
  rewrite He_rot, Hn_rot, arctan2_north; [apply degrees_0 | nra].
Qed.

Lemma cockpitview_heading_relative_witness :
  snd (fst (Cockpitview.cockpitview vzero (Vec3 0 0 1) (Vec3 0 0 5) 0 0)) = 0.
Proof.
  pose proof (cockpitview_heading_relative vzero (Vec3 0 0 1) (Vec3 0 0 5) 0 0)
    as H.
  cbv zeta in H.
  destruct (Cockpitview.cockpitview vzero (Vec3 0 0 1) (Vec3 0 0 5) 0 0)
    as [[rng lookdeg] eldeg].
  destruct H as (_ & _ & _ & H); cbn [fst snd].
  rewrite twoecef2enu_is_ecef2enu, !ecef2enu_equator in H.
  cbn [ix0 ix1 ix2 vsub vzero] in H.
  apply (H 5); [lra | right; lra | lra | lra].
Defined.

(** C10.  The range returned by [cockpitview] is the Euclidean norm of
    [r2ecef - r1ecef]: the ECEF-to-ENU transform and the heading rotation
    both preserve the norm. *)
Theorem cockpitview_range_is_ecef_distance
  (r1ecef v1ecef r2ecef : vec3) (lat lon : R) :
  fst (fst (Cockpitview.cockpitview r1ecef v1ecef r2ecef lat lon)) =
  norm (vsub r2ecef r1ecef).
Proof.
  unfold Cockpitview.cockpitview, Cockpitview.magnitude, norm; cbv zeta.
  cbn [fst snd ix0 ix1 ix2]; f_equal.
  rewrite plane_rotation_sum_squares.
  rewrite twoecef2enu_is_ecef2enu.
  apply ecef2enu_sum_squares.
Qed.

(** ** The NTW basis *)

Section NtwBasis.

Import Relative.

Lemma sum_squares_nonneg (v : vec3) : 0 <= v.[0] ^ 2 + v.[1] ^ 2 + v.[2] ^ 2.
Proof. nra. Qed.

Lemma magnitude_nonneg (v : vec3) : 0 <= magnitude v.
Proof. apply sqrt_pos. Qed.

Lemma magnitude_sq (v : vec3) :
  magnitude v * magnitude v = v.[0] ^ 2 + v.[1] ^ 2 + v.[2] ^ 2.
Proof. apply sqrt_sqrt, sum_squares_nonneg. Qed.

Lemma magnitude_of_unit_sum (v : vec3) :
  v.[0] ^ 2 + v.[1] ^ 2 + v.[2] ^ 2 = 1 -> magnitude v = 1.
Proof. intros H; unfold magnitude; rewrite H; apply sqrt_1. Qed.

Lemma magnitude_zero_iff (v : vec3) : magnitude v = 0 <-> v = vzero.
Proof.
  split.
  - intros H; apply sqrt_eq_0 in H; [| apply sum_squares_nonneg].
    apply vec3_eq; cbn; nra.
  - intros ->; unfold magnitude, vzero; cbn [ix0 ix1 ix2].
    replace (0 ^ 2 + 0 ^ 2 + 0 ^ 2) with 0 by ring; apply sqrt_0.
Qed.

Lemma normalize_ok (v : vec3) :
  magnitude v <> 0 -> normalize v = Ok (normalized v).
Proof.
  intros H; unfold normalize; cbv zeta.
  rewrite !pydiv_ok by assumption; reflexivity.
Qed.

Lemma normalize_zero_magnitude (v : vec3) :
  magnitude v = 0 -> normalize v = ZeroDivisionError.
Proof.
  intros H; unfold normalize; cbv zeta; rewrite H, pydiv_zero; reflexivity.
Qed.

Lemma normalized_unit (v : vec3) :
  magnitude v <> 0 ->
  (normalized v).[0] ^ 2 + (normalized v).[1] ^ 2 + (normalized v).[2] ^ 2 = 1.
Proof.
  intros H; cbn.
  pose proof (magnitude_sq v) as Hsq.
  transitivity ((v.[0] ^ 2 + v.[1] ^ 2 + v.[2] ^ 2)
                / (magnitude v * magnitude v)); [field; exact H |].
  rewrite <- Hsq; field; exact H.
Qed.

(** The cross product vanishes only for a zero or parallel pair. *)
Lemma cross_product_nonzero (r v : vec3) :
  v <> vzero -> (forall k : R, r <> vscale k v) ->
  cross_product r v <> vzero.
Proof.
  intros Hv Hpar Hcross.
  assert (H0 : r.[1] * v.[2] - r.[2] * v.[1] = 0)
    by (change ((cross_product r v).[0] = vzero.[0]); rewrite Hcross; reflexivity).
  assert (H1 : r.[2] * v.[0] - r.[0] * v.[2] = 0)
    by (change ((cross_product r v).[1] = vzero.[1]); rewrite Hcross; reflexivity).
  assert (H2 : r.[0] * v.[1] - r.[1] * v.[0] = 0)
    by (change ((cross_product r v).[2] = vzero.[2]); rewrite Hcross; reflexivity).
  destruct (Req_EM_T v.[0] 0) as [Hv0 | Hv0].
  - destruct (Req_EM_T v.[1] 0) as [Hv1 | Hv1].
    + destruct (Req_EM_T v.[2] 0) as [Hv2 | Hv2].
      * apply Hv; apply vec3_eq; assumption.
      * apply (Hpar (r.[2] / v.[2])).
        apply vec3_eq; cbn; rewrite ?Hv0, ?Hv1 in *.
        -- assert (r.[0] * v.[2] = 0) by lra.
           assert (r.[0] = 0) by nra. lra.
        -- assert (r.[1] * v.[2] = 0) by lra.
           assert (r.[1] = 0) by nra. lra.
        -- field; exact Hv2.
    + apply (Hpar (r.[1] / v.[1])).
      apply vec3_eq; cbn.
      * rewrite Hv0 in *. assert (r.[0] * v.[1] = 0) by lra.
        assert (r.[0] = 0) by nra. lra.
      * field; exact Hv1.
      * apply Rmult_eq_reg_r with v.[1]; [| exact Hv1].
        field_simplify; [lra | exact Hv1].
  - apply (Hpar (r.[0] / v.[0])).
    apply vec3_eq; cbn.
    + field; exact Hv0.
    + apply Rmult_eq_reg_r with v.[0]; [| exact Hv0].
      field_simplify; [lra | exact Hv0].
    + apply Rmult_eq_reg_r with v.[0]; [| exact Hv0].
      field_simplify; [lra | exact Hv0].
Qed.

(** Lagrange's identity for the cross product. *)
Lemma cross_product_sum_squares (a b : vec3) :
  let c := cross_product a b in
  c.[0] ^ 2 + c.[1] ^ 2 + c.[2] ^ 2 =
  (a.[0] ^ 2 + a.[1] ^ 2 + a.[2] ^ 2) * (b.[0] ^ 2 + b.[1] ^ 2 + b.[2] ^ 2)
  - dot_product a b ^ 2.
Proof. cbn; unfold dot_product; ring. Qed.

Lemma cross_product_orthogonal_l (a b : vec3) :
  dot_product a (cross_product a b) = 0.
Proof. unfold dot_product; cbn; ring. Qed.

Lemma cross_product_orthogonal_r (a b : vec3) :
  dot_product b (cross_product a b) = 0.
Proof. unfold dot_product; cbn; ring. Qed.

(** The rows [ecef_to_ntw_matrix] builds from a pair with a non-zero
    cross product. *)
Lemma ecef_to_ntw_matrix_ok (r v : vec3) :
  cross_product r v <> vzero ->
  let c := cross_product r v in
  let n_hat := normalized c in
  let t_hat := normalized v in
  magnitude c <> 0 /\ magnitude v <> 0 /\
  ecef_to_ntw_matrix r v = Ok (Mat3 n_hat t_hat (cross_product t_hat n_hat)).
Proof.
  intros Hc c n_hat t_hat.
  assert (Hmc : magnitude c <> 0)
    by (intros H; apply Hc; apply magnitude_zero_iff; exact H).
  assert (Hmv : magnitude v <> 0).
  { intros H; apply magnitude_zero_iff in H; apply Hc.
    subst v; apply vec3_eq; cbn; ring. }
  repeat split; try assumption.
  unfold ecef_to_ntw_matrix; fold c.
  rewrite (normalize_ok c Hmc), (normalize_ok v Hmv); reflexivity.
Qed.

Lemma ntw_rows_orthonormal (r v : vec3) :
  cross_product r v <> vzero ->
  let c := cross_product r v in
  let n_hat := normalized c in
  let t_hat := normalized v in
  let w_hat := cross_product t_hat n_hat in
  (n_hat.[0] ^ 2 + n_hat.[1] ^ 2 + n_hat.[2] ^ 2 = 1 /\
   t_hat.[0] ^ 2 + t_hat.[1] ^ 2 + t_hat.[2] ^ 2 = 1 /\
   w_hat.[0] ^ 2 + w_hat.[1] ^ 2 + w_hat.[2] ^ 2 = 1) /\
  (dot_product n_hat t_hat = 0 /\
   dot_product n_hat w_hat = 0 /\
   dot_product t_hat w_hat = 0).
Proof.
  intros Hc c n_hat t_hat w_hat.
  destruct (ecef_to_ntw_matrix_ok r v Hc) as (Hmc & Hmv & _); fold c in Hmc.
  assert (Hn : n_hat.[0] ^ 2 + n_hat.[1] ^ 2 + n_hat.[2] ^ 2 = 1)
    by (apply (normalized_unit c); exact Hmc).
  assert (Ht : t_hat.[0] ^ 2 + t_hat.[1] ^ 2 + t_hat.[2] ^ 2 = 1)
    by (apply (normalized_unit v); exact Hmv).
  assert (Hnt : dot_product t_hat n_hat = 0).
  { unfold dot_product, n_hat, t_hat, normalized; cbn [ix0 ix1 ix2].
    transitivity (dot_product v c / (magnitude v * magnitude c)).
    - unfold dot_product; field; split; assumption.
    - unfold c; rewrite cross_product_orthogonal_r; field; split; assumption. }
  repeat split; try assumption.
  - unfold w_hat; rewrite cross_product_sum_squares, Hn, Ht, Hnt; ring.
  - rewrite <- Hnt; unfold dot_product; ring.
  - apply cross_product_orthogonal_r.
  - apply cross_product_orthogonal_l.
Qed.

End NtwBasis.

(** C6.  For a position [r] and a velocity [v] that are both non-zero and
    not parallel, [ecef_to_ntw_matrix r v] returns the rows [n_hat], the
    normalized cross product of [r] and [v], [t_hat], the normalized [v],
    and [w_hat], the cross product of [t_hat] and [n_hat] as it is; each
    row has norm 1 and the rows are pairwise orthogonal. *)
Theorem ecef_to_ntw_matrix_orthonormal (r v : vec3) :
  r <> vzero ->
  v <> vzero ->
  (forall k : R, r <> vscale k v) ->
  exists n_hat t_hat w_hat : vec3,
    Relative.ecef_to_ntw_matrix r v = Ok (Mat3 n_hat t_hat w_hat) /\
    Relative.normalize (Relative.cross_product r v) = Ok n_hat /\
    Relative.normalize v = Ok t_hat /\
    w_hat = Relative.cross_product t_hat n_hat /\
    (Relative.magnitude n_hat = 1 /\
     Relative.magnitude t_hat = 1 /\
     Relative.magnitude w_hat = 1) /\
    (Relative.dot_product n_hat t_hat = 0 /\
     Relative.dot_product n_hat w_hat = 0 /\
     Relative.dot_product t_hat w_hat = 0).
Proof.
  intros _ Hv Hpar.
  pose proof (cross_product_nonzero r v Hv Hpar) as Hc.
  destruct (ecef_to_ntw_matrix_ok r v Hc) as (Hmc & Hmv & Hmat).
  destruct (ntw_rows_orthonormal r v Hc) as ((Hn & Ht & Hw) & Horth).
  eexists _, _, _; split; [exact Hmat |].
  split; [apply normalize_ok; exact Hmc |].
  split; [apply normalize_ok; exact Hmv |].
  split; [reflexivity |].
  split; [| exact Horth].
  repeat split; apply magnitude_of_unit_sum; assumption.
Qed.

Lemma ecef_to_ntw_matrix_orthonormal_witness :
  exists n_hat t_hat w_hat : vec3,
    Relative.ecef_to_ntw_matrix (Vec3 1 0 0) (Vec3 0 1 0)
    = Ok (Mat3 n_hat t_hat w_hat) /\
    Relative.normalize (Relative.cross_product (Vec3 1 0 0) (Vec3 0 1 0))
    = Ok n_hat /\
    Relative.normalize (Vec3 0 1 0) = Ok t_hat /\
    w_hat = Relative.cross_product t_hat n_hat /\
    (Relative.magnitude n_hat = 1 /\
     Relative.magnitude t_hat = 1 /\
     Relative.magnitude w_hat = 1) /\
    (Relative.dot_product n_hat t_hat = 0 /\
     Relative.dot_product n_hat w_hat = 0 /\
     Relative.dot_product t_hat w_hat = 0).
Proof.
  apply (ecef_to_ntw_matrix_orthonormal (Vec3 1 0 0) (Vec3 0 1 0)).
  - intros H; apply (f_equal ix0) in H; cbn in H; lra.
  - intros H; apply (f_equal ix1) in H; cbn in H; lra.
  - intros k H; apply (f_equal ix0) in H; cbn in H; lra.
Defined.

(** ** The grazing angle *)

Section Grazing.

Import Relative.

(** An orthonormal triple [n], [t], [t x n] preserves sums of squares. *)
Lemma orthonormal_rows_sum_squares (n t x : vec3) :
  n.[0] ^ 2 + n.[1] ^ 2 + n.[2] ^ 2 = 1 ->
  t.[0] ^ 2 + t.[1] ^ 2 + t.[2] ^ 2 = 1 ->
  dot_product t n = 0 ->
  let y := transform_vector (Mat3 n t (cross_product t n)) x in
  y.[0] ^ 2 + y.[1] ^ 2 + y.[2] ^ 2 = x.[0] ^ 2 + x.[1] ^ 2 + x.[2] ^ 2.
Proof.
  intros Hn Ht Hnt y.
  assert (Hgram :
    dot_product (cross_product t n) x ^ 2 =
    (t.[0] ^ 2 + t.[1] ^ 2 + t.[2] ^ 2) * (n.[0] ^ 2 + n.[1] ^ 2 + n.[2] ^ 2)
      * (x.[0] ^ 2 + x.[1] ^ 2 + x.[2] ^ 2)
    + 2 * dot_product t n * dot_product n x * dot_product t x
    - (t.[0] ^ 2 + t.[1] ^ 2 + t.[2] ^ 2) * dot_product n x ^ 2
    - (n.[0] ^ 2 + n.[1] ^ 2 + n.[2] ^ 2) * dot_product t x ^ 2
    - (x.[0] ^ 2 + x.[1] ^ 2 + x.[2] ^ 2) * dot_product t n ^ 2)
    by (unfold dot_product; cbn; ring).
  unfold y, transform_vector; cbn [ix0 ix1 ix2 row0 row1 row2].
  rewrite Hgram, Hn, Ht, Hnt; ring.
Qed.

Lemma angle_between_vectors_ok (A B : vec3) :
  magnitude A * magnitude B <> 0 ->
  angle_between_vectors A B =
  Ok (180 * acos (Rmax (-1) (Rmin 1 (dot_product A B
                                     / (magnitude A * magnitude B)))) / PI).
Proof.
  intros H; unfold angle_between_vectors.
  rewrite pydiv_ok by assumption; cbn [bind].
  replace 180.0 with 180 by lra.
  replace (-1.0) with (-1) by lra.
  replace 1.0 with 1 by lra.
  reflexivity.
Qed.

(** The NTW image of a non-zero position is not zero. *)
Lemma ntw_image_nonzero (r v x : vec3) :
  cross_product r v <> vzero -> x <> vzero ->
  forall m : mat3,
    ecef_to_ntw_matrix r v = Ok m -> magnitude (transform_vector m x) <> 0.
Proof.
  intros Hc Hx m Hm.
  destruct (ecef_to_ntw_matrix_ok r v Hc) as (_ & _ & Hmat).
  destruct (ntw_rows_orthonormal r v Hc) as ((Hn & Ht & _) & (Hnt & _ & _)).
  rewrite Hmat in Hm; injection Hm as <-.
  intros Hzero; apply Hx.
  apply sqrt_eq_0 in Hzero; [| apply sum_squares_nonneg].
  rewrite orthonormal_rows_sum_squares in Hzero; try assumption.
  - apply vec3_eq; cbn; nra.
  - etransitivity; [| exact Hnt]; unfold dot_product; ring.
Qed.

(** The cosine the code computes for a vector and itself, and for a
    vector and its opposite. *)
Lemma cosine_same_direction (m : mat3) (x : vec3) :
  magnitude (transform_vector m x) <> 0 ->
  dot_product (transform_vector m x) (transform_vector m x)
  / (magnitude (transform_vector m x) * magnitude (transform_vector m x)) = 1.
Proof.
  intros H; rewrite magnitude_sq.
  replace (dot_product (transform_vector m x) (transform_vector m x))
    with ((transform_vector m x).[0] ^ 2 + (transform_vector m x).[1] ^ 2
          + (transform_vector m x).[2] ^ 2)
    by (unfold dot_product; ring).
  field; rewrite <- magnitude_sq; nra.
Qed.

Lemma cosine_opposite_direction (m : mat3) (x : vec3) :
  magnitude (transform_vector m x) <> 0 ->
  dot_product (transform_vector m x) (transform_vector m (vscale (-1) x))
  / (magnitude (transform_vector m x)
     * magnitude (transform_vector m (vscale (-1) x))) = -1.
Proof.
  intros H.
  assert (Hmag : magnitude (transform_vector m (vscale (-1) x))
                 = magnitude (transform_vector m x)).
  { unfold magnitude; f_equal; unfold transform_vector, dot_product; cbn; ring. }
  rewrite Hmag, magnitude_sq.
  replace (dot_product (transform_vector m x)
             (transform_vector m (vscale (-1) x)))
    with (- ((transform_vector m x).[0] ^ 2 + (transform_vector m x).[1] ^ 2
             + (transform_vector m x).[2] ^ 2))
    by (unfold transform_vector, dot_product; cbn; ring).
  field; rewrite <- magnitude_sq; nra.
Qed.

Lemma acos_clamped_1 : 180 * acos (Rmax (-1) (Rmin 1 1)) / PI = 0.
Proof.
  rewrite Rmin_left, Rmax_right by lra.
  rewrite acos_1; field; apply PI_neq0.
Qed.

Lemma acos_clamped_m1 : 180 * acos (Rmax (-1) (Rmin 1 (-1))) / PI = 180.
Proof.
  rewrite Rmin_right, Rmax_left by lra.
  change (acos (-1)) with (acos (Ropp 1)).
  rewrite acos_opp, acos_1; field; apply PI_neq0.
Qed.

Lemma transform_vector_zero_magnitude (m : mat3) :
  magnitude (transform_vector m vzero) = 0.
Proof.
  apply magnitude_zero_iff; apply vec3_eq;
    unfold transform_vector, dot_product, vzero; cbn [ix0 ix1 ix2]; ring.
Qed.

(** Where the angle is not defined, a magnitude is zero and the division
    raises: the satellite's position and velocity are parallel or zero, or
    one of the two observed positions is the origin. *)
Lemma sun_grazing_angle_degenerate
  (r_ac_ecef v_ac_ecef r_sun_ecef v_sun_ecef r_satellite v_satellite : vec3) :
  cross_product r_satellite v_satellite = vzero \/
  r_sun_ecef = vzero \/ r_ac_ecef = vzero ->
  calculate_sun_grazing_angle r_ac_ecef v_ac_ecef r_sun_ecef v_sun_ecef
    r_satellite v_satellite = ZeroDivisionError.
Proof.
  intros Hdeg; unfold calculate_sun_grazing_angle.
  destruct (Req_EM_T (magnitude (cross_product r_satellite v_satellite)) 0)
    as [Hc | Hc].
  - unfold ecef_to_ntw_matrix.
    rewrite normalize_zero_magnitude by exact Hc; reflexivity.
  - assert (Hc' : cross_product r_satellite v_satellite <> vzero)
      by (intros H; apply Hc; apply magnitude_zero_iff; exact H).
    destruct (ecef_to_ntw_matrix_ok _ _ Hc') as (_ & _ & Hmat).
    rewrite Hmat; cbn [bind].
    destruct Hdeg as [H | [H | H]]; [contradiction | |]; subst;
      unfold angle_between_vectors;
      rewrite transform_vector_zero_magnitude,
        ?Rmult_0_l, ?Rmult_0_r, pydiv_zero; reflexivity.
Qed.

End Grazing.

(** C5.  When the satellite's [r x v] is not zero and neither the sun's
    nor the aircraft's position is the origin,
    [calculate_sun_grazing_angle] returns [(180 - theta) / 2], where
    [theta] is, in degrees, the arccosine of the normalized dot product,
    clamped to [-1, 1], of the sun and aircraft positions transformed into
    the satellite's NTW basis; [theta = 0] gives 90 degrees and
    [theta = 180] gives 0 degrees.  The conditions are needed: where one
    fails a magnitude is zero and the division raises. *)
Theorem sun_grazing_angle_half_supplement
  (r_ac_ecef v_ac_ecef r_sun_ecef v_sun_ecef r_satellite v_satellite : vec3) :
  Relative.cross_product r_satellite v_satellite <> vzero ->
  r_sun_ecef <> vzero ->
  r_ac_ecef <> vzero ->
  exists (ntw : mat3) (theta : R),
    Relative.ecef_to_ntw_matrix r_satellite v_satellite = Ok ntw /\
    (let sun_ntw := Relative.transform_vector ntw r_sun_ecef in
     let ac_ntw := Relative.transform_vector ntw r_ac_ecef in
     theta =
     180 * acos (Rmax (-1) (Rmin 1
                   (Relative.dot_product sun_ntw ac_ntw
                    / (Relative.magnitude sun_ntw * Relative.magnitude ac_ntw))))
     / PI) /\
    Relative.calculate_sun_grazing_angle r_ac_ecef v_ac_ecef r_sun_ecef
      v_sun_ecef r_satellite v_satellite = Ok ((180 - theta) / 2) /\
    (theta = 0 ->
     Relative.calculate_sun_grazing_angle r_ac_ecef v_ac_ecef r_sun_ecef
       v_sun_ecef r_satellite v_satellite = Ok 90) /\
    (theta = 180 ->
     Relative.calculate_sun_grazing_angle r_ac_ecef v_ac_ecef r_sun_ecef
       v_sun_ecef r_satellite v_satellite = Ok 0).
Proof.
  intros Hc Hsun Hac.
  destruct (ecef_to_ntw_matrix_ok r_satellite v_satellite Hc)
    as (_ & _ & Hmat).
  destruct (Relative.ecef_to_ntw_matrix r_satellite v_satellite)
    as [ntw | | |] eqn:Hntw; try discriminate Hmat.
  clear Hmat.
  pose proof (ntw_image_nonzero _ _ r_sun_ecef Hc Hsun ntw Hntw) as Hs.
  pose proof (ntw_image_nonzero _ _ r_ac_ecef Hc Hac ntw Hntw) as Ha.
  set (sun_ntw := Relative.transform_vector ntw r_sun_ecef) in *.
  set (ac_ntw := Relative.transform_vector ntw r_ac_ecef) in *.
  set (theta :=
         180 * acos (Rmax (-1) (Rmin 1
                       (Relative.dot_product sun_ntw ac_ntw
                        / (Relative.magnitude sun_ntw
                           * Relative.magnitude ac_ntw)))) / PI).
  exists ntw, theta.
  split; [reflexivity |].
  split; [reflexivity |].
  assert (Hret :
    Relative.calculate_sun_grazing_angle r_ac_ecef v_ac_ecef r_sun_ecef
      v_sun_ecef r_satellite v_satellite = Ok ((180 - theta) / 2)).
  { unfold Relative.calculate_sun_grazing_angle.
    rewrite Hntw; cbn [bind]; fold sun_ntw; fold ac_ntw.
    rewrite angle_between_vectors_ok
      by (apply Rmult_integral_contrapositive; split; assumption).
    reflexivity. }
  split; [exact Hret |].
  split; intros Htheta; rewrite Hret, Htheta; f_equal; lra.
Qed.

Lemma sun_grazing_angle_half_supplement_witness :
  Relative.calculate_sun_grazing_angle (Vec3 1 0 0) vzero (Vec3 1 0 0) vzero
    (Vec3 1 0 0) (Vec3 0 1 0) = Ok 90 /\
  Relative.calculate_sun_grazing_angle (vscale (-1) (Vec3 1 0 0)) vzero
    (Vec3 1 0 0) vzero (Vec3 1 0 0) (Vec3 0 1 0) = Ok 0.
Proof.
  assert (Hc : Relative.cross_product (Vec3 1 0 0) (Vec3 0 1 0) <> vzero)
    by (intros H; apply (f_equal ix2) in H; cbn in H; lra).
  assert (Hx : Vec3 1 0 0 <> vzero)
    by (intros H; apply (f_equal ix0) in H; cbn in H; lra).
  assert (Hx' : vscale (-1) (Vec3 1 0 0) <> vzero)
    by (intros H; apply (f_equal ix0) in H; cbn in H; lra).
  split.
  - destruct (sun_grazing_angle_half_supplement (Vec3 1 0 0) vzero
                (Vec3 1 0 0) vzero (Vec3 1 0 0) (Vec3 0 1 0) Hc Hx Hx)
      as (ntw & theta & Hntw & Htheta & _ & Hsame & _).
    apply Hsame; rewrite Htheta; cbv zeta.
    rewrite cosine_same_direction; [apply acos_clamped_1 |].
    exact (ntw_image_nonzero _ _ _ Hc Hx ntw Hntw).
  - destruct (sun_grazing_angle_half_supplement (vscale (-1) (Vec3 1 0 0))
                vzero (Vec3 1 0 0) vzero (Vec3 1 0 0) (Vec3 0 1 0) Hc Hx Hx')
      as (ntw & theta & Hntw & Htheta & _ & _ & Hopp).
    apply Hopp; rewrite Htheta; cbv zeta.
    rewrite cosine_opposite_direction; [apply acos_clamped_m1 |].
    exact (ntw_image_nonzero _ _ _ Hc Hx ntw Hntw).
Defined.

(** A satellite at rest above the equator, the sun and the aircraft on two
    other axes: [r x v] is zero, the normal of the NTW basis has no
    direction, and the function raises instead of returning an angle. *)
Lemma sun_grazing_angle_raises_for_satellite_at_rest :
  Relative.calculate_sun_grazing_angle (Vec3 0 0 6371) vzero
    (Vec3 0 150000000 0) vzero (Vec3 6921 0 0) vzero = ZeroDivisionError /\
  ~ exists theta : R,
      Relative.calculate_sun_grazing_angle (Vec3 0 0 6371) vzero
        (Vec3 0 150000000 0) vzero (Vec3 6921 0 0) vzero
      = Ok ((180 - theta) / 2).
Proof.
  assert (Hraise :
    Relative.calculate_sun_grazing_angle (Vec3 0 0 6371) vzero
      (Vec3 0 150000000 0) vzero (Vec3 6921 0 0) vzero = ZeroDivisionError).
  { apply sun_grazing_angle_degenerate; left.
    apply vec3_eq; cbn; ring. }
  split; [exact Hraise |].
  intros [theta Hret]; rewrite Hraise in Hret; discriminate Hret.
Qed.

(** ** The apparent-separation search *)

Section ApparentLength.

Import Relative.

Variables (sats : list satellite) (r_ac_ecef : vec3) (lat lon : R).

Lemma for_each_app {A S : Type} (l1 l2 : list A) (body : A -> S -> result S)
  (s : S) :
  for_each (l1 ++ l2) body s = s' <- for_each l1 body s ;; for_each l2 body s'.
Proof.
  revert s; induction l1 as [| a l1 IH]; intros s; cbn; [reflexivity |].
  destruct (body a s); cbn; auto.
Qed.

Lemma for_each_map {A B S : Type} (g : A -> B) (l : list A)
  (body : B -> S -> result S) (s : S) :
  for_each (map g l) body s = for_each l (fun a => body (g a)) s.
Proof.
  revert s; induction l as [| a l IH]; intros s; cbn; [reflexivity |].
  destruct (body (g a) s); cbn; auto.
Qed.

Lemma for_each_flat_map {A B S : Type} (f : A -> list B) (l : list A)
  (body : B -> S -> result S) (s : S) :
  for_each (flat_map f l) body s =
  for_each l (fun a s => for_each (f a) body s) s.
Proof.
  revert s; induction l as [| a l IH]; intros s; cbn; [reflexivity |].
  rewrite for_each_app.
  destruct (for_each (f a) body s); cbn; auto.
Qed.

Lemma for_each_ext {A S : Type} (l : list A) (body1 body2 : A -> S -> result S)
  (s : S) :
  (forall a s, body1 a s = body2 a s) ->
  for_each l body1 s = for_each l body2 s.
Proof.
  intros Hext; revert s; induction l as [| a l IH]; intros s; cbn;
    [reflexivity |].
  rewrite Hext; destruct (body2 a s); cbn; auto.
Qed.

(** The nested loops visit the pairs of [pair_order], in that order. *)
Lemma pair_loop_pair_order (st : pair_state) :
  pair_loop sats r_ac_ecef lat lon st =
  for_each (pair_order (length sats))
    (fun ij st => pair_body sats r_ac_ecef lat lon (fst ij) (snd ij) st) st.
Proof.
  unfold pair_loop, pair_order; cbv zeta.
  rewrite for_each_flat_map.
  apply for_each_ext; intros i s.
  rewrite for_each_map; reflexivity.
Qed.

Lemma pair_order_in_range (len i j : nat) :
  In (i, j) (pair_order len) -> (i < j < len)%nat.
Proof.
  unfold pair_order, range; intros H.
  apply in_flat_map in H; destruct H as (i0 & Hi0 & H).
  apply in_map_iff in H; destruct H as (j0 & Heq & Hj0).
  injection Heq as <- <-.
  apply in_seq in Hi0; apply in_seq in Hj0; lia.
Qed.

Lemma getitem_in_range (i : nat) :
  (i < length sats)%nat ->
  exists s, nth_error sats i = Some s /\ getitem sats i = Ok s.
Proof.
  intros H; unfold getitem.
  destruct (nth_error sats i) as [s |] eqn:E.
  - exists s; split; reflexivity.
  - apply nth_error_None in E; lia.
Qed.

(** One visit of the loop body, seen from [furthest_satellites]. *)
Lemma pair_body_retain (i j : nat) (st : pair_state) :
  (i < length sats)%nat -> (j < length sats)%nat ->
  exists st',
    pair_body sats r_ac_ecef lat lon i j st = Ok st' /\
    furthest_satellites st' = retain sats (furthest_satellites st) (i, j).
Proof.
  intros Hi Hj.
  destruct (getitem_in_range i Hi) as (si & Hni & Hgi).
  destruct (getitem_in_range j Hj) as (sj & Hnj & Hgj).
  unfold pair_body; rewrite Hgi, Hgj; cbn [bind].
  eexists; split; [reflexivity |].
  cbn [furthest_satellites]; unfold retain, pair_distance; cbn [fst snd].
  rewrite Hni, Hnj.
  destruct (Rgt_dec (distance (position si) (position sj))
              (fs_distance (furthest_satellites st))); reflexivity.
Qed.

Lemma pair_visits_retain (l : list (nat * nat)) (st : pair_state) :
  Forall (fun ij => (fst ij < length sats)%nat /\ (snd ij < length sats)%nat) l ->
  exists st',
    for_each l
      (fun ij st => pair_body sats r_ac_ecef lat lon (fst ij) (snd ij) st) st
    = Ok st' /\
    furthest_satellites st' = fold_left (retain sats) l (furthest_satellites st).
Proof.
  intros Hl; revert st; induction Hl as [| [i j] l [Hi Hj] _ IH]; intros st.
  - exists st; split; reflexivity.
  - cbn [for_each fold_left fst snd] in *.
    destruct (pair_body_retain i j st Hi Hj) as (st1 & Hbody & Hfs).
    rewrite Hbody; cbn [bind].
    destruct (IH st1) as (st' & Hrest & Hfs').
    exists st'; split; [exact Hrest |].
    rewrite Hfs', Hfs; reflexivity.
Qed.

(** After the pair loop, [furthest_satellites] is the fold of [retain]
    over the pairs in iteration order. *)
Lemma pair_loop_retain (st : pair_state) :
  exists st',
    pair_loop sats r_ac_ecef lat lon st = Ok st' /\
    furthest_satellites st' =
    fold_left (retain sats) (pair_order (length sats)) (furthest_satellites st).
Proof.
  rewrite pair_loop_pair_order.
  apply pair_visits_retain.
  apply Forall_forall; intros [i j] Hin.
  apply pair_order_in_range in Hin; cbn [fst snd]; lia.
Qed.

(** Pairs strictly closer than [D] keep the recorded distance below [D]. *)
Lemma retain_below (D : R) (l : list (nat * nat)) (fs : furthest) :
  fs_distance fs < D ->
  Forall (fun p => pair_distance sats p < D) l ->
  fs_distance (fold_left (retain sats) l fs) < D.
Proof.
  intros Hfs Hl; revert fs Hfs; induction Hl as [| p l Hp _ IH]; intros fs Hfs.
  - exact Hfs.
  - cbn [fold_left]; apply IH; unfold retain.
    destruct (Rgt_dec (pair_distance sats p) (fs_distance fs)); assumption.
Qed.

(** Pairs no further apart than the recorded distance change nothing: a
    pair at a distance equal to the current maximum does not replace
    it. *)
Lemma retain_unchanged (l : list (nat * nat)) (fs : furthest) :
  Forall (fun p => pair_distance sats p <= fs_distance fs) l ->
  fold_left (retain sats) l fs = fs.
Proof.
  induction 1 as [| p l Hp _ IH]; [reflexivity |].
  cbn [fold_left]; unfold retain at 2.
  destruct (Rgt_dec (pair_distance sats p) (fs_distance fs)); [lra | exact IH].
Qed.

(** The first pair that attains a maximum above the initial distance is
    the one recorded at the end. *)
Lemma retain_first_maximum (before after : list (nat * nat)) (ij : nat * nat)
  (fs : furthest) :
  fs_distance fs < pair_distance sats ij ->
  Forall (fun p => pair_distance sats p < pair_distance sats ij) before ->
  Forall (fun p => pair_distance sats p <= pair_distance sats ij) after ->
  let fs' := fold_left (retain sats) (before ++ ij :: after) fs in
  fs_sat1 fs' = Some (fst ij) /\ fs_sat2 fs' = Some (snd ij) /\
  fs_distance fs' = pair_distance sats ij /\
  fs_midpoint_sat fs' = fs_midpoint_sat fs /\
  fs_midpoint fs' =
  match nth_error sats (fst ij), nth_error sats (snd ij) with
  | Some a, Some b => Some (midpoint_of (position a) (position b))
  | _, _ => None
  end.
Proof.
  intros Hfs Hbefore Hafter fs'; unfold fs'.
  rewrite fold_left_app; cbn [fold_left].
  pose proof (retain_below _ before fs Hfs Hbefore) as Hlt.
  assert (Hmid : fs_midpoint_sat (fold_left (retain sats) before fs)
                 = fs_midpoint_sat fs).
  { clear; revert fs; induction before as [| p l IH]; intros fs;
      [reflexivity |].
    cbn [fold_left]; rewrite IH; unfold retain.
    destruct (Rgt_dec (pair_distance sats p) (fs_distance fs)); reflexivity. }
  set (fs1 := fold_left (retain sats) before fs) in *.
  assert (Hstep : retain sats fs1 ij =
    {| fs_sat1 := Some (fst ij);
       fs_sat2 := Some (snd ij);
       fs_distance := pair_distance sats ij;
       fs_midpoint :=
         match nth_error sats (fst ij), nth_error sats (snd ij) with
         | Some a, Some b => Some (midpoint_of (position a) (position b))
         | _, _ => None
         end;
       fs_midpoint_sat := fs_midpoint_sat fs1 |}).
  { unfold retain.
    destruct (Rgt_dec (pair_distance sats ij) (fs_distance fs1));
      [reflexivity | lra]. }
  rewrite Hstep, retain_unchanged by exact Hafter.
  cbn; auto.
Qed.

(** The midpoint scan, once a midpoint is recorded: it ends normally,
    touches only [midpoint_sat], and leaves there an index it visited. *)
Lemma midpoint_scan_ok (l : list (nat * satellite)) (c : option R)
  (fs : furthest) (m : vec3) :
  fs_midpoint fs = Some m ->
  exists c' fs',
    for_each l midpoint_body (c, fs) = Ok (c', fs') /\
    fs_sat1 fs' = fs_sat1 fs /\ fs_sat2 fs' = fs_sat2 fs /\
    fs_distance fs' = fs_distance fs /\ fs_midpoint fs' = fs_midpoint fs /\
    (fs_midpoint_sat fs' = fs_midpoint_sat fs \/
     In (fs_midpoint_sat fs') (map fst l)).
Proof.
  revert c fs; induction l as [| [idx sat] l IH]; intros c fs Hm.
  - exists c, fs; cbn; auto 10.
  - cbn [for_each midpoint_body]; rewrite Hm; cbn [subscriptable bind].
    assert (Hkeep :
      exists c' fs',
        for_each l midpoint_body (c, fs) = Ok (c', fs') /\
        fs_sat1 fs' = fs_sat1 fs /\ fs_sat2 fs' = fs_sat2 fs /\
        fs_distance fs' = fs_distance fs /\ fs_midpoint fs' = Some m /\
        (fs_midpoint_sat fs' = fs_midpoint_sat fs \/
         In (fs_midpoint_sat fs') (map fst ((idx, sat) :: l)))).
    { destruct (IH c fs Hm) as (c' & fs' & Hrun & H1 & H2 & H3 & H4 & H5).
      exists c', fs'; cbn [map fst In]; rewrite <- Hm; intuition. }
    assert (Hcloser :
      forall d : R,
      exists c' fs',
        for_each l midpoint_body
          (Some d,
           {| fs_sat1 := fs_sat1 fs; fs_sat2 := fs_sat2 fs;
              fs_distance := fs_distance fs; fs_midpoint := Some m;
              fs_midpoint_sat := idx |}) = Ok (c', fs') /\
        fs_sat1 fs' = fs_sat1 fs /\ fs_sat2 fs' = fs_sat2 fs /\
        fs_distance fs' = fs_distance fs /\ fs_midpoint fs' = Some m /\
        (fs_midpoint_sat fs' = fs_midpoint_sat fs \/
         In (fs_midpoint_sat fs') (map fst ((idx, sat) :: l)))).
    { intros d.
      destruct (IH (Some d)
                  {| fs_sat1 := fs_sat1 fs; fs_sat2 := fs_sat2 fs;
                     fs_distance := fs_distance fs; fs_midpoint := Some m;
                     fs_midpoint_sat := idx |} eq_refl)
        as (c' & fs' & Hrun & H1 & H2 & H3 & H4 & H5).
      exists c', fs'; cbn [map fst In fs_sat1 fs_sat2 fs_distance fs_midpoint
                            fs_midpoint_sat] in *.
      intuition. }
    destruct c as [c0 |]; [| cbn [bind]; apply Hcloser].
    destruct (Rlt_dec (distance (position sat) m) c0); cbn [bind];
      [apply Hcloser | apply Hkeep].
Qed.

(** Without a recorded midpoint the scan raises at the first target. *)
Lemma midpoint_scan_raises (entry : nat * satellite)
  (l : list (nat * satellite)) (c : option R) (fs : furthest) :
  fs_midpoint fs = None ->
  for_each (entry :: l) midpoint_body (c, fs) = TypeError.
Proof.
  intros Hm; destruct entry as [idx sat].
  cbn [for_each midpoint_body]; rewrite Hm; reflexivity.
Qed.

Lemma enumerate_indices {A : Type} (l : list A) :
  map fst (enumerate l) = seq 0 (length l).
Proof.
  unfold enumerate; generalize 0%nat.
  induction l as [| a l IH]; intros n; cbn; [reflexivity |].
  rewrite IH; reflexivity.
Qed.

End ApparentLength.

(** No pair further apart than 0: nothing is recorded, and with at least
    one target the midpoint scan raises. *)
Lemma apparent_length_without_recorded_pair
  (s : Relative.satellite) (sats : list Relative.satellite)
  (r_ac_ecef : vec3) (lat lon : R) :
  Forall (fun p => pair_distance (s :: sats) p <= 0)
    (pair_order (length (s :: sats))) ->
  Relative.calculate_apparent_length (s :: sats) r_ac_ecef lat lon = TypeError.
Proof.
  intros Hall.
  destruct (pair_loop_retain (s :: sats) r_ac_ecef lat lon
              Relative.initial_pair_state) as (st & Hloop & Hfs).
  rewrite retain_unchanged in Hfs by exact Hall.
  unfold Relative.calculate_apparent_length.
  rewrite Hloop; cbn [bind].
  change (Relative.enumerate (s :: sats))
    with ((0%nat, s) :: combine (seq 1 (length sats)) sats).
  rewrite midpoint_scan_raises; [reflexivity | rewrite Hfs; reflexivity].
Qed.

(** C3.  Fewer than two targets.  With no target at all
    [calculate_apparent_length] returns [None] for each of its six values.
    With exactly one target it does not: no pair is visited, no midpoint is
    recorded, and the midpoint scan, which runs before the test for a
    recorded pair, subscripts [None] and raises [TypeError]. *)
Theorem apparent_length_below_two_targets
  (s : Relative.satellite) (r_ac_ecef : vec3) (lat lon : R) :
  Relative.calculate_apparent_length [] r_ac_ecef lat lon
  = Ok (None, None, None, None, None, None) /\
  Relative.calculate_apparent_length [s] r_ac_ecef lat lon = TypeError.
Proof. split; reflexivity. Qed.

(** C9.  The tie-break of the pair loop.  A pair whose distance equals the
    recorded maximum never replaces the recorded pair; and the first pair,
    in the order ascending [i] then ascending [j > i], that attains a
    positive maximum pair distance is the one [calculate_apparent_length]
    retains and returns as the furthest pair. *)
Theorem furthest_pair_first_positive_maximum
  (sats : list Relative.satellite) (r_ac_ecef : vec3) (lat lon : R) :
  (forall (i j : nat) (st : Relative.pair_state),
      (i < length sats)%nat -> (j < length sats)%nat ->
      pair_distance sats (i, j)
      = Relative.fs_distance (Relative.furthest_satellites st) ->
      exists st',
        Relative.pair_body sats r_ac_ecef lat lon i j st = Ok st' /\
        Relative.furthest_satellites st' = Relative.furthest_satellites st) /\
  (forall (before after : list (nat * nat)) (i j : nat),
      pair_order (length sats) = before ++ (i, j) :: after ->
      0 < pair_distance sats (i, j) ->
      Forall (fun p => pair_distance sats p < pair_distance sats (i, j)) before ->
      Forall (fun p => pair_distance sats p <= pair_distance sats (i, j)) after ->
      (exists st,
          Relative.pair_loop sats r_ac_ecef lat lon Relative.initial_pair_state
          = Ok st /\
          Relative.fs_sat1 (Relative.furthest_satellites st) = Some i /\
          Relative.fs_sat2 (Relative.furthest_satellites st) = Some j /\
          Relative.fs_distance (Relative.furthest_satellites st)
          = pair_distance sats (i, j)) /\
      (exists le ln dd d1 d2 fs,
          Relative.calculate_apparent_length sats r_ac_ecef lat lon
          = Ok (Some le, Some ln, Some dd, Some d1, Some d2, Some fs) /\
          Relative.fs_sat1 fs = Some i /\
          Relative.fs_sat2 fs = Some j /\
          Relative.fs_distance fs = pair_distance sats (i, j))).
Proof.
  split.
  - intros i j st Hi Hj Heq.
    destruct (pair_body_retain sats r_ac_ecef lat lon i j st Hi Hj)
      as (st' & Hbody & Hfs).
    exists st'; split; [exact Hbody |].
    rewrite Hfs; unfold retain.
    destruct (Rgt_dec (pair_distance sats (i, j))
                (Relative.fs_distance (Relative.furthest_satellites st)));
      [lra | reflexivity].
  - intros before after i j Hsplit Hpos Hbefore Hafter.
    destruct (pair_loop_retain sats r_ac_ecef lat lon
                Relative.initial_pair_state) as (st & Hloop & Hfs).
    rewrite Hsplit in Hfs.
    destruct (retain_first_maximum sats before after (i, j)
                (Relative.furthest_satellites Relative.initial_pair_state)
                Hpos Hbefore Hafter) as (H1 & H2 & H3 & H4 & H5).
    rewrite <- Hfs in H1, H2, H3, H4, H5; cbn [fst snd] in *.
    split; [exists st; auto |].
    assert (Hin : In (i, j) (pair_order (length sats)))
      by (rewrite Hsplit; apply in_or_app; right; left; reflexivity).
    apply pair_order_in_range in Hin.
    destruct (getitem_in_range sats i) as (si & Hni & Hgi); [lia |].
    destruct (getitem_in_range sats j) as (sj & Hnj & Hgj); [lia |].
    rewrite Hni, Hnj in H5.
    destruct (midpoint_scan_ok (Relative.enumerate sats) None _ _ H5)
      as (c' & fs' & Hscan & E1 & E2 & E3 & _ & E5).
    assert (Hmid : (Relative.fs_midpoint_sat fs' < length sats)%nat).
    { destruct E5 as [E5 | E5].
      - rewrite E5, H4; cbn; lia.
      - rewrite enumerate_indices in E5; apply in_seq in E5; lia. }
    destruct (getitem_in_range sats _ Hmid) as (sm & _ & Hgm).
    unfold Relative.calculate_apparent_length.
    rewrite Hloop; cbn [bind]; rewrite Hscan; cbn [bind snd].
    rewrite E1, E2, H1, H2, Hgi; cbn [bind].
    rewrite Hgj; cbn [bind]; rewrite Hgm; cbn [bind].
    do 6 eexists; split; [reflexivity |].
    rewrite E1, E2, E3; auto.
Qed.

Lemma distance_self (p : vec3) : Relative.distance p p = 0.
Proof.
  unfold Relative.distance.
  replace ((p.[0] - p.[0]) ^ 2 + (p.[1] - p.[1]) ^ 2 + (p.[2] - p.[2]) ^ 2)
    with 0 by ring.
  apply sqrt_0.
Qed.

Lemma distance_unit_axes_01 :
  Relative.distance (Vec3 1 0 0) (Vec3 0 1 0) = sqrt 2.
Proof. unfold Relative.distance; cbn [ix0 ix1 ix2]; f_equal; ring. Qed.

Lemma distance_unit_axes_02 :
  Relative.distance (Vec3 1 0 0) (Vec3 0 0 1) = sqrt 2.
Proof. unfold Relative.distance; cbn [ix0 ix1 ix2]; f_equal; ring. Qed.

Lemma distance_unit_axes_12 :
  Relative.distance (Vec3 0 1 0) (Vec3 0 0 1) = sqrt 2.
Proof. unfold Relative.distance; cbn [ix0 ix1 ix2]; f_equal; ring. Qed.

(** Three targets at the corners of an equilateral triangle: all three
    pairs are at the maximum distance, and the first pair is retained. *)
Lemma furthest_pair_first_positive_maximum_witness :
  exists le ln dd d1 d2 fs,
    Relative.calculate_apparent_length
      [target_at (Vec3 1 0 0); target_at (Vec3 0 1 0); target_at (Vec3 0 0 1)]
      vzero 0 0
    = Ok (Some le, Some ln, Some dd, Some d1, Some d2, Some fs) /\
    Relative.fs_sat1 fs = Some 0%nat /\
    Relative.fs_sat2 fs = Some 1%nat /\
    Relative.fs_distance fs = sqrt 2.
Proof.
  destruct (furthest_pair_first_positive_maximum
              [target_at (Vec3 1 0 0); target_at (Vec3 0 1 0);
               target_at (Vec3 0 0 1)] vzero 0 0) as [_ H].
  destruct (H [] [(0, 2); (1, 2)]%nat 0%nat 1%nat) as [_ Hret].
  - reflexivity.
  - change (0 < Relative.distance (Vec3 1 0 0) (Vec3 0 1 0)).
    rewrite distance_unit_axes_01; apply sqrt_lt_R0; lra.
  - constructor.
  - change (pair_distance _ (0%nat, 1%nat))
      with (Relative.distance (Vec3 1 0 0) (Vec3 0 1 0)).
    apply Forall_cons; [| apply Forall_cons; [| apply Forall_nil]].
    + change (Relative.distance (Vec3 1 0 0) (Vec3 0 0 1)
              <= Relative.distance (Vec3 1 0 0) (Vec3 0 1 0)).
      rewrite distance_unit_axes_01, distance_unit_axes_02; lra.
    + change (Relative.distance (Vec3 0 1 0) (Vec3 0 0 1)
              <= Relative.distance (Vec3 1 0 0) (Vec3 0 1 0)).
      rewrite distance_unit_axes_01, distance_unit_axes_12; lra.
  - destruct Hret as (le & ln & dd & d1 & d2 & fs & Hret & H1 & H2 & H3).
    exists le, ln, dd, d1, d2, fs; repeat split; try assumption.
    rewrite H3; apply distance_unit_axes_01.
Defined.

(** Three targets at one and the same position: every pair is at the
    maximum distance, 0, so the pair [(0, 1)] is the first to attain the
    maximum; the loop retains no pair, and the midpoint scan then
    raises. *)
Lemma furthest_pair_unrecorded_at_zero_distance :
  let sats := [target_at vzero; target_at vzero; target_at vzero] in
  pair_order (length sats) = [] ++ (0, 1)%nat :: [(0, 2); (1, 2)]%nat /\
  Forall (fun p => pair_distance sats p < pair_distance sats (0, 1)%nat) [] /\
  Forall (fun p => pair_distance sats p <= pair_distance sats (0, 1)%nat)
    [(0, 2); (1, 2)]%nat /\
  (exists st,
      Relative.pair_loop sats vzero 0 0 Relative.initial_pair_state = Ok st /\
      Relative.fs_sat1 (Relative.furthest_satellites st) = None /\
      Relative.fs_sat2 (Relative.furthest_satellites st) = None) /\
  Relative.calculate_apparent_length sats vzero 0 0 = TypeError.
Proof.
  intros sats.
  assert (Hzero : forall p, In p (pair_order (length sats)) ->
                            pair_distance sats p = 0).
  { intros p Hin; cbn in Hin.
    destruct Hin as [<- | [<- | [<- | []]]]; apply distance_self. }
  assert (Hall : Forall (fun p => pair_distance sats p <= 0)
                   (pair_order (length sats))).
  { apply Forall_forall; intros p Hin; rewrite (Hzero p Hin); lra. }
  destruct (pair_loop_retain sats vzero 0 0 Relative.initial_pair_state)
    as (st & Hloop & Hfs).
  rewrite retain_unchanged in Hfs by exact Hall.
  split; [reflexivity |].
  split; [constructor |].
  split.
  { apply Forall_forall; intros p Hin.
    rewrite (Hzero p), (Hzero (0, 1)%nat); [lra | cbn; auto | cbn; auto]. }
  split.
  { exists st; rewrite Hfs; auto. }
  unfold Relative.calculate_apparent_length.
  rewrite Hloop; cbn [bind].
  change (Relative.enumerate sats)
    with ((0%nat, target_at vzero)
            :: [(1%nat, target_at vzero); (2%nat, target_at vzero)]).
  rewrite midpoint_scan_raises; [reflexivity | rewrite Hfs; reflexivity].
Qed.

(** ** The ENU form against the SEZ form *)

Section EnuAgainstSez.

Lemma cos_razel_lon (lon : R) : cos (razel_lon lon) = cos lon.
Proof.
  unfold razel_lon.
  destruct (Rlt_dec lon (- PI)); [| destruct (Rgt_dec lon PI)].
  - rewrite cos_plus, cos_2PI, sin_2PI; ring.
  - rewrite cos_minus, cos_2PI, sin_2PI; ring.
  - reflexivity.
Qed.

Lemma sin_razel_lon (lon : R) : sin (razel_lon lon) = sin lon.
Proof.
  unfold razel_lon.
  destruct (Rlt_dec lon (- PI)); [| destruct (Rgt_dec lon PI)].
  - rewrite sin_plus, cos_2PI, sin_2PI; ring.
  - rewrite sin_minus, cos_2PI, sin_2PI; ring.
  - reflexivity.
Qed.

(** South is minus north, east is east, zenith is up. *)
Lemma razel_sez_enu (vec : vec3) (lat lon : R) :
  razel_sez vec lat lon =
  Vec3 (- (Cockpitview.ecef2enu vec lat lon).[1])
       (Cockpitview.ecef2enu vec lat lon).[0]
       (Cockpitview.ecef2enu vec lat lon).[2].
Proof.
  unfold razel_sez.
  replace (PI * 0.5 - lat) with (PI / 2 - lat) by lra.
  apply vec3_eq; cbn [Rot.rot2 Rot.rot3 Cockpitview.ecef2enu ix0 ix1 ix2];
    cbv zeta; cbn [ix0 ix1 ix2];
    rewrite ?cos_shift, ?sin_shift, ?cos_razel_lon, ?sin_razel_lon; ring.
Qed.

Lemma arctan2_bound (y x : R) : - PI < arctan2 y x <= PI.
Proof.
  pose proof PI_RGT_0 as Hpi; unfold arctan2.
  destruct (Rlt_dec 0 x) as [Hx | Hx].
  - pose proof (atan_bound (y / x)); lra.
  - destruct (Rlt_dec x 0) as [Hx' | Hx'].
    + destruct (Rle_dec 0 y) as [Hy | Hy].
      * assert (y / x <= 0).
        { unfold Rdiv; assert (/ x < 0) by (apply Rinv_lt_0_compat; exact Hx').
          nra. }
        pose proof (atan_bound (y / x)).
        assert (atan (y / x) <= 0).
        { destruct (Req_dec (y / x) 0) as [-> | Hne];
            [rewrite atan_0; lra |].
          rewrite <- atan_0; left; apply atan_increasing; lra. }
        lra.
      * assert (0 < y / x).
        { unfold Rdiv; assert (/ x < 0) by (apply Rinv_lt_0_compat; exact Hx').
          nra. }
        pose proof (atan_bound (y / x)).
        assert (0 < atan (y / x))
          by (rewrite <- atan_0; apply atan_increasing; lra).
        lra.
    + destruct (Rlt_dec 0 y); [lra |].
      destruct (Rlt_dec y 0); lra.
Qed.

(** The floored remainder modulo a full turn of an angle in (-PI, PI]. *)
Lemma pymod_tau (a : R) :
  - PI < a <= PI ->
  pymod a tau = if Rlt_dec a 0 then a + 2 * PI else a.
Proof.
  intros Ha; pose proof PI_RGT_0 as Hpi; unfold pymod, tau.
  assert (Hdiv : a / (2 * PI) * (2 * PI) = a) by (field; lra).
  destruct (Rlt_dec a 0) as [Hneg | Hpos].
  - assert (Hfloor : (-1)%Z = Int_part (a / (2 * PI))).
    { apply Int_part_spec; split.
      - assert (a / (2 * PI) < 0); [| lra].
        unfold Rdiv; assert (0 < / (2 * PI)) by (apply Rinv_0_lt_compat; lra).
        nra.
      - assert (-1 * (2 * PI) <= a / (2 * PI) * (2 * PI)) by lra.
        apply Rmult_le_reg_r with (2 * PI); lra. }
    rewrite <- Hfloor; lra.
  - assert (Hfloor : 0%Z = Int_part (a / (2 * PI))).
    { apply Int_part_spec; split.
      - assert (a / (2 * PI) * (2 * PI) < 1 * (2 * PI)) by lra.
        assert (a / (2 * PI) < 1); [| lra].
        apply Rmult_lt_reg_r with (2 * PI); lra.
      - assert (0 * (2 * PI) <= a / (2 * PI) * (2 * PI)) by lra.
        apply Rmult_le_reg_r with (2 * PI); lra. }
    rewrite <- Hfloor; lra.
Qed.

(** The arcsine of height over slant range is the arctangent of height
    over ground range. *)
Lemma asin_height_over_range (u r : R) :
  0 < r -> asin (u / sqrt (r * r + u * u)) = atan (u / r).
Proof.
  intros Hr.
  assert (Hsum : 0 < r * r + u * u) by nra.
  pose proof (sqrt_lt_R0 _ Hsum) as Hrho.
  pose proof (sqrt_sqrt (r * r + u * u) (Rlt_le _ _ Hsum)) as Hsq.
  set (rho := sqrt (r * r + u * u)) in *.
  assert (Hone : 1 - (u / rho)² = (r / rho) * (r / rho)).
  { apply Rmult_eq_reg_r with (rho * rho); [| nra].
    replace ((1 - (u / rho)²) * (rho * rho)) with (rho * rho - u * u)
      by (unfold Rsqr; field; lra).
    replace (r / rho * (r / rho) * (rho * rho)) with (r * r) by (field; lra).
    lra. }
  assert (Hrr : 0 < r / rho) by (apply Rdiv_lt_0_compat; assumption).
  assert (Hlt : -1 < u / rho < 1).
  { assert ((u / rho)² < 1) by (unfold Rsqr in *; nra).
    unfold Rsqr in *; split; nra. }
  rewrite asin_atan by exact Hlt.
  rewrite Hone, sqrt_square by lra.
  f_equal; field; lra.
Qed.

Lemma noise_floor_kept (c : R) :
  ~ Rabs c < 1e-3 \/ c = 0 ->
  (if Rlt_dec (Rabs c) 1e-3 then 0.0 else c) = c.
Proof.
  intros [H | H]; destruct (Rlt_dec (Rabs c) 1e-3); try contradiction;
    try reflexivity.
  rewrite H; lra.
Qed.

Lemma degrees_negative (a : R) : a < 0 <-> degrees a < 0.
Proof.
  pose proof PI_RGT_0 as Hpi; rewrite <- degrees_alt.
  assert (H : 0 < 180 / PI) by (apply Rdiv_lt_0_compat; lra).
  split; intros; nra.
Qed.

Lemma degrees_full_turn (a : R) : degrees (a + 2 * PI) = degrees a + 360.
Proof. unfold degrees; field; apply PI_neq0. Qed.

Variables (r1ecef v1ecef r2ecef v2ecef : vec3) (lat lon : R).

(** What [twoecef2razel] returns away from the zenith and the nadir, in
    terms of the ENU components of the relative position. *)
Lemma twoecef2razel_regular :
  let enu := Cockpitview.twoecef2enu r1ecef r2ecef lat lon in
  ~ sqrt (enu.[0] ^ 2 + enu.[1] ^ 2) < 1e-8 ->
  Cockpitview.twoecef2razel r1ecef v1ecef r2ecef v2ecef lat lon =
  (norm (vsub r2ecef r1ecef),
   degrees (arctan2 enu.[0] enu.[1]),
   degrees (asin (enu.[2] / sqrt (enu.[0] ^ 2 + enu.[1] ^ 2 + enu.[2] ^ 2)))).
Proof.
  intros enu Hhoriz.
  unfold Cockpitview.twoecef2razel; cbv zeta.
  fold (razel_lon lon).
  change (Rot.rot2 (Rot.rot3 (vsub r2ecef r1ecef) (razel_lon lon))
            (PI * 0.5 - lat)) with (razel_sez (vsub r2ecef r1ecef) lat lon).
  rewrite razel_sez_enu, <- twoecef2enu_is_ecef2enu.
  fold enu; cbn [ix0 ix1 ix2].
  replace (- enu.[1] * - enu.[1] + enu.[0] * enu.[0])
    with (enu.[0] ^ 2 + enu.[1] ^ 2) by ring.
  replace 0.00000001 with 1e-8 by lra.
  destruct (Rlt_dec (sqrt (enu.[0] ^ 2 + enu.[1] ^ 2)) 1e-8) as [Hs | _];
    [contradiction |].
  replace (- - enu.[1]) with enu.[1] by ring.
  rewrite !degrees_alt; unfold norm at 2; cbn [ix0 ix1 ix2].
  replace (- enu.[1] * - enu.[1] + enu.[0] * enu.[0] + enu.[2] * enu.[2])
    with (enu.[0] ^ 2 + enu.[1] ^ 2 + enu.[2] ^ 2) by ring.
  reflexivity.
Qed.

(** What [twoecef2aer] returns when the noise floor changes no
    component. *)
Lemma twoecef2aer_above_noise_floor :
  let enu := Cockpitview.twoecef2enu r1ecef r2ecef lat lon in
  ~ Rabs enu.[0] < 1e-3 \/ enu.[0] = 0 ->
  ~ Rabs enu.[1] < 1e-3 \/ enu.[1] = 0 ->
  ~ Rabs enu.[2] < 1e-3 \/ enu.[2] = 0 ->
  Cockpitview.twoecef2aer r1ecef r2ecef lat lon =
  (hypot (hypot enu.[0] enu.[1]) enu.[2],
   degrees (pymod (arctan2 enu.[0] enu.[1]) tau),
   degrees (arctan2 enu.[2] (hypot enu.[0] enu.[1]))).
Proof.
  intros enu He Hn Hu.
  unfold Cockpitview.twoecef2aer; cbv zeta; fold enu.
  rewrite !noise_floor_kept by assumption; reflexivity.
Qed.

End EnuAgainstSez.

(** C4.  The azimuth and elevation of [twoecef2aer] against those of
    [twoecef2razel], from the same positions and pose, over the reals.
    When the noise floor of [twoecef2aer] changes no ENU component (each
    is 0 or at least 1e-3 in magnitude) and the horizontal magnitude is
    not below 1e-8, the elevations are equal and the azimuths are equal
    modulo 360 degrees: [twoecef2razel] gives an azimuth in (-180, 180],
    [twoecef2aer] the same angle wrapped into [0, 360). *)
Theorem aer_agrees_with_razel_modulo_wrap
  (r1ecef v1ecef r2ecef v2ecef : vec3) (lat lon : R) :
  let enu := Cockpitview.twoecef2enu r1ecef r2ecef lat lon in
  (~ Rabs enu.[0] < 1e-3 \/ enu.[0] = 0) ->
  (~ Rabs enu.[1] < 1e-3 \/ enu.[1] = 0) ->
  (~ Rabs enu.[2] < 1e-3 \/ enu.[2] = 0) ->
  ~ sqrt (enu.[0] ^ 2 + enu.[1] ^ 2) < 1e-8 ->
  let '(_, az_aer, el_aer) := Cockpitview.twoecef2aer r1ecef r2ecef lat lon in
  let '(_, az_razel, el_razel) :=
    Cockpitview.twoecef2razel r1ecef v1ecef r2ecef v2ecef lat lon in
  el_aer = el_razel /\
  az_aer = (if Rlt_dec az_razel 0 then az_razel + 360 else az_razel) /\
  0 <= az_aer < 360 /\ -180 < az_razel <= 180.
Proof.
  intros enu He Hn Hu Hhoriz.
  rewrite (twoecef2aer_above_noise_floor _ _ _ _ He Hn Hu).
  rewrite (twoecef2razel_regular _ v1ecef _ v2ecef _ _ Hhoriz).
  fold enu.
  assert (Hr : 0 < hypot enu.[0] enu.[1]).
  { unfold hypot.
    replace (enu.[0] * enu.[0] + enu.[1] * enu.[1])
      with (enu.[0] ^ 2 + enu.[1] ^ 2) by ring.
    lra. }
  pose proof (arctan2_bound enu.[0] enu.[1]) as Hbound.
  pose proof (degrees_negative (arctan2 enu.[0] enu.[1])) as Hsign.
  assert (Hrad : arctan2 enu.[0] enu.[1]
                 = degrees (arctan2 enu.[0] enu.[1]) * PI / 180)
    by (unfold degrees; field; apply PI_neq0).
  pose proof PI_RGT_0 as Hpi.
  assert (Hlo : -180 < degrees (arctan2 enu.[0] enu.[1])).
  { apply Rmult_lt_reg_r with PI; [exact Hpi | lra]. }
  assert (Hhi : degrees (arctan2 enu.[0] enu.[1]) <= 180).
  { apply Rmult_le_reg_r with PI; [exact Hpi | lra]. }
  split; [| split; [| split; [| split; assumption]]].
  - f_equal.
    rewrite arctan2_pos_x by exact Hr.
    rewrite <- asin_height_over_range by exact Hr.
    replace (hypot enu.[0] enu.[1] * hypot enu.[0] enu.[1]
             + enu.[2] * enu.[2])
      with (enu.[0] ^ 2 + enu.[1] ^ 2 + enu.[2] ^ 2)
      by (unfold hypot; rewrite sqrt_sqrt by nra; ring).
    reflexivity.
  - rewrite pymod_tau by exact Hbound.
    destruct (Rlt_dec (arctan2 enu.[0] enu.[1]) 0) as [Ha | Ha];
      destruct (Rlt_dec (degrees (arctan2 enu.[0] enu.[1])) 0) as [Hd | Hd];
      try tauto.
    apply degrees_full_turn.
  - rewrite pymod_tau by exact Hbound.
    destruct (Rlt_dec (arctan2 enu.[0] enu.[1]) 0) as [Ha | Ha].
    + rewrite degrees_full_turn; apply Hsign in Ha; lra.
    + assert (~ degrees (arctan2 enu.[0] enu.[1]) < 0) by tauto; lra.
Qed.

(** A target one kilometre due west of an observer at latitude 0,
    longitude 0. *)
Lemma enu_due_west :
  Cockpitview.twoecef2enu vzero (Vec3 0 (-1) 0) 0 0 = Vec3 (-1) 0 0.
Proof.
  rewrite twoecef2enu_is_ecef2enu, ecef2enu_equator.
  apply vec3_eq; cbn; ring.
Qed.

Lemma Rabs_minus_one : ~ Rabs (-1) < 1e-3.
Proof. unfold Rabs; destruct (Rcase_abs (-1)); lra. Qed.

Lemma horizontal_due_west : ~ sqrt ((-1) ^ 2 + 0 ^ 2) < 1e-8.
Proof.
  replace ((-1) ^ 2 + 0 ^ 2) with 1 by ring; rewrite sqrt_1; lra.
Qed.

Lemma aer_agrees_with_razel_modulo_wrap_witness :
  let '(_, az_aer, el_aer) :=
    Cockpitview.twoecef2aer vzero (Vec3 0 (-1) 0) 0 0 in
  let '(_, az_razel, el_razel) :=
    Cockpitview.twoecef2razel vzero vzero (Vec3 0 (-1) 0) vzero 0 0 in
  el_aer = el_razel /\
  az_aer = (if Rlt_dec az_razel 0 then az_razel + 360 else az_razel) /\
  0 <= az_aer < 360 /\ -180 < az_razel <= 180.
Proof.
  apply (aer_agrees_with_razel_modulo_wrap vzero vzero (Vec3 0 (-1) 0) vzero 0 0);
    rewrite enu_due_west; cbn [ix0 ix1 ix2].
  - left; exact Rabs_minus_one.
  - right; reflexivity.
  - right; reflexivity.
  - exact horizontal_due_west.
Defined.

(** The same target: [twoecef2aer] gives the azimuth 270 degrees,
    [twoecef2razel] gives -90 degrees. *)
Lemma aer_razel_azimuths_differ_due_west :
  let '(_, az_aer, _) :=
    Cockpitview.twoecef2aer vzero (Vec3 0 (-1) 0) 0 0 in
  let '(_, az_razel, _) :=
    Cockpitview.twoecef2razel vzero vzero (Vec3 0 (-1) 0) vzero 0 0 in
  az_aer = 270 /\ az_razel = -90 /\ ~ Rabs (az_aer - az_razel) <= 1e-6.
Proof.
  pose proof (twoecef2aer_above_noise_floor vzero (Vec3 0 (-1) 0) 0 0) as Haer.
  pose proof (twoecef2razel_regular vzero vzero (Vec3 0 (-1) 0) vzero 0 0)
    as Hrazel.
  cbv zeta in Haer, Hrazel; rewrite enu_due_west in Haer, Hrazel.
  cbn [ix0 ix1 ix2] in Haer, Hrazel.
  rewrite Haer, Hrazel;
    [| exact horizontal_due_west | left; exact Rabs_minus_one
     | right; reflexivity | right; reflexivity ].
  pose proof PI_RGT_0 as Hpi.
  rewrite arctan2_west by lra.
  rewrite pymod_tau by lra.
  destruct (Rlt_dec (- (PI / 2)) 0) as [_ | Hge]; [| lra].
  assert (Haz : degrees (- (PI / 2) + 2 * PI) = 270)
    by (unfold degrees; field; lra).
  assert (Haz' : degrees (- (PI / 2)) = -90)
    by (unfold degrees; field; lra).
  rewrite Haz, Haz'.
  split; [reflexivity | split; [reflexivity |]].
  replace (270 - -90) with 360 by lra.
  unfold Rabs; destruct (Rcase_abs 360); lra.
Qed.

(** ** Rotations and the ENU transform as isometries *)

(** X1.  Two successive rotations about the same axis are the rotation by
    the sum of the two angles, for [rot1], [rot2] and [rot3]. *)
Theorem rot_angles_add (v : vec3) (a b : R) :
  Rot.rot1 (Rot.rot1 v a) b = Rot.rot1 v (a + b) /\
  Rot.rot2 (Rot.rot2 v a) b = Rot.rot2 v (a + b) /\
  Rot.rot3 (Rot.rot3 v a) b = Rot.rot3 v (a + b).
Proof.
  repeat split; apply vec3_eq; cbn; rewrite ?cos_plus, ?sin_plus; ring.
Qed.

(** X2.  [rot1], [rot2] and [rot3] preserve the Euclidean norm of the vector
    they rotate. *)
Theorem rot_preserves_norm (v : vec3) (a : R) :
  norm (Rot.rot1 v a) = norm v /\
  norm (Rot.rot2 v a) = norm v /\
  norm (Rot.rot3 v a) = norm v.
Proof.
  pose proof (sin_cos_sq a) as H.
  repeat split; unfold norm; f_equal; cbn.
  - transitivity (v.[0] * v.[0]
                  + (v.[1] * v.[1] + v.[2] * v.[2])
                    * (sin a * sin a + cos a * cos a)); [ring |].
    rewrite H; ring.
  - transitivity (v.[1] * v.[1]
                  + (v.[0] * v.[0] + v.[2] * v.[2])
                    * (sin a * sin a + cos a * cos a)); [ring |].
    rewrite H; ring.
  - transitivity (v.[2] * v.[2]
                  + (v.[0] * v.[0] + v.[1] * v.[1])
                    * (sin a * sin a + cos a * cos a)); [ring |].
    rewrite H; ring.
Qed.

(** The ENU transform preserves the dot product. *)
Lemma ecef2enu_dot (a b : vec3) (lat lon : R) :
  Cockpitview.dot_product (Cockpitview.ecef2enu a lat lon)
    (Cockpitview.ecef2enu b lat lon) = Cockpitview.dot_product a b.
Proof.
  pose proof (sin_cos_sq lat) as Hlat; pose proof (sin_cos_sq lon) as Hlon.
  unfold Cockpitview.dot_product; cbn.
  set (cl := cos lat) in *; set (sl := sin lat) in *.
  set (co := cos lon) in *; set (so := sin lon) in *.
  transitivity
    ((a.[0] * b.[0] + a.[1] * b.[1]) * (so * so + co * co)
       * (sl * sl + cl * cl)
     + (a.[0] * b.[0] + a.[1] * b.[1]) * (so * so + co * co)
       * (1 - (sl * sl + cl * cl))
     + (co * a.[0] + so * a.[1]) * (co * b.[0] + so * b.[1])
       * ((sl * sl + cl * cl) - 1)
     + a.[2] * b.[2] * (sl * sl + cl * cl)); [ring |].
  rewrite Hlat, Hlon; ring.
Qed.

(** X3.  [ecef2enu] preserves dot products and magnitudes, at every latitude
    and longitude. *)
Theorem ecef2enu_isometry (a b : vec3) (lat lon : R) :
  Cockpitview.dot_product (Cockpitview.ecef2enu a lat lon)
    (Cockpitview.ecef2enu b lat lon) = Cockpitview.dot_product a b /\
  Cockpitview.magnitude (Cockpitview.ecef2enu a lat lon)
  = Cockpitview.magnitude a.
Proof.
  split; [apply ecef2enu_dot |].
  unfold Cockpitview.magnitude; f_equal.
  rewrite ecef2enu_sum_squares; ring.
Qed.

(** ** Ranges and periodicity of the pointing angles *)

(** [twoecef2razel] in terms of the ENU components of the relative position
    and velocity: the SEZ components are (-north, east, up). *)
Lemma twoecef2razel_enu_form (r1ecef v1ecef r2ecef v2ecef : vec3) (lat lon : R) :
  let pos := Cockpitview.ecef2enu (vsub r2ecef r1ecef) lat lon in
  let vel := Cockpitview.ecef2enu (vsub v2ecef v1ecef) lat lon in
  Cockpitview.twoecef2razel r1ecef v1ecef r2ecef v2ecef lat lon =
  (norm (vsub r2ecef r1ecef),
   (if Rlt_dec (sqrt (pos.[0] ^ 2 + pos.[1] ^ 2)) 1e-8
    then degrees (arctan2 vel.[0] vel.[1])
    else degrees (arctan2 pos.[0] pos.[1])),
   (if Rlt_dec (sqrt (pos.[0] ^ 2 + pos.[1] ^ 2)) 1e-8
    then sign pos.[2] * 90
    else degrees (asin (pos.[2]
                        / sqrt (pos.[0] ^ 2 + pos.[1] ^ 2 + pos.[2] ^ 2))))).
Proof.
  intros pos vel.
  unfold Cockpitview.twoecef2razel; cbv zeta.
  fold (razel_lon lon).
  change (Rot.rot2 (Rot.rot3 (vsub r2ecef r1ecef) (razel_lon lon))
            (PI * 0.5 - lat)) with (razel_sez (vsub r2ecef r1ecef) lat lon).
  change (Rot.rot2 (Rot.rot3 (vsub v2ecef v1ecef) (razel_lon lon))
            (PI * 0.5 - lat)) with (razel_sez (vsub v2ecef v1ecef) lat lon).
  rewrite !razel_sez_enu; fold pos; fold vel; cbn [ix0 ix1 ix2].
  replace (- pos.[1] * - pos.[1] + pos.[0] * pos.[0])
    with (pos.[0] ^ 2 + pos.[1] ^ 2) by ring.
  replace 0.00000001 with 1e-8 by lra.
  replace (- - pos.[1]) with pos.[1] by ring.
  replace (- - vel.[1]) with vel.[1] by ring.
  unfold norm at 2; cbn [ix0 ix1 ix2].
  replace (- pos.[1] * - pos.[1] + pos.[0] * pos.[0] + pos.[2] * pos.[2])
    with (pos.[0] ^ 2 + pos.[1] ^ 2 + pos.[2] ^ 2) by ring.
  destruct (Rlt_dec (sqrt (pos.[0] ^ 2 + pos.[1] ^ 2)) 1e-8);
    rewrite !degrees_alt; repeat f_equal.
  replace (PI * 0.5) with (PI / 2) by lra.
  unfold degrees; field; apply PI_neq0.
Qed.

Lemma ecef2enu_longitude_period (vec : vec3) (lat lon : R) :
  Cockpitview.ecef2enu vec lat (lon + 2 * PI) = Cockpitview.ecef2enu vec lat lon.
Proof.
  apply vec3_eq; cbn;
    rewrite cos_plus, sin_plus, cos_2PI, sin_2PI; ring.
Qed.

(** X4.  [twoecef2razel] returns the same triple at the longitude [lon + 2 *
    PI] as at [lon]: the longitude enters through its sine and cosine only,
    whether or not the wrap of the longitude applies. *)
Theorem twoecef2razel_longitude_period
  (r1ecef v1ecef r2ecef v2ecef : vec3) (lat lon : R) :
  Cockpitview.twoecef2razel r1ecef v1ecef r2ecef v2ecef lat (lon + 2 * PI) =
  Cockpitview.twoecef2razel r1ecef v1ecef r2ecef v2ecef lat lon.
Proof.
  rewrite !twoecef2razel_enu_form; cbv zeta.
  rewrite !ecef2enu_longitude_period; reflexivity.
Qed.

Lemma degrees_bounds (a lo hi : R) :
  lo <= a <= hi -> degrees lo <= degrees a <= degrees hi.
Proof.
  intros [H1 H2]; pose proof PI_RGT_0 as Hpi; unfold degrees.
  assert (0 < / PI) by (apply Rinv_0_lt_compat; lra).
  unfold Rdiv; split; apply Rmult_le_compat_r; lra.
Qed.

Lemma degrees_quarter_bounds (a : R) :
  - (PI / 2) <= a <= PI / 2 -> -90 <= degrees a <= 90.
Proof.
  intros H; apply degrees_bounds in H.
  rewrite degrees_opp, degrees_halfpi in H; lra.
Qed.

Lemma degrees_half_bounds (a : R) :
  - PI < a <= PI -> -180 < degrees a <= 180.
Proof.
  intros [H1 H2]; pose proof PI_RGT_0 as Hpi.
  assert (Hrad : a = degrees a * PI / 180)
    by (unfold degrees; field; apply PI_neq0).
  split.
  - apply Rmult_lt_reg_r with PI; [exact Hpi | lra].
  - apply Rmult_le_reg_r with PI; [exact Hpi | lra].
Qed.

Lemma sign_cases (x : R) : sign x = 1 \/ sign x = -1 \/ sign x = 0.
Proof.
  unfold sign; destruct (Rlt_dec 0 x); [auto |].
  destruct (Rlt_dec x 0); auto.
Qed.

(** X5.  [twoecef2razel] returns a range that is not negative, an azimuth in
    (-180, 180] and an elevation in [-90, 90] degrees, in both of its
    branches. *)
Theorem twoecef2razel_ranges
  (r1ecef v1ecef r2ecef v2ecef : vec3) (lat lon : R) :
  let '(rho, az, eldeg) :=
    Cockpitview.twoecef2razel r1ecef v1ecef r2ecef v2ecef lat lon in
  0 <= rho /\ -180 < az <= 180 /\ -90 <= eldeg <= 90.
Proof.
  rewrite twoecef2razel_enu_form; cbv zeta.
  split; [apply sqrt_pos |].
  split.
  - destruct (Rlt_dec _ 1e-8); apply degrees_half_bounds, arctan2_bound.
  - destruct (Rlt_dec _ 1e-8).
    + destruct (sign_cases (Cockpitview.ecef2enu (vsub r2ecef r1ecef) lat lon).[2])
        as [-> | [-> | ->]]; lra.
    + apply degrees_quarter_bounds.
      pose proof (asin_bound
        ((Cockpitview.ecef2enu (vsub r2ecef r1ecef) lat lon).[2]
         / sqrt ((Cockpitview.ecef2enu (vsub r2ecef r1ecef) lat lon).[0] ^ 2
                 + (Cockpitview.ecef2enu (vsub r2ecef r1ecef) lat lon).[1] ^ 2
                 + (Cockpitview.ecef2enu (vsub r2ecef r1ecef) lat lon).[2] ^ 2)));
        lra.
Qed.

Lemma arctan2_nonneg_x (y x : R) :
  0 <= x -> - (PI / 2) <= arctan2 y x <= PI / 2.
Proof.
  intros Hx; pose proof PI_RGT_0 as Hpi; unfold arctan2.
  destruct (Rlt_dec 0 x).
  - pose proof (atan_bound (y / x)); lra.
  - destruct (Rlt_dec x 0); [lra |].
    destruct (Rlt_dec 0 y); [lra |].
    destruct (Rlt_dec y 0); lra.
Qed.

Lemma arctan2_origin : arctan2 0 0 = 0.
Proof.
  unfold arctan2.
  destruct (Rlt_dec 0 0); [lra | reflexivity].
Qed.

Lemma pymod_tau_range (a : R) : - PI < a <= PI -> 0 <= pymod a tau < 2 * PI.
Proof.
  intros Ha; rewrite pymod_tau by exact Ha.
  destruct (Rlt_dec a 0); lra.
Qed.

(** X6.  [twoecef2aer] returns a slant range that is not negative, an
    azimuth in [0, 360) and an elevation in [-90, 90] degrees. *)
Theorem twoecef2aer_ranges (acecef satecef : vec3) (lat lon : R) :
  let '(slantRange, az, elev) :=
    Cockpitview.twoecef2aer acecef satecef lat lon in
  0 <= slantRange /\ 0 <= az < 360 /\ -90 <= elev <= 90.
Proof.
  unfold Cockpitview.twoecef2aer; cbv zeta.
  split; [apply sqrt_pos |].
  split.
  - match goal with
    | |- context [pymod ?a tau] =>
        pose proof (pymod_tau_range a (arctan2_bound _ _)) as H;
        set (m := pymod a tau) in *
    end.
    pose proof PI_RGT_0 as Hpi.
    assert (Hrad : m = degrees m * PI / 180)
      by (unfold degrees; field; apply PI_neq0).
    split.
    + apply Rmult_le_reg_r with PI; [exact Hpi | lra].
    + apply Rmult_lt_reg_r with PI; [exact Hpi | lra].
  - apply degrees_quarter_bounds, arctan2_nonneg_x, sqrt_pos.
Qed.

Lemma noise_floor_zeroed (c : R) :
  Rabs c < 1e-3 -> (if Rlt_dec (Rabs c) 1e-3 then 0.0 else c) = 0.
Proof.
  intros H; destruct (Rlt_dec (Rabs c) 1e-3); [lra | contradiction].
Qed.

Lemma pymod_zero : pymod 0 tau = 0.
Proof.
  pose proof PI_RGT_0 as Hpi.
  rewrite pymod_tau by lra.
  destruct (Rlt_dec 0 0); lra.
Qed.

(** X7.  When each ENU component of the line of sight is below 1e-3 in
    magnitude, [twoecef2aer] returns 0 for the slant range, the azimuth and
    the elevation. *)
Theorem twoecef2aer_below_noise_floor (acecef satecef : vec3) (lat lon : R) :
  let enu := Cockpitview.twoecef2enu acecef satecef lat lon in
  Rabs enu.[0] < 1e-3 -> Rabs enu.[1] < 1e-3 -> Rabs enu.[2] < 1e-3 ->
  Cockpitview.twoecef2aer acecef satecef lat lon = (0, 0, 0).
Proof.
  intros enu He Hn Hu.
  unfold Cockpitview.twoecef2aer; cbv zeta; fold enu.
  rewrite !noise_floor_zeroed by assumption.
  assert (Hh : hypot 0 0 = 0).
  { unfold hypot; replace (0 * 0 + 0 * 0) with 0 by ring; apply sqrt_0. }
  rewrite !Hh, arctan2_origin, pymod_zero, degrees_0; reflexivity.
Qed.

(** A target half a metre east, 0.7 m south and 0.2 m above the observer:
    none of the three components is zero, all three are zeroed. *)
Lemma twoecef2aer_below_noise_floor_witness :
  Cockpitview.twoecef2enu vzero (Vec3 0.0002 0.0005 (-0.0007)) 0 0
  = Vec3 0.0005 (-0.0007) 0.0002 /\
  Cockpitview.twoecef2aer vzero (Vec3 0.0002 0.0005 (-0.0007)) 0 0 = (0, 0, 0).
Proof.
  assert (Henu :
    Cockpitview.twoecef2enu vzero (Vec3 0.0002 0.0005 (-0.0007)) 0 0
    = Vec3 0.0005 (-0.0007) 0.0002)
    by (rewrite twoecef2enu_is_ecef2enu, ecef2enu_equator;
        apply vec3_eq; cbn [ix0 ix1 ix2 vsub vzero]; lra).
  split; [exact Henu |].
  apply twoecef2aer_below_noise_floor; rewrite Henu; cbn [ix0 ix1 ix2];
    unfold Rabs; destruct (Rcase_abs _); lra.
Defined.

(** [cockpitview] in terms of the ENU components of the line of sight and of
    the heading. *)
Lemma cockpitview_enu_form (r1ecef v1ecef r2ecef : vec3) (lat lon : R) :
  let enu := Cockpitview.twoecef2enu r1ecef r2ecef lat lon in
  let h := Cockpitview.calculate_heading_from_velocity v1ecef lat lon in
  Cockpitview.cockpitview r1ecef v1ecef r2ecef lat lon =
  (sqrt (enu.[0] ^ 2 + enu.[1] ^ 2 + enu.[2] ^ 2),
   degrees (arctan2 (enu.[0] * cos h - enu.[1] * sin h)
                    (enu.[0] * sin h + enu.[1] * cos h)),
   degrees (arctan2 enu.[2] (sqrt (enu.[0] ^ 2 + enu.[1] ^ 2)))).
Proof.
  intros enu h.
  unfold Cockpitview.cockpitview, Cockpitview.magnitude; cbv zeta.
  fold enu; fold h; cbn [ix0 ix1 ix2].
  rewrite cos_neg, sin_neg.
  replace (enu.[0] * cos h + enu.[1] * - sin h)
    with (enu.[0] * cos h - enu.[1] * sin h) by ring.
  replace (- enu.[0] * - sin h + enu.[1] * cos h)
    with (enu.[0] * sin h + enu.[1] * cos h) by ring.
  assert (Hsq : (enu.[0] * cos h - enu.[1] * sin h) ^ 2
                + (enu.[0] * sin h + enu.[1] * cos h) ^ 2
                = enu.[0] ^ 2 + enu.[1] ^ 2).
  { transitivity ((enu.[0] ^ 2 + enu.[1] ^ 2)
                  * (sin h * sin h + cos h * cos h)); [ring |].
    rewrite sin_cos_sq; ring. }
  replace ((enu.[0] * cos h - enu.[1] * sin h) ^ 2
           + (enu.[0] * sin h + enu.[1] * cos h) ^ 2 + 0 ^ 2)
    with (enu.[0] ^ 2 + enu.[1] ^ 2) by (rewrite Hsq; ring).
  rewrite Hsq; reflexivity.
Qed.

(** X8.  [cockpitview] returns a range that is not negative, a look angle in
    (-180, 180] and an elevation in [-90, 90] degrees. *)
Theorem cockpitview_ranges (r1ecef v1ecef r2ecef : vec3) (lat lon : R) :
  let '(rng, lookdeg, eldeg) :=
    Cockpitview.cockpitview r1ecef v1ecef r2ecef lat lon in
  0 <= rng /\ -180 < lookdeg <= 180 /\ -90 <= eldeg <= 90.
Proof.
  rewrite cockpitview_enu_form; cbv zeta.
  split; [apply sqrt_pos |].
  split; [apply degrees_half_bounds, arctan2_bound |].
  apply degrees_quarter_bounds, arctan2_nonneg_x, sqrt_pos.
Qed.

(** ** The look angle against the azimuth and the heading *)

Lemma angle_zero_of_sin_cos (d : R) :
  - (2 * PI) < d < 2 * PI -> sin d = 0 -> cos d = 1 -> d = 0.
Proof.
  intros [Hlo Hhi] Hsin Hcos; pose proof PI_RGT_0 as Hpi.
  destruct (sin_eq_0_0 d Hsin) as [k Hk].
  assert (Hk1 : (-2 < k < 2)%Z).
  { split; apply lt_IZR.
    - apply Rmult_lt_reg_r with PI; [exact Hpi | lra].
    - apply Rmult_lt_reg_r with PI; [exact Hpi | lra]. }
  assert (Hcases : k = (-1)%Z \/ k = 0%Z \/ k = 1%Z) by lia.
  destruct Hcases as [-> | [-> | ->]].
  - replace d with (- PI) in Hcos by lra.
    rewrite cos_neg, cos_PI in Hcos; lra.
  - lra.
  - replace d with PI in Hcos by lra.
    rewrite cos_PI in Hcos; lra.
Qed.

(** The polar angle is recovered by [arctan2]. *)
Lemma arctan2_of_polar (rho t : R) :
  0 < rho -> - PI < t <= PI ->
  arctan2 (rho * sin t) (rho * cos t) = t.
Proof.
  intros Hrho Ht.
  pose proof (sin_cos_sq t) as Hunit.
  assert (Hne : rho * cos t <> 0 \/ rho * sin t <> 0).
  { destruct (Req_dec (cos t) 0) as [Hc | Hc].
    - right; intros H; apply Rmult_integral in H; destruct H as [H | H];
        [lra |]. rewrite H, Hc in Hunit; lra.
    - left; intros H; apply Rmult_integral in H; destruct H; lra. }
  destruct (arctan2_polar (rho * sin t) (rho * cos t) Hne) as [Hx Hy].
  assert (Hr : sqrt (rho * cos t * (rho * cos t) + rho * sin t * (rho * sin t))
               = rho).
  { apply sqrt_lem_1; [nra | lra |].
    transitivity (rho * rho * (sin t * sin t + cos t * cos t)); [| ring].
    rewrite Hunit; ring. }
  rewrite Hr in Hx, Hy.
  set (th := arctan2 (rho * sin t) (rho * cos t)) in *.
  assert (Hcos : cos th = cos t) by (apply Rmult_eq_reg_l with rho; lra).
  assert (Hsin : sin th = sin t) by (apply Rmult_eq_reg_l with rho; lra).
  pose proof (arctan2_bound (rho * sin t) (rho * cos t)) as Hb; fold th in Hb.
  assert (Hd : th - t = 0).
  { apply angle_zero_of_sin_cos; [lra | |].
    - rewrite sin_minus, Hsin, Hcos; ring.
    - rewrite cos_minus, Hsin, Hcos.
      rewrite <- Hunit; ring. }
  lra.
Qed.

(** The angle of a direction turned back by [h]. *)
Lemma arctan2_rotated (e n h : R) :
  e <> 0 \/ n <> 0 ->
  let d := arctan2 e n - h in
  - (2 * PI) < d < 2 * PI ->
  arctan2 (e * cos h - n * sin h) (e * sin h + n * cos h) =
  if Rlt_dec PI d then d - 2 * PI
  else if Rle_dec d (- PI) then d + 2 * PI
  else d.
Proof.
  intros Hne d Hd; pose proof PI_RGT_0 as Hpi.
  assert (Hne' : n <> 0 \/ e <> 0) by tauto.
  destruct (arctan2_polar e n Hne') as [Hn He].
  pose proof (sqrt_lt_R0 _ (sum_squares_pos _ _ Hne')) as Hrho.
  set (rho := sqrt (n * n + e * e)) in *.
  set (a := arctan2 e n) in *.
  assert (He' : e * cos h - n * sin h = rho * sin d).
  { unfold d; rewrite sin_minus.
    rewrite He at 1; rewrite Hn at 1; ring. }
  assert (Hn' : e * sin h + n * cos h = rho * cos d).
  { unfold d; rewrite cos_minus.
    rewrite He at 1; rewrite Hn at 1; ring. }
  rewrite He', Hn'.
  destruct (Rlt_dec PI d) as [Hbig | Hnbig].
  - replace (sin d) with (sin (d - 2 * PI))
      by (rewrite sin_minus, cos_2PI, sin_2PI; ring).
    replace (cos d) with (cos (d - 2 * PI))
      by (rewrite cos_minus, cos_2PI, sin_2PI; ring).
    apply arctan2_of_polar; lra.
  - destruct (Rle_dec d (- PI)) as [Hsmall | Hnsmall].
    + replace (sin d) with (sin (d + 2 * PI))
        by (rewrite sin_plus, cos_2PI, sin_2PI; ring).
      replace (cos d) with (cos (d + 2 * PI))
        by (rewrite cos_plus, cos_2PI, sin_2PI; ring).
      apply arctan2_of_polar; lra.
    + apply arctan2_of_polar; lra.
Qed.

(** X9.  When the target is not on the vertical of the observer, the look
    angle of [cockpitview] is the ENU azimuth of the target less the
    heading, in degrees, brought back into (-180, 180] by at most one full
    turn. *)
Theorem cockpitview_look_is_relative_azimuth
  (r1ecef v1ecef r2ecef : vec3) (lat lon : R) :
  let enu := Cockpitview.twoecef2enu r1ecef r2ecef lat lon in
  let azdeg := degrees (arctan2 enu.[0] enu.[1]) in
  let headingdeg :=
    degrees (Cockpitview.calculate_heading_from_velocity v1ecef lat lon) in
  enu.[0] <> 0 \/ enu.[1] <> 0 ->
  snd (fst (Cockpitview.cockpitview r1ecef v1ecef r2ecef lat lon)) =
  if Rlt_dec 180 (azdeg - headingdeg) then azdeg - headingdeg - 360
  else if Rle_dec (azdeg - headingdeg) (-180) then azdeg - headingdeg + 360
  else azdeg - headingdeg.
Proof.
  intros enu azdeg headingdeg Hne.
  rewrite cockpitview_enu_form; cbv zeta; cbn [fst snd]; fold enu.
  set (h := Cockpitview.calculate_heading_from_velocity v1ecef lat lon) in *.
  pose proof PI_RGT_0 as Hpi.
  pose proof (arctan2_bound enu.[0] enu.[1]) as Ha.
  assert (Hh : - PI < h <= PI) by apply arctan2_bound.
  rewrite arctan2_rotated by (try assumption; cbv zeta; lra).
  assert (Hdeg : azdeg - headingdeg = degrees (arctan2 enu.[0] enu.[1] - h))
    by (unfold azdeg, headingdeg, degrees; field; apply PI_neq0).
  rewrite Hdeg.
  set (d := arctan2 enu.[0] enu.[1] - h) in *.
  assert (Hrad : d = degrees d * PI / 180)
    by (unfold degrees; field; apply PI_neq0).
  assert (H180 : PI = 180 * PI / 180) by (field).
  destruct (Rlt_dec PI d) as [H1 | H1];
    destruct (Rlt_dec 180 (degrees d)) as [H2 | H2].
  - unfold degrees; field; apply PI_neq0.
  - exfalso; apply H2; apply Rmult_lt_reg_r with PI; [exact Hpi | lra].
  - exfalso; apply H1.
    assert (180 * PI < degrees d * PI) by (apply Rmult_lt_compat_r; lra).
    lra.
  - destruct (Rle_dec d (- PI)) as [H3 | H3];
      destruct (Rle_dec (degrees d) (-180)) as [H4 | H4].
    + unfold degrees; field; apply PI_neq0.
    + exfalso; apply H4; apply Rmult_le_reg_r with PI; [exact Hpi | lra].
    + exfalso; apply H3.
      assert (degrees d * PI <= -180 * PI)
        by (apply Rmult_le_compat_r; lra).
      lra.
    + reflexivity.
Qed.

Lemma cockpitview_look_is_relative_azimuth_witness :
  snd (fst (Cockpitview.cockpitview vzero (Vec3 0 1 0) (Vec3 0 0 5) 0 0)) = -90.
Proof.
  pose proof (cockpitview_look_is_relative_azimuth vzero (Vec3 0 1 0)
                (Vec3 0 0 5) 0 0) as H.
  cbv zeta in H.
  rewrite heading_is_arctan2_enu in H.
  rewrite twoecef2enu_is_ecef2enu, !ecef2enu_equator in H.
  cbn [ix0 ix1 ix2 vsub vzero] in H.
  rewrite H by (right; lra).
  replace (0 - 0) with 0 by ring.
  rewrite arctan2_north, arctan2_east, degrees_0, degrees_halfpi by lra.
  destruct (Rlt_dec 180 (0 - 90)); [lra |].
  destruct (Rle_dec (0 - 90) (-180)); lra.
Defined.

(** A positive common factor of both arguments leaves [arctan2] unchanged. *)
Lemma arctan2_scale (k y x : R) :
  0 < k -> arctan2 (k * y) (k * x) = arctan2 y x.
Proof.
  intros Hk; unfold arctan2.
  assert (Hdiv : x <> 0 -> k * y / (k * x) = y / x) by (intros; field; lra).
  destruct (Rlt_dec 0 x) as [Hx | Hx].
  - destruct (Rlt_dec 0 (k * x)); [| nra]. rewrite Hdiv by lra; reflexivity.
  - destruct (Rlt_dec 0 (k * x)); [nra |].
    destruct (Rlt_dec x 0) as [Hx' | Hx'].
    + destruct (Rlt_dec (k * x) 0); [| nra].
      rewrite Hdiv by lra.
      destruct (Rle_dec 0 y); destruct (Rle_dec 0 (k * y)); try reflexivity; nra.
    + destruct (Rlt_dec (k * x) 0); [nra |].
      destruct (Rlt_dec 0 y); destruct (Rlt_dec 0 (k * y)); try nra;
        try reflexivity.
      destruct (Rlt_dec y 0); destruct (Rlt_dec (k * y) 0); try nra;
        reflexivity.
Qed.

(** X10.  [calculate_heading_from_velocity] depends on the direction of the
    velocity only: scaling the velocity by a positive factor leaves the
    heading unchanged. *)
Theorem heading_ignores_speed (k : R) (vecef : vec3) (lat lon : R) :
  0 < k ->
  Cockpitview.calculate_heading_from_velocity (vscale k vecef) lat lon =
  Cockpitview.calculate_heading_from_velocity vecef lat lon.
Proof.
  intros Hk; unfold Cockpitview.calculate_heading_from_velocity; cbv zeta.
  cbn [vscale ix0 ix1 ix2].
  rewrite <- (arctan2_scale k
                (- sin lon * vecef.[0] + cos lon * vecef.[1])
                (- sin lat * (cos lon * vecef.[0] + sin lon * vecef.[1])
                 + cos lat * vecef.[2]) Hk).
  f_equal; ring.
Qed.

Lemma heading_ignores_speed_witness :
  Cockpitview.calculate_heading_from_velocity (vscale 2 (Vec3 0 1 1)) 0 0 =
  Cockpitview.calculate_heading_from_velocity (Vec3 0 1 1) 0 0.
Proof. apply heading_ignores_speed; lra. Defined.

(** ** Vector helpers of relative.py *)

Section VectorHelpers.

Import Relative.

(** A matrix with orthonormal rows [n], [t] and [t x n] preserves the dot
    product. *)
Lemma orthonormal_rows_dot (n t x y : vec3) :
  n.[0] ^ 2 + n.[1] ^ 2 + n.[2] ^ 2 = 1 ->
  t.[0] ^ 2 + t.[1] ^ 2 + t.[2] ^ 2 = 1 ->
  dot_product t n = 0 ->
  dot_product (transform_vector (Mat3 n t (cross_product t n)) x)
              (transform_vector (Mat3 n t (cross_product t n)) y)
  = dot_product x y.
Proof.
  intros Hn Ht Hnt.
  assert (Hgram :
    dot_product (cross_product t n) x * dot_product (cross_product t n) y =
    (t.[0] ^ 2 + t.[1] ^ 2 + t.[2] ^ 2)
      * ((n.[0] ^ 2 + n.[1] ^ 2 + n.[2] ^ 2) * dot_product x y
         - dot_product n y * dot_product n x)
    - dot_product t n
      * (dot_product t n * dot_product x y - dot_product n y * dot_product t x)
    + dot_product t y
      * (dot_product t n * dot_product n x
         - (n.[0] ^ 2 + n.[1] ^ 2 + n.[2] ^ 2) * dot_product t x))
    by (unfold dot_product; cbn; ring).
  unfold transform_vector; cbn [row0 row1 row2].
  unfold dot_product at 1; cbn [ix0 ix1 ix2].
  rewrite Hgram, Hn, Ht, Hnt; ring.
Qed.

(** X11.  When [r x v] is not zero, [transform_vector] with the matrix of
    [ecef_to_ntw_matrix r v] preserves dot products and magnitudes. *)
Theorem ntw_transform_isometry (r v x y : vec3) :
  cross_product r v <> vzero ->
  exists m : mat3,
    ecef_to_ntw_matrix r v = Ok m /\
    dot_product (transform_vector m x) (transform_vector m y) = dot_product x y /\
    magnitude (transform_vector m x) = magnitude x.
Proof.
  intros Hc.
  destruct (ecef_to_ntw_matrix_ok r v Hc) as (_ & _ & Hmat).
  destruct (ntw_rows_orthonormal r v Hc) as ((Hn & Ht & _) & (Hnt & _ & _)).
  assert (Htn : dot_product (normalized v) (normalized (cross_product r v)) = 0)
    by (etransitivity; [| exact Hnt]; unfold dot_product; ring).
  eexists; split; [exact Hmat |]; split.
  - apply orthonormal_rows_dot; assumption.
  - unfold magnitude; f_equal.
    apply orthonormal_rows_sum_squares; assumption.
Qed.

Lemma ntw_transform_isometry_witness :
  exists m : mat3,
    ecef_to_ntw_matrix (Vec3 1 0 0) (Vec3 0 1 0) = Ok m /\
    dot_product (transform_vector m (Vec3 1 2 3)) (transform_vector m (Vec3 4 5 6))
    = dot_product (Vec3 1 2 3) (Vec3 4 5 6) /\
    magnitude (transform_vector m (Vec3 1 2 3)) = magnitude (Vec3 1 2 3).
Proof.
  apply ntw_transform_isometry.
  intros H; apply (f_equal ix2) in H; cbn in H; lra.
Defined.

Lemma magnitude_pos (v : vec3) : v <> vzero -> 0 < magnitude v.
Proof.
  intros H; pose proof (magnitude_nonneg v) as Hge.
  destruct (Req_dec (magnitude v) 0) as [H0 | H0]; [| lra].
  apply magnitude_zero_iff in H0; contradiction.
Qed.

Lemma clamped_acos_degrees_range (c : R) :
  0 <= 180 * acos (Rmax (-1) (Rmin 1 c)) / PI <= 180.
Proof.
  pose proof PI_RGT_0 as Hpi.
  pose proof (acos_bound (Rmax (-1) (Rmin 1 c))) as [H1 H2].
  set (a := acos _) in *.
  assert (Hrad : a = (180 * a / PI) * PI / 180) by (field; lra).
  split.
  - apply Rmult_le_reg_r with PI; [exact Hpi | lra].
  - apply Rmult_le_reg_r with PI; [exact Hpi | lra].
Qed.

(** X12.  For two non-zero vectors [angle_between_vectors] returns an angle
    between 0 and 180 degrees, the same for both orders of the arguments;
    when either vector is zero it raises ZeroDivisionError. *)
Theorem angle_between_vectors_defined (A B : vec3) :
  (A <> vzero -> B <> vzero ->
   exists theta,
     angle_between_vectors A B = Ok theta /\
     angle_between_vectors B A = Ok theta /\
     0 <= theta <= 180) /\
  (A = vzero \/ B = vzero -> angle_between_vectors A B = ZeroDivisionError).
Proof.
  split.
  - intros HA HB.
    pose proof (magnitude_pos A HA) as HmA; pose proof (magnitude_pos B HB) as HmB.
    rewrite !angle_between_vectors_ok by nra.
    eexists; split; [reflexivity |]; split.
    + do 4 f_equal. replace (dot_product B A) with (dot_product A B)
        by (unfold dot_product; ring).
      replace (magnitude B * magnitude A) with (magnitude A * magnitude B) by ring.
      reflexivity.
    + apply clamped_acos_degrees_range.
  - intros H; unfold angle_between_vectors.
    assert (Hz : magnitude A * magnitude B = 0).
    { destruct H as [-> | ->];
        rewrite (proj2 (magnitude_zero_iff vzero) eq_refl); ring. }
    rewrite Hz, pydiv_zero; reflexivity.
Qed.

Lemma angle_between_vectors_defined_witness :
  exists theta,
    angle_between_vectors (Vec3 1 0 0) (Vec3 0 1 0) = Ok theta /\
    angle_between_vectors (Vec3 0 1 0) (Vec3 1 0 0) = Ok theta /\
    0 <= theta <= 180.
Proof.
  apply (proj1 (angle_between_vectors_defined (Vec3 1 0 0) (Vec3 0 1 0))).
  - intros H; apply (f_equal ix0) in H; cbn in H; lra.
  - intros H; apply (f_equal ix1) in H; cbn in H; lra.
Defined.

(** X13.  When the [r x v] of the satellite and the positions of the sun and
    of the aircraft are not zero, [calculate_sun_grazing_angle] returns half
    the supplement of the angle between the ECEF positions of the sun and of
    the aircraft, a value in [0, 90]: the change to the NTW basis of the
    satellite leaves the angle unchanged. *)
Theorem sun_grazing_angle_is_geocentric
  (r_ac_ecef v_ac_ecef r_sun_ecef v_sun_ecef r_satellite v_satellite : vec3) :
  cross_product r_satellite v_satellite <> vzero ->
  r_sun_ecef <> vzero ->
  r_ac_ecef <> vzero ->
  exists theta,
    angle_between_vectors r_sun_ecef r_ac_ecef = Ok theta /\
    calculate_sun_grazing_angle r_ac_ecef v_ac_ecef r_sun_ecef v_sun_ecef
      r_satellite v_satellite = Ok ((180 - theta) / 2) /\
    0 <= (180 - theta) / 2 <= 90.
Proof.
  intros Hc Hsun Hac.
  pose proof (magnitude_pos _ Hsun) as Hms; pose proof (magnitude_pos _ Hac) as Hma.
  destruct (ecef_to_ntw_matrix_ok r_satellite v_satellite Hc) as (_ & _ & Hmat).
  destruct (ntw_rows_orthonormal r_satellite v_satellite Hc)
    as ((Hn & Ht & _) & (Hnt & _ & _)).
  assert (Htn : dot_product (normalized v_satellite)
                  (normalized (cross_product r_satellite v_satellite)) = 0)
    by (etransitivity; [| exact Hnt]; unfold dot_product; ring).
  rewrite angle_between_vectors_ok by nra.
  eexists; split; [reflexivity |]; split.
  - unfold calculate_sun_grazing_angle; rewrite Hmat; cbn [bind].
    assert (Hmag : forall x,
      magnitude (transform_vector
        (Mat3 (normalized (cross_product r_satellite v_satellite))
              (normalized v_satellite)
              (cross_product (normalized v_satellite)
                 (normalized (cross_product r_satellite v_satellite)))) x)
      = magnitude x).
    { intros x; unfold magnitude; f_equal.
      apply orthonormal_rows_sum_squares; assumption. }
    rewrite angle_between_vectors_ok by (rewrite !Hmag; nra).
    cbn [bind]; rewrite !Hmag, orthonormal_rows_dot by assumption.
    reflexivity.
  - pose proof (clamped_acos_degrees_range
                  (dot_product r_sun_ecef r_ac_ecef
                   / (magnitude r_sun_ecef * magnitude r_ac_ecef))); lra.
Qed.

Lemma sun_grazing_angle_is_geocentric_witness :
  exists theta,
    angle_between_vectors (Vec3 0 0 2) (Vec3 3 0 0) = Ok theta /\
    calculate_sun_grazing_angle (Vec3 3 0 0) vzero (Vec3 0 0 2) vzero
      (Vec3 1 0 0) (Vec3 0 1 0) = Ok ((180 - theta) / 2) /\
    0 <= (180 - theta) / 2 <= 90.
Proof.
  apply sun_grazing_angle_is_geocentric.
  - intros H; apply (f_equal ix2) in H; cbn in H; lra.
  - intros H; apply (f_equal ix2) in H; cbn in H; lra.
  - intros H; apply (f_equal ix0) in H; cbn in H; lra.
Defined.

(** X14.  [normalize] of a non-zero vector returns a vector of magnitude 1
    of which the vector is the multiple by its magnitude, and [normalize]
    returns that unit vector unchanged; [normalize] of the zero vector
    raises ZeroDivisionError. *)
Theorem normalize_unit_idempotent (v : vec3) :
  (v <> vzero ->
   exists n,
     normalize v = Ok n /\ magnitude n = 1 /\
     v = vscale (magnitude v) n /\ normalize n = Ok n) /\
  (v = vzero -> normalize v = ZeroDivisionError).
Proof.
  split.
  - intros Hv; pose proof (magnitude_pos v Hv) as Hm.
    assert (Hm' : magnitude v <> 0) by lra.
    exists (normalized v); split; [apply normalize_ok; exact Hm' |].
    assert (Hunit : magnitude (normalized v) = 1)
      by (apply magnitude_of_unit_sum, normalized_unit; exact Hm').
    split; [exact Hunit |]; split.
    + apply vec3_eq; cbn; field; exact Hm'.
    + rewrite normalize_ok by lra.
      f_equal; unfold normalized at 1; rewrite Hunit.
      apply vec3_eq; cbn [ix0 ix1 ix2]; field.
  - intros ->; apply normalize_zero_magnitude.
    apply magnitude_zero_iff; reflexivity.
Qed.

Lemma normalize_unit_idempotent_witness :
  exists n,
    normalize (Vec3 3 0 4) = Ok n /\ magnitude n = 1 /\
    Vec3 3 0 4 = vscale (magnitude (Vec3 3 0 4)) n /\ normalize n = Ok n.
Proof.
  apply (proj1 (normalize_unit_idempotent (Vec3 3 0 4))).
  intros H; apply (f_equal ix0) in H; cbn in H; lra.
Defined.

(** X15.  For [B] not zero, [parallel_component A B] is the orthogonal
    projection of [A] on [B]: the multiple of [B] by [(A . B) / (B . B)],
    with [A] less the result perpendicular to [B], and a second projection
    changes nothing; for [B] zero it raises ZeroDivisionError. *)
Theorem parallel_component_projection (A B : vec3) :
  (B <> vzero ->
   exists C,
     parallel_component A B = Ok C /\
     C = vscale (dot_product A B / dot_product B B) B /\
     dot_product (vsub A C) B = 0 /\
     parallel_component C B = Ok C) /\
  (B = vzero -> parallel_component A B = ZeroDivisionError).
Proof.
  split.
  - intros HB; pose proof (magnitude_pos B HB) as Hm.
    assert (Hbb : magnitude B * magnitude B = dot_product B B)
      by (rewrite magnitude_sq; unfold dot_product; ring).
    assert (Hbb0 : dot_product B B <> 0) by (rewrite <- Hbb; nra).
    assert (Hpar : forall V,
      parallel_component V B = Ok (vscale (dot_product V B / dot_product B B) B)).
    { intros V; unfold parallel_component.
      rewrite pydiv_ok by nra; cbn [bind]; rewrite Hbb; reflexivity. }
    eexists; split; [apply Hpar |]; split; [reflexivity |]; split.
    + unfold dot_product in *; cbn [vsub vscale ix0 ix1 ix2]; field; exact Hbb0.
    + rewrite Hpar.
      set (k := dot_product A B / dot_product B B).
      assert (Hk : dot_product (vscale k B) B / dot_product B B = k)
        by (clearbody k; unfold dot_product in *; cbn [vscale ix0 ix1 ix2];
            field; exact Hbb0).
      rewrite Hk; reflexivity.
  - intros ->; unfold parallel_component.
    rewrite (proj2 (magnitude_zero_iff vzero) eq_refl), Rmult_0_l, pydiv_zero.
    reflexivity.
Qed.

Lemma parallel_component_projection_witness :
  exists C,
    parallel_component (Vec3 1 2 3) (Vec3 0 0 2) = Ok C /\
    C = vscale (dot_product (Vec3 1 2 3) (Vec3 0 0 2)
                / dot_product (Vec3 0 0 2) (Vec3 0 0 2)) (Vec3 0 0 2) /\
    dot_product (vsub (Vec3 1 2 3) C) (Vec3 0 0 2) = 0 /\
    parallel_component C (Vec3 0 0 2) = Ok C.
Proof.
  apply (proj1 (parallel_component_projection (Vec3 1 2 3) (Vec3 0 0 2))).
  intros H; apply (f_equal ix2) in H; cbn in H; lra.
Defined.

Lemma deg_to_rad_degrees (a : R) : deg_to_rad (degrees a) = a.
Proof.
  unfold deg_to_rad, degrees; replace 180.0 with 180 by lra.
  field; apply PI_neq0.
Qed.

Lemma sqrt_sum_squares_zero (x y z : R) :
  sqrt (x ^ 2 + y ^ 2 + z ^ 2) = 0 -> x = 0 /\ y = 0 /\ z = 0.
Proof.
  intros H; apply sqrt_eq_0 in H; [| nra]. repeat split; nra.
Qed.

(** X16.  [cartesian_to_spherical] returns [rho] not negative, [theta] in
    (-180, 180] and [phi] in [-90, 90] degrees, and the vector is recovered
    from them: x = rho cos(phi) sin(theta), y = rho cos(phi) cos(theta), z =
    rho sin(phi), the angles converted by [deg_to_rad]. *)
Theorem cartesian_to_spherical_round_trip (cartesian : vec3) :
  let '(rho, theta, phi) := cartesian_to_spherical cartesian in
  (0 <= rho /\ -180 < theta <= 180 /\ -90 <= phi <= 90) /\
  cartesian.[0] = rho * cos (deg_to_rad phi) * sin (deg_to_rad theta) /\
  cartesian.[1] = rho * cos (deg_to_rad phi) * cos (deg_to_rad theta) /\
  cartesian.[2] = rho * sin (deg_to_rad phi).
Proof.
  unfold cartesian_to_spherical; cbv zeta.
  set (x := cartesian.[0]); set (y := cartesian.[1]); set (z := cartesian.[2]).
  set (rho := sqrt (x ^ 2 + y ^ 2 + z ^ 2)).
  rewrite !deg_to_rad_degrees.
  split.
  { split; [apply sqrt_pos |]; split.
    - apply degrees_half_bounds, arctan2_bound.
    - apply degrees_quarter_bounds.
      destruct (Req_EM_T rho 0); [pose proof PI_RGT_0; lra |].
      pose proof (asin_bound (z / rho)); lra. }
  destruct (Req_EM_T rho 0) as [H0 | Hne].
  - destruct (sqrt_sum_squares_zero x y z H0) as (-> & -> & ->).
    rewrite H0; repeat split; ring.
  - assert (Hrho : 0 < rho)
      by (assert (0 <= rho) by apply sqrt_pos; lra).
    assert (Hsq : rho * rho = x ^ 2 + y ^ 2 + z ^ 2)
      by (apply sqrt_sqrt; nra).
    assert (Hz : -1 <= z / rho <= 1).
    { assert ((z / rho) * (z / rho) <= 1).
      { replace (z / rho * (z / rho)) with (z ^ 2 / (rho * rho)) by (field; lra).
        apply Rmult_le_reg_r with (rho * rho); [nra |].
        replace (z ^ 2 / (rho * rho) * (rho * rho)) with (z ^ 2) by (field; lra).
        nra. }
      split; nra. }
    rewrite sin_asin, cos_asin by exact Hz.
    assert (Hcos : rho * sqrt (1 - (z / rho)²) = sqrt (y * y + x * x)).
    { symmetry; apply sqrt_lem_1; [nra | |].
      - apply Rmult_le_pos; [lra | apply sqrt_pos].
      - transitivity (rho * rho * (sqrt (1 - (z / rho)²) * sqrt (1 - (z / rho)²)));
          [ring |].
        rewrite sqrt_sqrt by (unfold Rsqr; nra).
        replace (rho * rho * (1 - (z / rho)²)) with (rho * rho - z ^ 2)
          by (unfold Rsqr; field; lra).
        rewrite Hsq; ring. }
    rewrite Hcos.
    split; [| split; [| field; lra]].
    + destruct (Req_dec x 0) as [Hx | Hx]; destruct (Req_dec y 0) as [Hy | Hy].
      * subst x y. rewrite Hx, Hy.
        replace (0 * 0 + 0 * 0) with 0 by ring; rewrite sqrt_0; ring.
      * apply (arctan2_polar x y); left; exact Hy.
      * apply (arctan2_polar x y); right; exact Hx.
      * apply (arctan2_polar x y); left; exact Hy.
    + destruct (Req_dec x 0) as [Hx | Hx]; destruct (Req_dec y 0) as [Hy | Hy].
      * subst x y. rewrite Hx, Hy.
        replace (0 * 0 + 0 * 0) with 0 by ring; rewrite sqrt_0; ring.
      * apply (arctan2_polar x y); left; exact Hy.
      * apply (arctan2_polar x y); right; exact Hx.
      * apply (arctan2_polar x y); left; exact Hy.
Qed.

(** The elevation of [cartesian_to_spherical] is the one of the two-argument
    arctangent of height over ground range. *)
Lemma asin_elevation (e n u : R) :
  (if Req_EM_T (sqrt (e ^ 2 + n ^ 2 + u ^ 2)) 0 then 0
   else asin (u / sqrt (e ^ 2 + n ^ 2 + u ^ 2)))
  = arctan2 u (sqrt (e ^ 2 + n ^ 2)).
Proof.
  pose proof PI_RGT_0 as Hpi.
  destruct (Req_EM_T (sqrt (e ^ 2 + n ^ 2 + u ^ 2)) 0) as [H0 | Hne].
  - destruct (sqrt_sum_squares_zero e n u H0) as (-> & -> & ->).
    replace (0 ^ 2 + 0 ^ 2) with 0 by ring.
    rewrite sqrt_0, arctan2_origin; reflexivity.
  - assert (Hh : 0 <= sqrt (e ^ 2 + n ^ 2)) by apply sqrt_pos.
    destruct (Req_dec (sqrt (e ^ 2 + n ^ 2)) 0) as [Hflat | Hflat].
    + apply sqrt_eq_0 in Hflat; [| nra].
      assert (He : e = 0) by nra; assert (Hn : n = 0) by nra; subst e n.
      replace (0 ^ 2 + 0 ^ 2 + u ^ 2) with (u ^ 2) in * by ring.
      replace (0 ^ 2 + 0 ^ 2) with 0 by ring; rewrite sqrt_0.
      destruct (Rlt_dec 0 u) as [Hu | Hu].
      * rewrite sqrt_pow2 by lra.
        replace (u / u) with 1 by (field; lra).
        rewrite asin_1, arctan2_east by lra; reflexivity.
      * assert (Hu' : u < 0).
        { destruct (Req_dec u 0) as [-> | Hu0]; [| lra].
          exfalso; apply Hne. replace (0 ^ 2) with 0 by ring; apply sqrt_0. }
        replace (u ^ 2) with ((- u) ^ 2) by ring.
        rewrite sqrt_pow2 by lra.
        replace (u / - u) with (- (1)) by (field; lra).
        rewrite asin_opp, asin_1, arctan2_west by lra; reflexivity.
    + assert (Hpos : 0 < sqrt (e ^ 2 + n ^ 2)) by lra.
      rewrite arctan2_pos_x by exact Hpos.
      rewrite <- asin_height_over_range by exact Hpos.
      rewrite sqrt_sqrt by nra.
      replace (e ^ 2 + n ^ 2 + u * u) with (e ^ 2 + n ^ 2 + u ^ 2) by ring.
      reflexivity.
Qed.

(** X17.  When all twelve values are present [calculate_relative_values]
    returns; the ENU range and the spherical [rho] equal the ECEF range, the
    ENU speed equals the ECEF speed, and [rho] and the elevation [phi] are
    the range and the elevation [cockpitview] returns for the same states. *)
Theorem relative_values_agree_with_cockpitview
  (r_ac v_ac r_sat v_sat : vec3) (lat lon : R) :
  exists rv,
    calculate_relative_values (state_data_of r_ac v_ac)
      (state_data_of r_sat v_sat) lat lon = Ok rv /\
    (range_mag_enu rv = range_magnitude rv /\
     sat_enu_rho rv = range_magnitude rv /\
     velocity_mag_enu rv = velocity_magnitude rv) /\
    (let '(rng, lookdeg, eldeg) :=
       Cockpitview.cockpitview r_ac v_ac r_sat lat lon in
     sat_enu_rho rv = rng /\ sat_enu_phi rv = eldeg).
Proof.
  unfold calculate_relative_values, state_data_of; cbn [X Y Z VX VY VZ].
  cbn [osub floats pysub bind o0 o1 o2].
  eexists; split; [reflexivity |].
  cbn [range_mag_enu range_magnitude sat_enu_rho sat_enu_phi velocity_mag_enu
       velocity_magnitude fst snd].
  rewrite cockpitview_enu_form; cbv zeta.
  replace (Vec3 r_ac.[0] r_ac.[1] r_ac.[2]) with r_ac
    by (destruct r_ac; reflexivity).
  replace (Vec3 r_sat.[0] r_sat.[1] r_sat.[2]) with r_sat
    by (destruct r_sat; reflexivity).
  replace (Vec3 v_ac.[0] v_ac.[1] v_ac.[2]) with v_ac
    by (destruct v_ac; reflexivity).
  replace (Vec3 v_sat.[0] v_sat.[1] v_sat.[2]) with v_sat
    by (destruct v_sat; reflexivity).
  split; [| split; [reflexivity |]].
  - rewrite !twoecef2enu_is_ecef2enu.
    repeat split; unfold magnitude; f_equal;
      rewrite ecef2enu_sum_squares; cbn [vsub ix0 ix1 ix2]; ring.
  - f_equal; apply asin_elevation.
Qed.

(** X18.  When any of the six values of the aircraft or of the satellite is
    [None], [calculate_relative_values] raises TypeError. *)
Theorem calculate_relative_values_missing_value
  (aircraft_data satellite_data : state_data) (lat lon : R) :
  X aircraft_data = None \/ Y aircraft_data = None \/ Z aircraft_data = None \/
  VX aircraft_data = None \/ VY aircraft_data = None \/
  VZ aircraft_data = None \/
  X satellite_data = None \/ Y satellite_data = None \/
  Z satellite_data = None \/ VX satellite_data = None \/
  VY satellite_data = None \/ VZ satellite_data = None ->
  calculate_relative_values aircraft_data satellite_data lat lon = TypeError.
Proof.
  destruct aircraft_data as [ax ay az avx avy avz].
  destruct satellite_data as [sx sy sz svx svy svz]; cbn [X Y Z VX VY VZ].
  intros H.
  unfold calculate_relative_values; cbn [X Y Z VX VY VZ].
  destruct ax, ay, az, sx, sy, sz;
    cbn [osub floats pysub bind o0 o1 o2]; try reflexivity.
  destruct (cartesian_to_spherical _) as [[rho theta] phi].
  destruct avx, avy, avz, svx, svy, svz;
    cbn [osub floats pysub bind o0 o1 o2]; try reflexivity.
  exfalso; repeat (destruct H as [H | H]; [discriminate H |]); discriminate H.
Qed.

Lemma calculate_relative_values_missing_value_witness :
  calculate_relative_values
    {| X := Some 1; Y := Some 2; Z := Some 3;
       VX := None; VY := Some 0; VZ := Some 0 |}
    (state_data_of (Vec3 4 5 6) vzero) 0 0 = TypeError.
Proof.
  apply calculate_relative_values_missing_value; cbn [VX].
  right; right; right; left; reflexivity.
Defined.

Lemma distance_as_magnitude (a b : vec3) : distance a b = magnitude (vsub b a).
Proof. reflexivity. Qed.

(** The Cauchy-Schwarz inequality, from the identity of Lagrange. *)
Lemma cauchy_schwarz (x y : vec3) :
  dot_product x y <= magnitude x * magnitude y.
Proof.
  pose proof (cross_product_sum_squares x y) as HL; cbv zeta in HL.
  pose proof (sum_squares_nonneg (cross_product x y)) as Hc.
  pose proof (magnitude_sq x) as Hx; pose proof (magnitude_sq y) as Hy.
  pose proof (magnitude_nonneg x); pose proof (magnitude_nonneg y).
  assert (Hsq : dot_product x y ^ 2 <= (magnitude x * magnitude y) ^ 2).
  { replace ((magnitude x * magnitude y) ^ 2)
      with ((magnitude x * magnitude x) * (magnitude y * magnitude y)) by ring.
    rewrite Hx, Hy; lra. }
  apply Rsqr_incr_0_var; [unfold Rsqr; lra | nra].
Qed.

Lemma magnitude_triangle (x y : vec3) :
  magnitude (Vec3 (x.[0] + y.[0]) (x.[1] + y.[1]) (x.[2] + y.[2]))
  <= magnitude x + magnitude y.
Proof.
  pose proof (cauchy_schwarz x y) as Hcs.
  pose proof (magnitude_sq x) as Hx; pose proof (magnitude_sq y) as Hy.
  pose proof (magnitude_nonneg x); pose proof (magnitude_nonneg y).
  set (s := Vec3 _ _ _).
  pose proof (magnitude_sq s) as Hs; pose proof (magnitude_nonneg s).
  assert (Hsum : s.[0] ^ 2 + s.[1] ^ 2 + s.[2] ^ 2
                 = (x.[0] ^ 2 + x.[1] ^ 2 + x.[2] ^ 2)
                   + (y.[0] ^ 2 + y.[1] ^ 2 + y.[2] ^ 2)
                   + 2 * dot_product x y)
    by (unfold s, dot_product; cbn [ix0 ix1 ix2]; ring).
  rewrite Hsum, <- Hx, <- Hy in Hs.
  apply Rsqr_incr_0_var; [unfold Rsqr; nra | nra].
Qed.

Lemma distance_sym (a b : vec3) : distance a b = distance b a.
Proof. unfold distance; f_equal; ring. Qed.

Lemma distance_triangle (a b c : vec3) :
  distance a c <= distance a b + distance b c.
Proof.
  rewrite !distance_as_magnitude.
  replace (vsub c a)
    with (Vec3 ((vsub b a).[0] + (vsub c b).[0])
               ((vsub b a).[1] + (vsub c b).[1])
               ((vsub b a).[2] + (vsub c b).[2]))
    by (apply vec3_eq; cbn; ring).
  apply magnitude_triangle.
Qed.

Lemma distance_nonneg (a b : vec3) : 0 <= distance a b.
Proof. apply sqrt_pos. Qed.

Lemma pair_distance_nonneg (sats : list satellite) (p : nat * nat) :
  0 <= pair_distance sats p.
Proof.
  unfold pair_distance.
  destruct (nth_error sats (fst p)); [| lra].
  destruct (nth_error sats (snd p)); [apply distance_nonneg | lra].
Qed.

(** X19.  [distance] is a metric: it is symmetric, it is zero exactly
    between equal points, and it satisfies the triangle inequality. *)
Theorem distance_is_a_metric (a b c : vec3) :
  distance a b = distance b a /\
  (distance a b = 0 <-> a = b) /\
  distance a c <= distance a b + distance b c.
Proof.
  split; [| split].
  - apply distance_sym.
  - rewrite distance_as_magnitude, magnitude_zero_iff; split.
    + intros H; apply vec3_eq.
      * apply (f_equal ix0) in H; cbn in H; lra.
      * apply (f_equal ix1) in H; cbn in H; lra.
      * apply (f_equal ix2) in H; cbn in H; lra.
    + intros ->; apply vec3_eq; cbn; ring.
  - apply distance_triangle.
Qed.

(** X20.  [ecef_to_ntw_matrix] raises ZeroDivisionError when [r x v] is
    zero; otherwise it returns a matrix whose rows N, T, W satisfy N . (T x
    W) = -1, a left-handed basis. *)
Theorem ecef_to_ntw_matrix_domain (r v : vec3) :
  (cross_product r v = vzero -> ecef_to_ntw_matrix r v = ZeroDivisionError) /\
  (cross_product r v <> vzero ->
   exists m, ecef_to_ntw_matrix r v = Ok m /\
     dot_product (row0 m) (cross_product (row1 m) (row2 m)) = -1).
Proof.
  split.
  - intros Hc; unfold ecef_to_ntw_matrix.
    rewrite normalize_zero_magnitude; [reflexivity |].
    apply magnitude_zero_iff; exact Hc.
  - intros Hc.
    destruct (ecef_to_ntw_matrix_ok r v Hc) as (_ & _ & Hmat).
    destruct (ntw_rows_orthonormal r v Hc) as ((Hn & Ht & _) & (Hnt & _ & _)).
    eexists; split; [exact Hmat |]; cbn [row0 row1 row2].
    set (n := normalized (cross_product r v)) in *.
    set (t := normalized v) in *.
    transitivity (dot_product n t ^ 2
                  - (n.[0] ^ 2 + n.[1] ^ 2 + n.[2] ^ 2)
                    * (t.[0] ^ 2 + t.[1] ^ 2 + t.[2] ^ 2)).
    + unfold dot_product; cbn; ring.
    + rewrite Hn, Ht, Hnt; ring.
Qed.

Lemma ecef_to_ntw_matrix_domain_witness :
  ecef_to_ntw_matrix (Vec3 1 0 0) (Vec3 2 0 0) = ZeroDivisionError.
Proof.
  apply (proj1 (ecef_to_ntw_matrix_domain (Vec3 1 0 0) (Vec3 2 0 0))).
  apply vec3_eq; cbn; ring.
Defined.

End VectorHelpers.

(** ** What calculate_apparent_length returns *)

Section ApparentLengthMore.

Import Relative.

Variables (sats : list satellite) (r_ac_ecef : vec3) (lat lon : R).

(** *** The two angular lengths *)

Lemma ecef2enu_dot_relative (a b : vec3) :
  dot_product (Cockpitview.ecef2enu a lat lon) (Cockpitview.ecef2enu b lat lon)
  = dot_product a b.
Proof. exact (ecef2enu_dot a b lat lon). Qed.

Lemma ecef2enu_magnitude_relative (a : vec3) :
  magnitude (Cockpitview.ecef2enu a lat lon) = magnitude a.
Proof.
  unfold magnitude; f_equal; rewrite ecef2enu_sum_squares; ring.
Qed.

Lemma acos_degrees_range (c : R) :
  0 <= acos (Rmax (Rmin c 1) (-1)) * (180 / PI) <= 180.
Proof.
  pose proof PI_RGT_0 as Hpi.
  pose proof (acos_bound (Rmax (Rmin c 1) (-1))) as [H1 H2].
  set (a := acos _) in *.
  assert (Hrad : a = (a * (180 / PI)) * PI / 180) by (field; lra).
  split; apply Rmult_le_reg_r with PI; try exact Hpi; lra.
Qed.

Lemma pair_body_lengths (i j : nat) (st : pair_state) :
  (i < length sats)%nat -> (j < length sats)%nat ->
  lengths_agree st ->
  exists st',
    pair_body sats r_ac_ecef lat lon i j st = Ok st' /\ lengths_agree st'.
Proof.
  intros Hi Hj [Heq Hrange].
  destruct (getitem_in_range sats i Hi) as (si & _ & Hgi).
  destruct (getitem_in_range sats j Hj) as (sj & _ & Hgj).
  unfold pair_body; rewrite Hgi, Hgj; cbn [bind].
  eexists; split; [reflexivity |].
  unfold lengths_agree; cbn [max_length_degrees_ecef max_length_degrees_enu].
  rewrite !ecef2enu_dot_relative, !ecef2enu_magnitude_relative, <- Heq.
  split; [reflexivity |].
  destruct (Req_EM_T _ 0); [exact Hrange |].
  assert (Hmax : forall a b, 0 <= a <= 180 -> 0 <= b <= 180 ->
                             0 <= Rmax a b <= 180)
    by (intros a b Ha Hb; unfold Rmax; destruct (Rle_dec a b); lra).
  apply Hmax; [exact Hrange | apply acos_degrees_range].
Qed.

Lemma pair_loop_lengths :
  exists st,
    pair_loop sats r_ac_ecef lat lon initial_pair_state = Ok st /\
    lengths_agree st.
Proof.
  rewrite pair_loop_pair_order.
  assert (Hrange : Forall (fun ij => (fst ij < length sats)%nat
                                     /\ (snd ij < length sats)%nat)
                     (pair_order (length sats))).
  { apply Forall_forall; intros [i j] Hin.
    apply pair_order_in_range in Hin; cbn [fst snd]; lia. }
  assert (Hinit : lengths_agree initial_pair_state)
    by (unfold lengths_agree; cbn; split; [reflexivity | lra]).
  revert Hinit; generalize initial_pair_state.
  induction Hrange as [| [i j] l [Hi Hj] _ IH]; intros st Hst.
  - exists st; split; [reflexivity | exact Hst].
  - cbn [for_each fst snd] in *.
    destruct (pair_body_lengths i j st Hi Hj Hst) as (st1 & Hbody & Hst1).
    rewrite Hbody; cbn [bind]; apply IH; exact Hst1.
Qed.

(** *** What a normal return tells *)

(** The values a normal return is made of. *)
Lemma apparent_length_inversion
  (ole oln odd od1 od2 : option R) (fs : furthest) :
  calculate_apparent_length sats r_ac_ecef lat lon
  = Ok (ole, oln, odd, od1, od2, Some fs) ->
  exists st c i j si sj sm,
    pair_loop sats r_ac_ecef lat lon initial_pair_state = Ok st /\
    for_each (enumerate sats) midpoint_body (None, furthest_satellites st)
    = Ok (c, fs) /\
    fs_sat1 fs = Some i /\ fs_sat2 fs = Some j /\
    nth_error sats i = Some si /\ nth_error sats j = Some sj /\
    nth_error sats (fs_midpoint_sat fs) = Some sm /\
    ole = Some (max_length_degrees_ecef st) /\
    oln = Some (max_length_degrees_enu st) /\
    odd = Some (Rabs (distance (position si) r_ac_ecef
                      - distance (position sj) r_ac_ecef)) /\
    od1 = Some (distance (position si) (position sm)) /\
    od2 = Some (distance (position sj) (position sm)).
Proof.
  unfold calculate_apparent_length.
  destruct (pair_loop sats r_ac_ecef lat lon initial_pair_state)
    as [st | | |] eqn:Hloop; cbn [bind]; try discriminate.
  destruct (for_each (enumerate sats) midpoint_body
              (None, furthest_satellites st)) as [[c fs'] | | |] eqn:Hscan;
    cbn [bind snd]; try discriminate.
  destruct (fs_sat1 fs') as [i |] eqn:E1; [| discriminate].
  destruct (fs_sat2 fs') as [j |] eqn:E2; [| discriminate].
  unfold getitem.
  destruct (nth_error sats i) as [si |] eqn:Ei; cbn [bind]; [| discriminate].
  destruct (nth_error sats j) as [sj |] eqn:Ej; cbn [bind]; [| discriminate].
  destruct (nth_error sats (fs_midpoint_sat fs')) as [sm |] eqn:Em;
    cbn [bind]; [| discriminate].
  intros H; injection H as <- <- <- <- <- <-.
  exists st, c, i, j, si, sj, sm; repeat split; try assumption; reflexivity.
Qed.

(** *** The recorded pair *)

(** The pair loop keeps [recorded]. *)
Lemma retain_recorded (l seen : list (nat * nat)) (fs : furthest) :
  recorded sats seen fs -> recorded sats (seen ++ l) (fold_left (retain sats) l fs).
Proof.
  revert seen fs; induction l as [| p l IH]; intros seen fs Hrec.
  - rewrite app_nil_r; exact Hrec.
  - cbn [fold_left].
    replace (seen ++ p :: l) with ((seen ++ [p]) ++ l)
      by (rewrite <- app_assoc; reflexivity).
    apply IH; destruct Hrec as [Hall Hpair]; unfold retain.
    destruct (Rgt_dec (pair_distance sats p) (fs_distance fs)) as [Hgt | Hle].
    + split; cbn [fs_distance fs_sat1 fs_sat2 fs_midpoint].
      * apply Forall_app; split.
        -- eapply Forall_impl; [| exact Hall]; cbn; intros; lra.
        -- constructor; [lra | constructor].
      * destruct p as [i j]; cbn [fst snd].
        split; [apply in_or_app; right; left; reflexivity |].
        split; [reflexivity |]; split; [| reflexivity].
        destruct (fs_sat1 fs), (fs_sat2 fs); try contradiction; lra.
    + split.
      * apply Forall_app; split; [exact Hall |].
        constructor; [lra | constructor].
      * destruct (fs_sat1 fs), (fs_sat2 fs); try contradiction; try assumption.
        destruct Hpair as (Hin & H); split; [| exact H].
        apply in_or_app; left; exact Hin.
Qed.

Lemma pair_loop_recorded :
  exists st,
    pair_loop sats r_ac_ecef lat lon initial_pair_state = Ok st /\
    recorded sats (pair_order (length sats)) (furthest_satellites st) /\
    fs_midpoint_sat (furthest_satellites st) = 0%nat.
Proof.
  destruct (pair_loop_retain sats r_ac_ecef lat lon initial_pair_state)
    as (st & Hloop & Hfs).
  exists st; split; [exact Hloop |]; rewrite Hfs; split.
  - apply (retain_recorded (pair_order (length sats)) []).
    split; [constructor | cbn; auto].
  - generalize (pair_order (length sats)) (furthest_satellites initial_pair_state)
      (eq_refl : fs_midpoint_sat (furthest_satellites initial_pair_state) = 0%nat).
    induction l as [| p l IH]; intros fs Hfs0; [exact Hfs0 |].
    cbn [fold_left]; apply IH; unfold retain.
    destruct (Rgt_dec _ _); assumption.
Qed.


(** *** The midpoint scan *)

(** The midpoint scan keeps [nearest_so_far] and does not raise once a
    midpoint is recorded. *)
Lemma midpoint_scan_nearest (m : vec3) (l visited : list (nat * satellite))
  (c : option R) (fs : furthest) :
  fs_midpoint fs = Some m ->
  nearest_so_far m visited c fs ->
  exists c' fs',
    for_each l midpoint_body (c, fs) = Ok (c', fs') /\
    nearest_so_far m (visited ++ l) c' fs'.
Proof.
  revert visited c fs; induction l as [| [idx sat] l IH];
    intros visited c fs Hm Hnear.
  - exists c, fs; rewrite app_nil_r; split; [reflexivity | exact Hnear].
  - cbn [for_each midpoint_body]; rewrite Hm; cbn [subscriptable bind].
    replace (visited ++ (idx, sat) :: l) with ((visited ++ [(idx, sat)]) ++ l)
      by (rewrite <- app_assoc; reflexivity).
    assert (Hcloser :
      (match c with Some d => distance (position sat) m < d | None => True end) ->
      nearest_so_far m (visited ++ [(idx, sat)])
        (Some (distance (position sat) m))
        {| fs_sat1 := fs_sat1 fs; fs_sat2 := fs_sat2 fs;
           fs_distance := fs_distance fs; fs_midpoint := Some m;
           fs_midpoint_sat := idx |}).
    { intros Hlt; split; cbn [fs_midpoint_sat].
      - exists sat; split; [apply in_or_app; right; left |]; reflexivity.
      - apply Forall_app; split; [| constructor; [cbn; lra | constructor]].
        destruct c as [d |]; cbn in Hnear.
        + destruct Hnear as [_ Hall].
          eapply Forall_impl; [| exact Hall]; cbn; intros; lra.
        + subst visited; constructor. }
    destruct c as [d |].
    + destruct (Rlt_dec (distance (position sat) m) d) as [Hlt | Hge];
        cbn [bind].
      * apply IH; [reflexivity | apply Hcloser; exact Hlt].
      * apply IH; [exact Hm |].
        destruct Hnear as [(s & Hin & Hd) Hall]; split.
        -- exists s; split; [apply in_or_app; left; exact Hin | exact Hd].
        -- apply Forall_app; split; [exact Hall |].
           constructor; [cbn; lra | constructor].
    + cbn [bind]; apply IH; [reflexivity | apply Hcloser; exact I].
Qed.

Lemma in_enumerate_from {A : Type} (l : list A) (a k : nat) (x : A) :
  In (k, x) (combine (seq a (length l)) l) <->
  (a <= k)%nat /\ nth_error l (k - a) = Some x.
Proof.
  revert a; induction l as [| y l IH]; intros a; cbn [length seq combine].
  - split; [intros [] | intros [_ H]; destruct (k - a)%nat; discriminate].
  - cbn [In]; rewrite IH; split.
    + intros [H | [Hle H]].
      * injection H as <- <-; split; [lia |].
        replace (a - a)%nat with 0%nat by lia; reflexivity.
      * split; [lia |].
        replace (k - a)%nat with (S (k - S a)) by lia; exact H.
    + intros [Hle H].
      destruct (Nat.eq_dec a k) as [<- | Hne].
      * left; replace (a - a)%nat with 0%nat in H by lia.
        injection H as <-; reflexivity.
      * right; split; [lia |].
        replace (k - a)%nat with (S (k - S a)) in H by lia; exact H.
Qed.

Lemma in_enumerate (k : nat) (s : satellite) :
  In (k, s) (enumerate sats) <-> nth_error sats k = Some s.
Proof.
  unfold enumerate; rewrite in_enumerate_from.
  replace (k - 0)%nat with k by lia; split; [tauto | intros; split; [lia | assumption]].
Qed.

(** *** Everything a normal return tells *)

(** What holds of the six values of a normal return. *)
Lemma apparent_length_return_facts
  (ole oln odd od1 od2 : option R) (fs : furthest) :
  calculate_apparent_length sats r_ac_ecef lat lon
  = Ok (ole, oln, odd, od1, od2, Some fs) ->
  exists st i j si sj sm,
    lengths_agree st /\
    ole = Some (max_length_degrees_ecef st) /\
    oln = Some (max_length_degrees_enu st) /\
    fs_sat1 fs = Some i /\ fs_sat2 fs = Some j /\
    (i < j < length sats)%nat /\
    nth_error sats i = Some si /\ nth_error sats j = Some sj /\
    nth_error sats (fs_midpoint_sat fs) = Some sm /\
    fs_distance fs = distance (position si) (position sj) /\
    0 < fs_distance fs /\
    Forall (fun p => pair_distance sats p <= fs_distance fs)
      (pair_order (length sats)) /\
    fs_midpoint fs = Some (midpoint_of (position si) (position sj)) /\
    (forall k s, nth_error sats k = Some s ->
       distance (position sm) (midpoint_of (position si) (position sj))
       <= distance (position s) (midpoint_of (position si) (position sj))) /\
    odd = Some (Rabs (distance (position si) r_ac_ecef
                      - distance (position sj) r_ac_ecef)) /\
    od1 = Some (distance (position si) (position sm)) /\
    od2 = Some (distance (position sj) (position sm)).
Proof.
  intros Hret.
  destruct (apparent_length_inversion _ _ _ _ _ _ Hret)
    as (st & c & i & j & si & sj & sm & Hloop & Hscan & E1 & E2 & Hi & Hj
        & Hm & Hle & Hln & Hdd & Hd1 & Hd2).
  destruct pair_loop_lengths as (st1 & Hloop1 & Hagree).
  destruct pair_loop_recorded as (st2 & Hloop2 & [Hall Hpair] & _).
  rewrite Hloop in Hloop1, Hloop2.
  injection Hloop1 as <-; injection Hloop2 as <-.
  destruct (fs_sat1 (furthest_satellites st)) as [i0 |] eqn:F1;
    destruct (fs_sat2 (furthest_satellites st)) as [j0 |] eqn:F2;
    try contradiction.
  - destruct Hpair as (Hin & Hdist & Hpos & Hmid).
    apply pair_order_in_range in Hin.
    destruct (getitem_in_range sats i0) as (si0 & Hi0 & _); [lia |].
    destruct (getitem_in_range sats j0) as (sj0 & Hj0 & _); [lia |].
    rewrite Hi0, Hj0 in Hmid.
    destruct (midpoint_scan_ok (enumerate sats) None _ _ Hmid)
      as (c1 & fs1 & Hscan1 & G1 & G2 & G3 & G4 & _).
    destruct (midpoint_scan_nearest _ (enumerate sats) [] None _ Hmid eq_refl)
      as (c2 & fs2 & Hscan2 & Hnear).
    rewrite Hscan in Hscan1, Hscan2.
    injection Hscan1 as <- <-; injection Hscan2 as <- <-.
    rewrite G1, F1 in E1; rewrite G2, F2 in E2.
    injection E1 as <-; injection E2 as <-.
    rewrite Hi0 in Hi; rewrite Hj0 in Hj; injection Hi as <-; injection Hj as <-.
    assert (Hd : fs_distance fs = distance (position si0) (position sj0)).
    { rewrite G3, <- Hdist; unfold pair_distance; cbn [fst snd].
      rewrite Hi0, Hj0; reflexivity. }
    exists st, i0, j0, si0, sj0, sm.
    split; [exact Hagree |]; split; [exact Hle |]; split; [exact Hln |].
    split; [congruence |]; split; [congruence |]; split; [lia |].
    split; [exact Hi0 |]; split; [exact Hj0 |]; split; [exact Hm |].
    split; [exact Hd |].
    split; [rewrite G3; exact Hpos |].
    split; [rewrite G3; exact Hall |].
    split; [congruence |].
    split; [| split; [exact Hdd | split; [exact Hd1 | exact Hd2]]].
    intros k s Hk; cbn [app] in Hnear.
    destruct c as [d |]; cbn in Hnear.
    + destruct Hnear as [(s0 & Hin0 & Hd0) Hnearall].
      apply in_enumerate in Hin0; rewrite Hm in Hin0; injection Hin0 as <-.
      rewrite <- Hd0.
      rewrite Forall_forall in Hnearall.
      apply (Hnearall (k, s)); apply in_enumerate; exact Hk.
    + assert (Hks : In (k, s) (enumerate sats))
        by (apply in_enumerate; exact Hk).
      rewrite Hnear in Hks; destruct Hks.
  - destruct Hpair as [_ Hmid].
    destruct sats as [| s0 rest] eqn:Hs.
    + cbn in Hscan; injection Hscan as _ <-; congruence.
    + change (enumerate (s0 :: rest))
        with ((0%nat, s0) :: combine (seq 1 (length rest)) rest) in Hscan.
      rewrite midpoint_scan_raises in Hscan by exact Hmid; discriminate.
Qed.

(** Some pair at a positive distance is enough for a normal return. *)
Lemma apparent_length_returns :
  Exists (fun p => 0 < pair_distance sats p) (pair_order (length sats)) ->
  exists le ln dd d1 d2 fs,
    calculate_apparent_length sats r_ac_ecef lat lon
    = Ok (Some le, Some ln, Some dd, Some d1, Some d2, Some fs).
Proof.
  intros Hex.
  destruct pair_loop_recorded as (st & Hloop & [Hall Hpair] & Hms).
  assert (Hpos : 0 < fs_distance (furthest_satellites st)).
  { apply Exists_exists in Hex; destruct Hex as (p & Hin & Hp).
    rewrite Forall_forall in Hall; specialize (Hall p Hin); lra. }
  destruct (fs_sat1 (furthest_satellites st)) as [i |] eqn:F1;
    destruct (fs_sat2 (furthest_satellites st)) as [j |] eqn:F2;
    try contradiction; [| destruct Hpair; lra].
  destruct Hpair as (Hin & _ & _ & Hmid).
  apply pair_order_in_range in Hin.
  destruct (getitem_in_range sats i) as (si & Hi & Hgi); [lia |].
  destruct (getitem_in_range sats j) as (sj & Hj & Hgj); [lia |].
  rewrite Hi, Hj in Hmid.
  destruct (midpoint_scan_ok (enumerate sats) None _ _ Hmid)
    as (c & fs & Hscan & G1 & G2 & _ & _ & G5).
  assert (Hlt : (fs_midpoint_sat fs < length sats)%nat).
  { destruct G5 as [G5 | G5].
    - rewrite G5, Hms; lia.
    - rewrite enumerate_indices in G5; apply in_seq in G5; lia. }
  destruct (getitem_in_range sats _ Hlt) as (sm & _ & Hgm).
  unfold calculate_apparent_length.
  rewrite Hloop; cbn [bind]; rewrite Hscan; cbn [bind snd].
  rewrite G1, G2, F1, F2, Hgi; cbn [bind].
  rewrite Hgj; cbn [bind]; rewrite Hgm; cbn [bind].
  do 6 eexists; reflexivity.
Qed.

End ApparentLengthMore.

Section ApparentLengthReturn.

Import Relative.

Lemma equilateral_returns (r_ac_ecef : vec3) (lat lon : R) :
  exists le ln dd d1 d2 fs,
    calculate_apparent_length equilateral r_ac_ecef lat lon
    = Ok (Some le, Some ln, Some dd, Some d1, Some d2, Some fs).
Proof.
  apply apparent_length_returns.
  apply Exists_cons_hd.
  change (0 < distance (Vec3 1 0 0) (Vec3 0 1 0)).
  rewrite distance_unit_axes_01; apply sqrt_lt_R0; lra.
Qed.

(** X21.  Whenever [calculate_apparent_length] returns a recorded pair, the
    angular length it computed from the ECEF vectors and the one it computed
    from the ENU vectors are the same number, between 0 and 180 degrees. *)
Theorem apparent_lengths_coincide
  (sats : list satellite) (r_ac_ecef : vec3) (lat lon : R)
  (ole oln odd od1 od2 : option R) (fs : furthest) :
  calculate_apparent_length sats r_ac_ecef lat lon
  = Ok (ole, oln, odd, od1, od2, Some fs) ->
  exists le, ole = Some le /\ oln = Some le /\ 0 <= le <= 180.
Proof.
  intros Hret.
  destruct (apparent_length_return_facts _ _ _ _ _ _ _ _ _ _ Hret)
    as (st & i & j & si & sj & sm & [Heq Hrange] & Hle & Hln & _).
  exists (max_length_degrees_ecef st); rewrite Heq at 2; auto.
Qed.

Lemma apparent_lengths_coincide_witness :
  exists le ln dd d1 d2 fs,
    calculate_apparent_length equilateral vzero 0 0
    = Ok (Some le, Some ln, Some dd, Some d1, Some d2, Some fs) /\
    le = ln /\ 0 <= le <= 180.
Proof.
  destruct (equilateral_returns vzero 0 0)
    as (le & ln & dd & d1 & d2 & fs & Hret).
  exists le, ln, dd, d1, d2, fs; split; [exact Hret |].
  destruct (apparent_lengths_coincide _ _ _ _ _ _ _ _ _ _ Hret)
    as (l & H1 & H2 & H3).
  injection H1 as ->; injection H2 as ->; auto.
Defined.

(** X22.  Whenever [calculate_apparent_length] returns a recorded pair, its
    indices [sat1 < sat2] are in range, the recorded distance is the
    distance of these two targets and is positive, and no pair of targets is
    further apart. *)
Theorem furthest_pair_is_maximal
  (sats : list satellite) (r_ac_ecef : vec3) (lat lon : R)
  (ole oln odd od1 od2 : option R) (fs : furthest) :
  calculate_apparent_length sats r_ac_ecef lat lon
  = Ok (ole, oln, odd, od1, od2, Some fs) ->
  exists i j,
    fs_sat1 fs = Some i /\ fs_sat2 fs = Some j /\ (i < j < length sats)%nat /\
    pair_distance sats (i, j) = fs_distance fs /\
    0 < fs_distance fs /\
    (forall p, In p (pair_order (length sats)) ->
               pair_distance sats p <= fs_distance fs).
Proof.
  intros Hret.
  destruct (apparent_length_return_facts _ _ _ _ _ _ _ _ _ _ Hret)
    as (st & i & j & si & sj & sm & _ & _ & _ & E1 & E2 & Hij & Hi & Hj & _
        & Hd & Hpos & Hall & _).
  exists i, j; repeat (split; [first [assumption | lia] |]).
  split; [| split; [exact Hpos | apply Forall_forall; exact Hall]].
  unfold pair_distance; cbn [fst snd]; rewrite Hi, Hj; symmetry; exact Hd.
Qed.

Lemma furthest_pair_is_maximal_witness :
  exists le ln dd d1 d2 fs i j,
    calculate_apparent_length equilateral vzero 0 0
    = Ok (Some le, Some ln, Some dd, Some d1, Some d2, Some fs) /\
    fs_sat1 fs = Some i /\ fs_sat2 fs = Some j /\
    pair_distance equilateral (i, j) = fs_distance fs.
Proof.
  destruct (equilateral_returns vzero 0 0)
    as (le & ln & dd & d1 & d2 & fs & Hret).
  destruct (furthest_pair_is_maximal _ _ _ _ _ _ _ _ _ _ Hret)
    as (i & j & H1 & H2 & _ & H3 & _).
  exists le, ln, dd, d1, d2, fs, i, j; auto.
Defined.

(** X23.  Whenever [calculate_apparent_length] returns a recorded pair, a
    midpoint is recorded and the target at index [midpoint_sat] is at least
    as close to it as every target of the list. *)
Theorem midpoint_satellite_is_nearest
  (sats : list satellite) (r_ac_ecef : vec3) (lat lon : R)
  (ole oln odd od1 od2 : option R) (fs : furthest) :
  calculate_apparent_length sats r_ac_ecef lat lon
  = Ok (ole, oln, odd, od1, od2, Some fs) ->
  exists m sm,
    fs_midpoint fs = Some m /\
    nth_error sats (fs_midpoint_sat fs) = Some sm /\
    (forall k s, nth_error sats k = Some s ->
                 distance (position sm) m <= distance (position s) m).
Proof.
  intros Hret.
  destruct (apparent_length_return_facts _ _ _ _ _ _ _ _ _ _ Hret)
    as (st & i & j & si & sj & sm & _ & _ & _ & _ & _ & _ & _ & _ & Hm
        & _ & _ & _ & Hmid & Hnear & _).
  exists (midpoint_of (position si) (position sj)), sm; auto.
Qed.

Lemma midpoint_satellite_is_nearest_witness :
  exists le ln dd d1 d2 fs m sm,
    calculate_apparent_length equilateral vzero 0 0
    = Ok (Some le, Some ln, Some dd, Some d1, Some d2, Some fs) /\
    fs_midpoint fs = Some m /\
    nth_error equilateral (fs_midpoint_sat fs) = Some sm /\
    distance (position sm) m <= distance (Vec3 0 0 1) m.
Proof.
  destruct (equilateral_returns vzero 0 0)
    as (le & ln & dd & d1 & d2 & fs & Hret).
  destruct (midpoint_satellite_is_nearest _ _ _ _ _ _ _ _ _ _ Hret)
    as (m & sm & H1 & H2 & H3).
  exists le, ln, dd, d1, d2, fs, m, sm.
  split; [exact Hret |]; split; [exact H1 |]; split; [exact H2 |].
  apply (H3 2%nat (target_at (Vec3 0 0 1))); reflexivity.
Defined.

(** X24.  Whenever [calculate_apparent_length] returns a recorded pair, the
    difference of the ranges from the aircraft lies between 0 and the
    distance of the pair, and the distance of the pair is at most the sum of
    the two distances to the midpoint target. *)
Theorem distance_figures_bounded
  (sats : list satellite) (r_ac_ecef : vec3) (lat lon : R)
  (ole oln odd od1 od2 : option R) (fs : furthest) :
  calculate_apparent_length sats r_ac_ecef lat lon
  = Ok (ole, oln, odd, od1, od2, Some fs) ->
  exists dd d1 d2,
    odd = Some dd /\ od1 = Some d1 /\ od2 = Some d2 /\
    0 <= dd <= fs_distance fs /\
    fs_distance fs <= d1 + d2.
Proof.
  intros Hret.
  destruct (apparent_length_return_facts _ _ _ _ _ _ _ _ _ _ Hret)
    as (st & i & j & si & sj & sm & _ & _ & _ & _ & _ & _ & _ & _ & _
        & Hd & _ & _ & _ & _ & Hdd & Hd1 & Hd2).
  do 3 eexists; split; [exact Hdd |]; split; [exact Hd1 |];
    split; [exact Hd2 |]; rewrite Hd.
  pose proof (distance_triangle (position si) (position sj) r_ac_ecef).
  pose proof (distance_triangle (position sj) (position si) r_ac_ecef).
  pose proof (distance_triangle (position si) (position sm) (position sj)).
  pose proof (distance_sym (position sj) (position si)).
  pose proof (distance_sym (position sm) (position sj)).
  split; [| lra].
  split; [apply Rabs_pos |].
  unfold Rabs; destruct (Rcase_abs _); lra.
Qed.

Lemma distance_figures_bounded_witness :
  exists le ln dd d1 d2 fs,
    calculate_apparent_length equilateral vzero 0 0
    = Ok (Some le, Some ln, Some dd, Some d1, Some d2, Some fs) /\
    0 <= dd <= fs_distance fs /\ fs_distance fs <= d1 + d2.
Proof.
  destruct (equilateral_returns vzero 0 0)
    as (le & ln & dd & d1 & d2 & fs & Hret).
  destruct (distance_figures_bounded _ _ _ _ _ _ _ _ _ _ Hret)
    as (dd' & d1' & d2' & H1 & H2 & H3 & H4 & H5).
  injection H1 as <-; injection H2 as <-; injection H3 as <-.
  exists le, ln, dd, d1, d2, fs; auto.
Defined.

(** X25.  The outcomes of [calculate_apparent_length]: on the empty list it
    returns six [None]; on a non-empty list no two of whose targets are at
    different positions it raises TypeError; when some two targets are at
    different positions it returns six values. *)
Theorem apparent_length_outcomes
  (sats : list satellite) (r_ac_ecef : vec3) (lat lon : R) :
  (sats = [] ->
   calculate_apparent_length sats r_ac_ecef lat lon
   = Ok (None, None, None, None, None, None)) /\
  (sats <> [] ->
   Forall (fun p => pair_distance sats p = 0) (pair_order (length sats)) ->
   calculate_apparent_length sats r_ac_ecef lat lon = TypeError) /\
  (Exists (fun p => pair_distance sats p <> 0) (pair_order (length sats)) ->
   exists le ln dd d1 d2 fs,
     calculate_apparent_length sats r_ac_ecef lat lon
     = Ok (Some le, Some ln, Some dd, Some d1, Some d2, Some fs)).
Proof.
  split; [intros ->; reflexivity |]; split.
  - intros Hne Hall; destruct sats as [| s rest]; [contradiction |].
    apply apparent_length_without_recorded_pair.
    eapply Forall_impl; [| exact Hall]; cbn; intros; lra.
  - intros Hex; apply apparent_length_returns.
    eapply Exists_impl; [| exact Hex]; cbn; intros p Hp.
    pose proof (pair_distance_nonneg sats p); lra.
Qed.

Lemma apparent_length_outcomes_witness :
  calculate_apparent_length [target_at vzero; target_at vzero] vzero 0 0
  = TypeError /\
  exists le ln dd d1 d2 fs,
    calculate_apparent_length equilateral vzero 0 0
    = Ok (Some le, Some ln, Some dd, Some d1, Some d2, Some fs).
Proof.
  split.
  - apply (apparent_length_outcomes [target_at vzero; target_at vzero] vzero 0 0).
    + discriminate.
    + apply Forall_cons; [apply distance_self | apply Forall_nil].
  - apply (apparent_length_outcomes equilateral vzero 0 0).
    apply Exists_cons_hd.
    change (distance (Vec3 1 0 0) (Vec3 0 1 0) <> 0).
    rewrite distance_unit_axes_01.
    assert (0 < sqrt 2) by (apply sqrt_lt_R0; lra); lra.
Defined.




End ApparentLengthReturn.

(** ** stars.py *)

(** The floored remainder by a positive modulus lies in [0, y). *)
Lemma pymod_range (x y : R) : 0 < y -> 0 <= pymod x y < y.
Proof.
  intros Hy; unfold pymod.
  destruct (base_Int_part (x / y)) as [H1 H2].
  assert (Hx : x = x / y * y) by (field; lra).
  set (n := IZR (Int_part (x / y))) in *.
  split.
  - assert (n * y <= x / y * y) by (apply Rmult_le_compat_r; lra). lra.
  - assert (x / y * y < (n + 1) * y) by (apply Rmult_lt_compat_r; lra). lra.
Qed.

Lemma pymod_small (x y : R) : 0 <= x < y -> pymod x y = x.
Proof.
  intros [H0 Hy]; unfold pymod.
  assert (Hfloor : 0%Z = Int_part (x / y)).
  { apply Int_part_spec; split.
    - assert (x / y < 1); [| lra].
      apply Rmult_lt_reg_r with y; [lra |].
      replace (x / y * y) with x by (field; lra); lra.
    - apply Rmult_le_reg_r with y; [lra |].
      replace (x / y * y) with x by (field; lra); lra. }
  rewrite <- Hfloor; lra.
Qed.

Section StarRows.

Variable datetime : Type.
Variable radec2azel : R -> R -> R -> R -> datetime -> R * R.
Variable path_join : String.string -> String.string -> String.string.

(** X27.  [process_stars] keeps the rows already written and appends one row
    for each star of the table, in order: the aircraft path, the name of the
    star, the elevation [radec2azel] returns, and a look angle in [-180,
    180) that is the azimuth less the heading up to a whole number of turns,
    and is that difference itself when it already lies in [-180, 180). *)
Theorem process_stars_rows (subdir aircraft : String.string)
  (heading_deg lat_deg lon_deg : R) (ac_datetime : datetime)
  (stars : list Stars.star) (writer : list Stars.star_row) :
  exists rows,
    Stars.process_stars datetime radec2azel path_join subdir aircraft
      heading_deg lat_deg lon_deg ac_datetime stars writer = writer ++ rows /\
    Forall2 (row_of datetime radec2azel (path_join subdir aircraft) heading_deg lat_deg lon_deg
               ac_datetime) stars rows.
Proof.
  unfold Stars.process_stars; cbv zeta.
  revert writer; induction stars as [| entry stars IH]; intros writer.
  - exists []; rewrite app_nil_r; split; [reflexivity | constructor].
  - destruct entry as [[[cname sname] ra] dec].
    cbn [fold_left].
    destruct (radec2azel ra dec lat_deg lon_deg ac_datetime) as [az el] eqn:Haz.
    match goal with
    | |- context [fold_left ?f stars (writer ++ [?row])] =>
        destruct (IH (writer ++ [row])) as (rows & Hrows & Hall);
        exists (row :: rows)
    end.
    split; [etransitivity; [exact Hrows | rewrite <- app_assoc; reflexivity] |].
    constructor; [| exact Hall].
    unfold row_of; rewrite Haz; cbn [fst snd].
    split; [reflexivity |]; split; [reflexivity |]; split; [reflexivity |].
    pose proof (pymod_range (az - heading_deg + 180) 360) as Hr.
    split; [lra |]; split.
    + exists (Int_part ((az - heading_deg + 180) / 360)).
      unfold pymod; ring.
    + intros Hin; rewrite pymod_small by lra; ring.
Qed.

End StarRows.

(** X28.  [hms_to_decimal] of an hour angle up to 23 h 59 m and less than 60
    s lies in [0, 360); [dms_to_decimal] adds minutes and seconds to non-
    negative degrees and subtracts them from negative degrees, so that
    negating non-zero degrees negates the result, while with degrees 0 the
    result is never negative. *)
Theorem sexagesimal_to_decimal (d m s : R) :
  (0 <= d <= 23 -> 0 <= m <= 59 -> 0 <= s < 60 ->
   0 <= Stars.hms_to_decimal d m s < 360) /\
  (0 <= d -> Stars.dms_to_decimal d m s = d + m / 60 + s / 3600) /\
  (d < 0 -> Stars.dms_to_decimal d m s = d - m / 60 - s / 3600) /\
  (d <> 0 -> Stars.dms_to_decimal (- d) m s = - Stars.dms_to_decimal d m s) /\
  (0 <= m -> 0 <= s -> 0 <= Stars.dms_to_decimal 0 m s).
Proof.
  assert (Hpos : 0 <= d -> Stars.dms_to_decimal d m s = d + m / 60 + s / 3600).
  { intros Hd; unfold Stars.dms_to_decimal; cbv zeta.
    destruct (Rge_dec d 0); [| lra]. rewrite Rabs_right by lra; ring. }
  assert (Hneg : d < 0 -> Stars.dms_to_decimal d m s = d - m / 60 - s / 3600).
  { intros Hd; unfold Stars.dms_to_decimal; cbv zeta.
    destruct (Rge_dec d 0); [lra |]. rewrite Rabs_left by lra; ring. }
  split; [| split; [exact Hpos | split; [exact Hneg | split]]].
  - intros Hd Hm Hs; unfold Stars.hms_to_decimal; lra.
  - intros Hd; unfold Stars.dms_to_decimal; cbv zeta.
    rewrite Rabs_Ropp.
    destruct (Rge_dec (- d) 0); destruct (Rge_dec d 0); try lra; ring.
  - intros Hm Hs; unfold Stars.dms_to_decimal; cbv zeta.
    destruct (Rge_dec 0 0); [| lra]. rewrite Rabs_R0; lra.
Qed.

Lemma sexagesimal_to_decimal_witness :
  0 <= Stars.hms_to_decimal 23 59 59 < 360.
Proof. apply (proj1 (sexagesimal_to_decimal 23 59 59)); lra. Defined.

(** ** csvout.py *)

Section CsvoutProperties.

Import Ascii String Csvout.
Local Open Scope string_scope.

Lemma startswith_ACA (f : string) :
  Csvout.startswith f "ACA" = true ->
  Csvout.startswith f "sun" = false /\ first_is_digit f = false /\ f <> "".
Proof.
  unfold Csvout.startswith; destruct f as [| c f]; cbn [prefix];
    [intros H; discriminate H |].
  destruct (ascii_dec "A" c) as [<- | Hne]; [| intros H; discriminate H].
  intros _; cbn; repeat split; discriminate.
Qed.

Lemma startswith_sun (f : string) :
  Csvout.startswith f "sun" = true -> first_is_digit f = false /\ f <> "".
Proof.
  unfold Csvout.startswith; destruct f as [| c f]; cbn [prefix];
    [intros H; discriminate H |].
  destruct (ascii_dec "s" c) as [<- | Hne]; [| intros H; discriminate H].
  intros _; cbn; split; [reflexivity | discriminate].
Qed.

(** The early return of the loop changes nothing: the result is the
    conjunction of the three flags after the whole listing. *)
Lemma scan_directory_spec (l : list string) :
  Forall (fun f => f <> "") l ->
  forall a s n : bool,
    a && s && n = false ->
    Csvout.scan_directory l a s n =
    Ok ((a || existsb (fun f => Csvout.startswith f "ACA") l)
        && (s || existsb (fun f => Csvout.startswith f "sun") l)
        && (n || existsb first_is_digit l)).
Proof.
  induction 1 as [| f l Hf _ IH]; intros a s n Hflags.
  - cbn; rewrite !orb_false_r, Hflags; reflexivity.
  - cbn [Csvout.scan_directory existsb].
    destruct (Csvout.startswith f "ACA") eqn:HA.
    + destruct (startswith_ACA f HA) as (HS & HD & _); rewrite HS, HD.
      cbn [bind orb].
      destruct (true && s && n) eqn:Hall.
      * cbn in Hall; apply andb_true_iff in Hall; destruct Hall as [-> ->].
        rewrite !orb_true_r; reflexivity.
      * rewrite IH by exact Hall; rewrite !orb_true_r; reflexivity.
    + destruct (Csvout.startswith f "sun") eqn:HS.
      * destruct (startswith_sun f HS) as (HD & _); rewrite HD.
        cbn [bind orb].
        destruct (a && true && n) eqn:Hall.
        -- rewrite andb_true_r in Hall; apply andb_true_iff in Hall.
           destruct Hall as [-> ->]; rewrite !orb_true_r; reflexivity.
        -- rewrite IH by exact Hall; rewrite !orb_true_r; reflexivity.
      * destruct f as [| c f]; [contradiction |].
        cbn [first_is_digit orb].
        destruct (Csvout.isdigit c); cbn [bind].
        -- destruct (a && s && true) eqn:Hall.
           ++ rewrite andb_true_r in Hall; apply andb_true_iff in Hall.
              destruct Hall as [-> ->]; rewrite !orb_true_r; reflexivity.
           ++ rewrite IH by exact Hall; rewrite !orb_true_r; reflexivity.
        -- rewrite Hflags; apply IH; exact Hflags.
Qed.

(** X29.  On a listing without an empty name [should_process_directory]
    returns whether some name starts with ACA, some name starts with sun and
    some name starts with a digit; the answer does not depend on the order
    of the listing. *)
Theorem should_process_directory_spec (listing : list string) :
  Forall (fun f => f <> "") listing ->
  Csvout.should_process_directory listing =
  Ok (existsb (fun f => Csvout.startswith f "ACA") listing
      && existsb (fun f => Csvout.startswith f "sun") listing
      && existsb first_is_digit listing) /\
  (forall listing',
      Permutation listing listing' ->
      Csvout.should_process_directory listing'
      = Csvout.should_process_directory listing).
Proof.
  intros Hne.
  assert (Hspec : forall l, Forall (fun f => f <> "") l ->
    Csvout.should_process_directory l =
    Ok (existsb (fun f => Csvout.startswith f "ACA") l
        && existsb (fun f => Csvout.startswith f "sun") l
        && existsb first_is_digit l))
    by (intros l Hl; unfold Csvout.should_process_directory;
        rewrite scan_directory_spec by (assumption || reflexivity);
        reflexivity).
  split; [apply Hspec; exact Hne |].
  intros listing' Hperm.
  assert (Hne' : Forall (fun f => f <> "") listing')
    by (eapply Permutation_Forall; eassumption).
  rewrite !Hspec by assumption.
  assert (Hex : forall p : string -> bool,
                  existsb p listing' = existsb p listing).
  { intros p; apply eq_true_iff_eq; rewrite !existsb_exists.
    split; intros (x & Hin & Hp); exists x; split; try assumption.
    - eapply Permutation_in; [symmetry; exact Hperm | exact Hin].
    - eapply Permutation_in; [exact Hperm | exact Hin]. }
  rewrite !Hex; reflexivity.
Qed.

Lemma should_process_directory_spec_witness :
  Csvout.should_process_directory ["1234.txt"; "sun.txt"; "ACA01.txt"; "x"]
  = Ok true.
Proof.
  destruct (should_process_directory_spec
              ["1234.txt"; "sun.txt"; "ACA01.txt"; "x"]) as [H _].
  - repeat (apply Forall_cons; [discriminate |]); apply Forall_nil.
  - rewrite H; reflexivity.
Defined.

Lemma all_chars_app p s t : all_chars p (s ++ t) = all_chars p s && all_chars p t.
Proof. induction s as [| c s IH]; cbn; [reflexivity |]. rewrite IH, andb_assoc; reflexivity. Qed.

Lemma append_empty_r (s : string) : s ++ "" = s.
Proof. induction s as [| c s IH]; cbn; [reflexivity | rewrite IH; reflexivity]. Qed.

Lemma append_assoc_s (s t u : string) : (s ++ t) ++ u = s ++ (t ++ u).
Proof. induction s as [| c s IH]; cbn; [reflexivity | rewrite IH; reflexivity]. Qed.

Lemma snoc_nonempty (w : string) (c : ascii) : w ++ String c "" <> "".
Proof. destruct w; discriminate. Qed.

(** The items of [split] are non-empty, hold no white space, and are made of
    characters of the line. *)
Lemma split_from_items (p : ascii -> bool) (s word : string) :
  no_space word = true -> all_chars p word = true -> all_chars p s = true ->
  Forall (fun item => item <> "" /\ no_space item = true /\ all_chars p item = true)
    (split_from word s).
Proof.
  revert word; induction s as [| c s IH]; intros word Hw Hpw Hps; cbn [split_from].
  - destruct word; [constructor |].
    constructor; [| constructor]. repeat split; try assumption; discriminate.
  - cbn in Hps; apply andb_true_iff in Hps; destruct Hps as [Hc Hs].
    destruct (isspace c) eqn:Hsp.
    + destruct word as [| a w].
      * apply IH; [reflexivity | reflexivity | exact Hs].
      * constructor; [repeat split; try assumption; discriminate |].
        apply IH; [reflexivity | reflexivity | exact Hs].
    + apply IH; [| | exact Hs].
      * unfold no_space in *; rewrite all_chars_app, Hw; cbn; rewrite Hsp; reflexivity.
      * rewrite all_chars_app, Hpw; cbn; rewrite Hc; reflexivity.
Qed.

Lemma all_chars_true (s : string) : all_chars (fun _ => true) s = true.
Proof. induction s; cbn; auto. Qed.

Lemma remove_commas_no_comma (s : string) : no_comma (remove_commas s) = true.
Proof.
  induction s as [| c s IH]; cbn; [reflexivity |].
  destruct (Ascii.eqb c ",") eqn:E; [exact IH |].
  cbn; fold (no_comma (remove_commas s)); rewrite E, IH; reflexivity.
Qed.

Lemma lstrip_all_chars p s : all_chars p s = true -> all_chars p (lstrip s) = true.
Proof.
  induction s as [| c s IH]; cbn; [auto |].
  intros H; destruct (isspace c); [| exact H].
  apply andb_true_iff in H; apply IH; tauto.
Qed.

Lemma rstrip_all_chars p s : all_chars p s = true -> all_chars p (rstrip s) = true.
Proof.
  induction s as [| c s IH]; cbn [rstrip all_chars]; [auto |].
  intros H; apply andb_true_iff in H; destruct H as [Hc Hs].
  specialize (IH Hs).
  destruct (rstrip s) as [| c' r].
  - destruct (isspace c); cbn; [reflexivity | rewrite Hc; reflexivity].
  - cbn [all_chars] in *; rewrite Hc, IH; reflexivity.
Qed.

Lemma split_from_rstrip (s word : string) :
  split_from word (rstrip s) = split_from word s.
Proof.
  revert word; induction s as [| c s IH]; intros word; [reflexivity |].
  cbn [rstrip].
  destruct (rstrip s) as [| c' r] eqn:Hr.
  - destruct (isspace c) eqn:Hsp.
    + cbn [split_from]; rewrite Hsp, <- IH; cbn [split_from].
      destruct word; reflexivity.
    + cbn [split_from]; rewrite Hsp, <- IH; reflexivity.
  - cbn [split_from]. destruct (isspace c).
    + rewrite <- IH; reflexivity.
    + rewrite <- IH; reflexivity.
Qed.

Lemma split_lstrip (s : string) : split (lstrip s) = split s.
Proof.
  unfold split; induction s as [| c s IH]; [reflexivity |].
  cbn [lstrip split_from]; destruct (isspace c) eqn:Hsp; [exact IH |].
  cbn [split_from]; rewrite Hsp; reflexivity.
Qed.

(** [strip] before [split] changes nothing. *)
Lemma split_strip (s : string) : split (strip s) = split s.
Proof. unfold strip, split at 1; rewrite split_from_rstrip; apply split_lstrip. Qed.

Lemma split_from_word (item rest word : string) :
  no_space item = true ->
  split_from word (item ++ rest) = split_from (word ++ item) rest.
Proof.
  revert word; induction item as [| c item IH]; intros word Hi; cbn [append].
  - rewrite append_empty_r; reflexivity.
  - cbn in Hi; apply andb_true_iff in Hi; destruct Hi as [Hc Hi].
    cbn [split_from]. apply negb_true_iff in Hc; rewrite Hc.
    rewrite IH by exact Hi. rewrite append_assoc_s; reflexivity.
Qed.

Lemma remove_commas_id (s : string) : no_comma s = true -> remove_commas s = s.
Proof.
  induction s as [| c s IH]; cbn; [reflexivity |].
  intros H; apply andb_true_iff in H; destruct H as [Hc Hs].
  apply negb_true_iff in Hc; rewrite Hc, (IH Hs); reflexivity.
Qed.

Lemma no_comma_concat (items : list string) :
  Forall (fun item => no_comma item = true) items ->
  no_comma (concat " " items) = true.
Proof.
  induction 1 as [| item items Hi _ IH]; [reflexivity |].
  cbn [concat]; destruct items as [| item' items']; [exact Hi |].
  unfold no_comma in *; rewrite !all_chars_app, Hi.
  cbn [all_chars andb]. exact IH.
Qed.

(** [split] undoes joining by single spaces. *)
Lemma split_concat (items : list string) :
  Forall (fun item => item <> "" /\ no_space item = true) items ->
  split (concat " " items) = items.
Proof.
  unfold split; induction 1 as [| item items [Hne Hsp] _ IH]; [reflexivity |].
  cbn [concat]; destruct items as [| item' items'].
  - rewrite <- (append_empty_r item) at 1.
    rewrite split_from_word by exact Hsp; cbn.
    destruct item; [contradiction | reflexivity].
  - rewrite split_from_word by exact Hsp; cbn [append split_from].
    replace (isspace " ") with true by reflexivity.
    destruct item; [contradiction |]. cbn [append]. rewrite IH; reflexivity.
Qed.

(** X30.  Every item [parse_line] returns is non-empty and holds no white
    space; without colon removal no item holds a comma; and without colon
    removal the items of a line made of non-empty items free of white space
    and commas, joined by single spaces, are these items. *)
Theorem parse_line_items (re_sub_colon : string -> string) (line : string) :
  (forall remove_colon item,
      In item (parse_line re_sub_colon line remove_colon) ->
      item <> "" /\ no_space item = true) /\
  (forall item, In item (parse_line re_sub_colon line false) ->
                no_comma item = true) /\
  (forall items,
      Forall (fun item => item <> "" /\ no_space item = true
                          /\ no_comma item = true) items ->
      parse_line re_sub_colon (concat " " items) false = items).
Proof.
  split; [| split].
  - intros rc item Hin; unfold parse_line in Hin; cbv zeta in Hin.
    rewrite split_strip in Hin.
    unfold split in Hin.
    match type of Hin with
    | In _ (split_from _ ?s) =>
        pose proof (split_from_items (fun _ => true) s "" eq_refl eq_refl
                      (all_chars_true s)) as Hall
    end.
    rewrite Forall_forall in Hall; destruct (Hall item Hin) as (H1 & H2 & _).
    auto.
  - intros item Hin; unfold parse_line in Hin; cbv zeta in Hin.
    pose proof (split_from_items (fun c => negb (Ascii.eqb c ","))
                  (strip (remove_commas line)) "" eq_refl eq_refl) as Hall.
    assert (Hc : all_chars (fun c => negb (Ascii.eqb c ","))
                   (strip (remove_commas line)) = true)
      by apply rstrip_all_chars, lstrip_all_chars, remove_commas_no_comma.
    specialize (Hall Hc); rewrite Forall_forall in Hall.
    destruct (Hall item Hin) as (_ & _ & H3); exact H3.
  - intros items Hall; unfold parse_line; cbv zeta.
    rewrite split_strip, remove_commas_id.
    + apply split_concat; eapply Forall_impl; [| exact Hall]; cbn; tauto.
    + apply no_comma_concat; eapply Forall_impl; [| exact Hall]; cbn; tauto.
Qed.

Lemma parse_line_items_witness :
  parse_line (fun s => s) "12 ab" false = ["12"; "ab"].
Proof.
  apply (proj2 (proj2 (parse_line_items (fun s => s) "")) ["12"; "ab"]).
  repeat (apply Forall_cons;
          [split; [discriminate | split; reflexivity] |]).
  apply Forall_nil.
Defined.

End CsvoutProperties.
